(** * Population Based Training: hyper-parameters and evolution engines

    A shallow embedding of [PopulationBasedTraining/hyperparameters.py],
    [pbt/evolution.py] and the end criteria of [pbt/controller.py].

    Conventions of the embedding.
    - Python [int] is [Z]; a Python [float] is a rational [Q]. Where the
      rounding of float arithmetic decides what the code returns, the
      definitions take the rounding [fl] as a parameter (module [Float]);
      elsewhere float arithmetic is exact. There are no infinities; the
      one special float the code tests for, NaN, is a constructor of its
      own where it can occur (scores, operands).
    - A call that can raise returns a [result]; stateful methods return the
      state reached together with the result, so that the state at the
      point of a [raise] is visible.
    - Calls into [random] consume an explicit tape of draws. *)

From Stdlib Require Import ZArith QArith Qround Qabs Qpower List String Bool.
From Stdlib Require Import Lia Lqa.
From Stdlib Require Import Sorted Permutation.
From stdpp Require Import base option list gmap strings.
Import ListNotations.

Local Open Scope string_scope.
Local Open Scope list_scope.
Local Open Scope Z_scope.

(** ** Python layer *)

Module Py.

Inductive exn : Type :=
| AssertionError (msg : string)
| ValueError (msg : string)
| Exception (msg : string)
| TypeError
| IndexError
| KeyError
| ZeroDivisionError
| AttributeError
| OutOfEntropy.

Inductive result (A : Type) : Type :=
| Ok (a : A)
| Raise (e : exn).
Arguments Ok {A} a.
Arguments Raise {A} e.

#[export] Instance result_ret : MRet result := fun _ a => Ok a.
#[export] Instance result_bind : MBind result := fun _ _ f m =>
  match m with
  | Ok a => f a
  | Raise e => Raise e
  end.

Definition assert (b : bool) (msg : string) : result unit :=
  if b then Ok tt else Raise (AssertionError msg).

(** Heterogeneous values that reach [Hyperparameter]. *)
Inductive value : Type :=
| VInt (z : Z)
| VFloat (q : Q)
| VStr (s : string).

(** [isinstance(v, (float, int))] *)
Definition is_number (v : value) : bool :=
  match v with
  | VInt _ | VFloat _ => true
  | VStr _ => false
  end.

Definition is_float (v : value) : bool :=
  match v with VFloat _ => true | _ => false end.

Definition is_int (v : value) : bool :=
  match v with VInt _ => true | _ => false end.

(** The number denoted by a value; arithmetic on a [str] is a [TypeError]. *)
Definition as_number (v : value) : result Q :=
  match v with
  | VInt z => Ok (inject_Z z)
  | VFloat q => Ok q
  | VStr _ => Raise TypeError
  end.

Definition Qltb (x y : Q) : bool := negb (Qle_bool y x).

(** A float that may be NaN. *)
Inductive float : Type :=
| Real (q : Q)
| NaN.

(** [x < y] on floats: false as soon as one of them is NaN. *)
Definition float_lt (x y : float) : bool :=
  match x, y with
  | Real a, Real b => Qltb a b
  | _, _ => false
  end.

(** [a < b] *)
Definition lt (a b : value) : result bool :=
  match a, b with
  | VStr s, VStr t => Ok (String.ltb s t)
  | VStr _, _ | _, VStr _ => Raise TypeError
  | _, _ => x ← as_number a; y ← as_number b; Ok (Qltb x y)
  end.

(** [a == b] *)
Definition eq (a b : value) : bool :=
  match a, b with
  | VStr s, VStr t => String.eqb s t
  | VStr _, _ | _, VStr _ => false
  | VInt x, VInt y => Z.eqb x y
  | VInt x, VFloat y => Qeq_bool (inject_Z x) y
  | VFloat x, VInt y => Qeq_bool x (inject_Z y)
  | VFloat x, VFloat y => Qeq_bool x y
  end.

(** [sorted(l)]: a stable sort driven by [<]. *)
Fixpoint insert (x : value) (l : list value) : result (list value) :=
  match l with
  | [] => Ok [x]
  | y :: l' =>
      b ← lt y x;
      if b : bool then r ← insert x l'; Ok (y :: r) else Ok (x :: y :: l')
  end.

Fixpoint sorted (l : list value) : result (list value) :=
  match l with
  | [] => Ok []
  | x :: l' => s ← sorted l'; insert x s
  end.

(** [l[i]], negative indices counting from the end. *)
Definition getitem {A : Type} (l : list A) (i : Z) : result A :=
  let n := Z.of_nat (length l) in
  let j := if i <? 0 then n + i else i in
  if (j <? 0) || (n <=? j) then Raise IndexError
  else match nth_error l (Z.to_nat j) with
       | Some a => Ok a
       | None => Raise IndexError
       end.

(** [l.index(v)] *)
Fixpoint index (v : value) (l : list value) : result Z :=
  match l with
  | [] => Raise (ValueError "value is not in list")
  | x :: l' => if eq x v then Ok 0 else i ← index v l'; Ok (i + 1)
  end.

(** [round(x)] of a float: nearest integer, halves to the even one. *)
Definition round (q : Q) : Z :=
  let f := Qfloor q in
  match Qcompare (q - inject_Z f) (1 # 2) with
  | Lt => f
  | Gt => f + 1
  | Eq => if Z.even f then f else f + 1
  end.

(** [x / y] on floats *)
Definition div (x y : Q) : result Q :=
  if Qeq_bool y 0 then Raise ZeroDivisionError else Ok (x / y)%Q.

End Py.
Import Py.

(** ** Float arithmetic

    A float operation returns the float nearest to its exact result.
    Definitions in which this matters take the rounding [fl] as a
    parameter: [exact] is arithmetic on the rationals, [binary64] the
    rounding of the interpreter's floats. *)

Module Float.

Definition exact (q : Q) : Q := q.

(** [floor(log2 |q|)] of a non-zero [q] *)
Definition ilog2 (q : Q) : Z :=
  let c := Z.log2 (Z.abs (Qnum q)) - Z.log2 (Z.pos (Qden q)) in
  if Qle_bool (2 ^ c) (Qabs q) then c else c - 1.

(** The spacing of the floats around [q]: 53 significant bits. *)
Definition ulp (q : Q) : Q := 2 ^ (ilog2 q - 52).

(** Rounding to the nearest float, ties to the even significand. The
    exponent range is taken unbounded: no overflow, no underflow. *)
Definition binary64 (q : Q) : Q :=
  if Qeq_bool q 0 then 0%Q else (inject_Z (round (q / ulp q)) * ulp q)%Q.

(** What the theorems ask of a rounding. *)
Record Rounding (fl : Q -> Q) : Prop := {
  fl_proper : forall x y : Q, (x == y)%Q -> (fl x == fl y)%Q;
  fl_mono : forall x y : Q, (x <= y)%Q -> (fl x <= fl y)%Q;
  fl_int : forall n : Z, Z.abs n <= 2 ^ 53 ->
                         (fl (inject_Z n) == inject_Z n)%Q;
  fl_idem : forall x : Q, (fl (fl x) == fl x)%Q;
  fl_error : forall x : Q, (Qabs (fl x - x) <= (1 # 2 ^ 53) * Qabs x)%Q
}.

Existing Class Rounding.

(** A rounding can be rewritten under. *)
#[export] Instance Rounding_Proper (fl : Q -> Q) (H : Rounding fl)
  : Proper (Qeq ==> Qeq) fl := fl_proper fl H.

End Float.

(** ** hyperparameters.py *)

Module Hyperparameters.

Definition translate_number (value left_min left_max right_min right_max : Q)
  : result Q :=
  let left_span := (left_max - left_min)%Q in
  let right_span := (right_max - right_min)%Q in
  value_normalized ← div (value - left_min) left_span;
  Ok (right_min + value_normalized * right_span)%Q.

Definition translate (value left_min left_max right_min right_max : value)
  : result Q :=
  v ← as_number value;
  lmin ← as_number left_min;
  lmax ← as_number left_max;
  rmin ← as_number right_min;
  rmax ← as_number right_max;
  translate_number v lmin lmax rmin rmax.

Definition clip (value min_value max_value : Q) : Q :=
  if Qltb value min_value then min_value
  else if Qltb max_value value then max_value
  else value.

Record Hyperparameter : Type := mkHyperparameter {
  _search_space : list value;
  is_categorical : bool;
  _value : option Q
}.

Definition msg_two_arguments : string :=
  "Hyperparameter initialization needs at least two arguments.".
Definition msg_non_categorical : string :=
  "Non-categorical hyperparameters must be of type float or int.".
Definition msg_not_in_space : string :=
  "The provided value does not exist within the categorical search space.".
Definition msg_value_type : string :=
  "Non-categorical values must be of type float or int.".

(** The constructor, called with the positional arguments [args]. *)
Definition __init__ (args : list value) (is_categorical : bool)
  : result Hyperparameter :=
  _ ← assert (1 <? Z.of_nat (length args)) msg_two_arguments;
  _ ← assert (negb is_categorical
              && match args with a0 :: _ => is_number a0 | [] => false end)
             msg_non_categorical;
  space ← sorted args;
  Ok {| _search_space := space;
        is_categorical := is_categorical;
        _value := None |}.

Definition get_lower_bound (self : Hyperparameter) : result value :=
  getitem (_search_space self) 0.

Definition get_upper_bound (self : Hyperparameter) : result value :=
  getitem (_search_space self) (-1).

Definition _get_normalized_value (self : Hyperparameter) (v : value)
  : result Q :=
  if is_categorical self then
    _ ← assert (existsb (fun x => eq x v) (_search_space self))
               msg_not_in_space;
    i ← index v (_search_space self);
    translate (VInt i) (VInt 0)
              (VInt (Z.of_nat (length (_search_space self)) - 1))
              (VFloat 0) (VFloat 1)
  else if is_number v then
    lo ← get_lower_bound self;
    hi ← get_upper_bound self;
    translate v lo hi (VFloat 0) (VFloat 1)
  else Raise (Exception msg_value_type).

Definition get_normalized (self : Hyperparameter) : option Q :=
  _value self.

(** [self._value] used as a number: [None] is a [TypeError]. *)
Definition stored (self : Hyperparameter) : result value :=
  match _value self with
  | Some u => Ok (VFloat u)
  | None => Raise TypeError
  end.

Definition get_value (self : Hyperparameter) : result value :=
  if is_categorical self then
    u ← stored self;
    t ← translate u (VFloat 0) (VFloat 1) (VInt 0)
                  (VInt (Z.of_nat (length (_search_space self)) - 1));
    getitem (_search_space self) (round t)
  else
    first ← getitem (_search_space self) 0;
    if is_float first then
      u ← stored self;
      lo ← get_lower_bound self;
      hi ← get_upper_bound self;
      t ← translate u (VFloat 0) (VFloat 1) lo hi;
      Ok (VFloat t)
    else if is_int first then
      u ← stored self;
      lo ← get_lower_bound self;
      hi ← get_upper_bound self;
      t ← translate u (VFloat 0) (VFloat 1) lo hi;
      Ok (VInt (round t))
    else Raise (Exception msg_non_categorical).

Definition set_value (self : Hyperparameter) (v : value)
  : result Hyperparameter :=
  n ← _get_normalized_value self v;
  Ok {| _search_space := _search_space self;
        is_categorical := is_categorical self;
        _value := Some (clip n 0 1) |}.

(** [__mul__]: the scalar is the left operand and the product is clipped. *)
Definition __mul__ (self : Hyperparameter) (other : Q) : result Q :=
  match _value self with
  | Some u => Ok (clip (other * u) 0 1)
  | None => Raise TypeError
  end.

(** [h = Hyperparameter(a, b); h.set_value(v); h.get_value()] *)
Definition roundtrip (a b v : Q) : result value :=
  h ← __init__ [VFloat a; VFloat b] false;
  h' ← set_value h (VFloat v);
  get_value h'.

(** *** The other methods and the module-level dictionary helper *)

(** [self._value = u] *)
Definition with_value (self : Hyperparameter) (u : Q) : Hyperparameter :=
  {| _search_space := _search_space self;
     is_categorical := is_categorical self;
     _value := Some u |}.

(** [update(expression)]: the callable is given [self._value] as it is,
    [None] included. The assignment precedes the call of [get_value], so
    the object left behind comes beside the result. *)
Definition update (self : Hyperparameter) (expression : option Q -> result Q)
  : result value * Hyperparameter :=
  match expression (_value self) with
  | Raise e => (Raise e, self)
  | Ok x =>
      let self' := with_value self (clip x 0 1) in
      (get_value self', self')
  end.

(** [h = Hyperparameter(a, b); h.set_value(v); h.get_value()] for bounds
    and a value of any kind *)
Definition roundtrip_values (a b v : value) : result value :=
  h ← __init__ [a; b] false;
  h' ← set_value h v;
  get_value h'.

(** [hyperparameters_to_value_dict]: the loop over the items of the
    dictionary. *)
Definition hyperparameters_to_value_dict
    (hyperparameter_dict : gmap string Hyperparameter)
  : gmap string (option Q) :=
  map_fold (fun parameter_name parameter_object value_dict =>
              <[parameter_name := _value parameter_object]> value_dict)
           ∅ hyperparameter_dict.

(** The operators, for any operand the type test admits or refuses. *)
Module Arithmetic.

Inductive operand : Type :=
| Number (v : value)
| Hyper (h : Hyperparameter).

Definition msg_add : string :=
  "Addition is supported for values of type Hyperparameter, float or int.".
Definition msg_sub : string :=
  "Subtraction is supported for values of type Hyperparameter, float or int.".
Definition msg_mul : string :=
  "Multiplication is supported for values of type Hyperparameter, float or int.".
Definition msg_div : string :=
  "Divition is supported for values of type Hyperparameter, float or int.".

(** The body the binary operators share: after the type test,
    [clip(other op self._value, 0.0, 1.0)]. When [other] is a
    Hyperparameter, [other op self._value] is its own operator applied to
    the float [self._value], or to [None], which its type test refuses. *)
Definition binary (op : Q -> Q -> result Q) (msg : string)
    (self : Hyperparameter) (other : operand) : result Q :=
  match other with
  | Number v =>
      if is_number v then
        x ← as_number v;
        match _value self with
        | Some u => r ← op x u; Ok (clip r 0 1)
        | None => Raise TypeError
        end
      else Raise (Exception msg)
  | Hyper h =>
      inner ← match _value self with
              | None => Raise (Exception msg)
              | Some u1 =>
                  match _value h with
                  | Some u2 => r ← op u1 u2; Ok (clip r 0 1)
                  | None => Raise TypeError
                  end
              end;
      Ok (clip inner 0 1)
  end.

Definition __add__ : Hyperparameter -> operand -> result Q :=
  binary (fun x y => Ok (x + y)%Q) msg_add.

Definition __sub__ : Hyperparameter -> operand -> result Q :=
  binary (fun x y => Ok (x - y)%Q) msg_sub.

Definition __mul__ : Hyperparameter -> operand -> result Q :=
  binary (fun x y => Ok (x * y)%Q) msg_mul.

(** [__div__], for a caller that names it: [/] itself does not look it
    up, so a Hyperparameter operand has no division to offer. *)
Definition __div__ (self : Hyperparameter) (other : operand) : result Q :=
  match other with
  | Number _ => binary div msg_div self other
  | Hyper _ => Raise TypeError
  end.

(** The body the in-place operators share: after the type test,
    [self._value = self._value op other]. A float (or [None]) has no
    operator for a Hyperparameter on its right and the class has no
    reflected one. *)
Definition inplace (op : Q -> Q -> Q) (msg : string)
    (self : Hyperparameter) (other : operand) : result Hyperparameter :=
  match other with
  | Number v =>
      if is_number v then
        x ← as_number v;
        match _value self with
        | Some u => Ok (with_value self (op u x))
        | None => Raise TypeError
        end
      else Raise (Exception msg)
  | Hyper _ => Raise TypeError
  end.

Definition __iadd__ : Hyperparameter -> operand -> result Hyperparameter :=
  inplace Qplus msg_add.

Definition __isub__ : Hyperparameter -> operand -> result Hyperparameter :=
  inplace Qminus msg_sub.

Definition __imul__ : Hyperparameter -> operand -> result Hyperparameter :=
  inplace Qmult msg_mul.

(** *** An operand that may be NaN

    The type test admits the float NaN. Arithmetic with it gives NaN,
    except that a division by zero raises first, and [clip] returns it as
    it is, both of its comparisons being false. *)

Definition clip_float (value min_value max_value : float) : float :=
  if float_lt value min_value then min_value
  else if float_lt max_value value then max_value
  else value.

(** A float operation that cannot fail, with NaN in or out. *)
Definition float_op (op : Q -> Q -> Q) (x y : float) : result float :=
  match x, y with
  | Real a, Real b => Ok (Real (op a b))
  | _, _ => Ok NaN
  end.

(** [x / y] *)
Definition float_div (x y : float) : result float :=
  match y with
  | Real b =>
      if Qeq_bool b 0 then Raise ZeroDivisionError
      else match x with
           | Real a => Ok (Real (a / b))
           | NaN => Ok NaN
           end
  | NaN => Ok NaN
  end.

(** The body of the binary operators on such an operand:
    [clip(other op self._value, 0.0, 1.0)]. *)
Definition binary_float (op : float -> float -> result float)
    (self : Hyperparameter) (other : float) : result float :=
  match _value self with
  | Some u => r ← op other (Real u); Ok (clip_float r (Real 0) (Real 1))
  | None => Raise TypeError
  end.

End Arithmetic.

End Hyperparameters.

(** ** evolution.py *)

Module Evolution.

(** *** State and errors

    [M S A] is a computation over a mutable state [S] that returns an [A]
    or raises; the state it leaves behind is the one at the [raise]. *)

Definition M (S A : Type) : Type := S -> result A * S.

Definition ret {S A : Type} (a : A) : M S A := fun s => (Ok a, s).

Definition bind {S A B : Type} (m : M S A) (f : A -> M S B) : M S B :=
  fun s =>
    match m s with
    | (Ok a, s') => f a s'
    | (Raise e, s') => (Raise e, s')
    end.

Definition raise {S A : Type} (e : exn) : M S A := fun s => (Raise e, s).

Definition get {S : Type} : M S S := fun s => (Ok s, s).

Definition put {S : Type} (s : S) : M S unit := fun _ => (Ok tt, s).

Definition lift {S A : Type} (r : result A) : M S A := fun s => (r, s).

Declare Scope py_scope.
Delimit Scope py_scope with py.
Notation "x <- m ;; k" := (bind m (fun x => k))
  (at level 100, m at next level, right associativity) : py_scope.
Notation "m ;;; k" := (bind m (fun _ => k))
  (at level 100, right associativity) : py_scope.
Local Open Scope py_scope.

(** Run a computation on one component of a pair of states. *)
Definition on_fst {S T A : Type} (m : M S A) : M (S * T) A :=
  fun st => let '(r, s') := m (fst st) in (r, (s', snd st)).

Definition on_snd {S T A : Type} (m : M T A) : M (S * T) A :=
  fun st => let '(r, t') := m (snd st) in (r, (fst st, t')).

Fixpoint mapM {S A B : Type} (f : A -> M S B) (l : list A) : M S (list B) :=
  match l with
  | [] => ret []
  | a :: l' => b <- f a ;; bs <- mapM f l' ;; ret (b :: bs)
  end.

(** *** The [random] module: draws come from a tape *)

Record Rng : Type := mkRng {
  ints : list nat;
  reals : list Q
}.

Definition msg_empty_range : string := "empty range for randrange()".
Definition msg_non_integer : string := "non-integer arg 1 for randrange()".

(** [random.randrange(n)] *)
Definition randrange (n : Z) : M Rng Z :=
  fun rng =>
    if n <=? 0 then (Raise (ValueError msg_empty_range), rng)
    else match ints rng with
         | [] => (Raise OutOfEntropy, rng)
         | r :: t =>
             (Ok (Z.of_nat r mod n), {| ints := t; reals := reals rng |})
         end.

(** [random.randrange(n)] when [n] may be a float, as the interpreters of
    the repository's time have it: an integral float is taken as the
    integer, any other one is refused. *)
Definition randrange_value (n : value) : M Rng Z :=
  match n with
  | VInt z => randrange z
  | VFloat q =>
      if Qeq_bool q (inject_Z (Qfloor q)) then randrange (Qfloor q)
      else raise (ValueError msg_non_integer)
  | VStr _ => raise TypeError
  end.

(** [random.choice(l)] *)
Definition choice {A : Type} (l : list A) : M Rng A :=
  match l with
  | [] => raise IndexError
  | _ => i <- randrange (Z.of_nat (length l)) ;; lift (getitem l i)
  end.

(** The next real of the tape, as it is. *)
Definition next_real : M Rng Q :=
  fun rng =>
    match reals rng with
    | [] => (Raise OutOfEntropy, rng)
    | z :: t => (Ok z, {| ints := ints rng; reals := t |})
    end.

(** Modelled from the spec: [clip] of utils/constraint.py, the saturation
    of [x] to [[lo, hi]]. *)
Definition clip (x lo hi : Q) : Q :=
  if Qltb x lo then lo else if Qltb hi x then hi else x.

(** [random.uniform(0.0, 1.0)] *)
Definition uniform01 : M Rng Q :=
  z <- next_real ;; ret (clip z 0 1).

(** Modelled from the spec: [randn] and [randc] of utils/distribution.py,
    a sample of location [mu] and scale [sigma]; the standard deviate (for
    [randc] the tangent) is the next real of the tape. *)
Definition randn (mu sigma : Q) : M Rng Q :=
  z <- next_real ;; ret (mu + sigma * z)%Q.

Definition randc (mu sigma : Q) : M Rng Q :=
  z <- next_real ;; ret (mu + sigma * z)%Q.

(** *** Members and generations *)

(** Modelled from the spec: [MemberState] of member.py. A member has an
    integer id, counters, its hyper-parameters (here their normalized
    coordinates [u], in order), opaque state blobs, the evaluation loss
    its score is read from (NaN when absent) and a [minimize] flag. *)
Record MemberState : Type := mkMember {
  id : Z;
  epochs : Z;
  steps : Z;
  parameters : list Q;
  model_state : option Z;
  optimizer_state : option Z;
  eval_loss : float;
  minimize : bool
}.

Definition score (m : MemberState) : float := eval_loss m.

(** Modelled from the spec: the member ordering of member.py, induced by
    score and [minimize]: when minimizing a smaller score is greater, and
    a NaN score is the worst. *)
Definition __le__ (a b : MemberState) : bool :=
  match score a, score b with
  | NaN, _ => true
  | Real _, NaN => false
  | Real x, Real y => if minimize a then Qle_bool y x else Qle_bool x y
  end.

Definition __lt__ (a b : MemberState) : bool :=
  match score a, score b with
  | NaN, NaN => false
  | NaN, Real _ => true
  | Real _, NaN => false
  | Real x, Real y => if minimize a then Qltb y x else Qltb x y
  end.

(** Modelled from the spec: members are identified by their id. *)
Definition __eq__ (a b : MemberState) : bool := id a =? id b.

(** [member in members] *)
Definition contains (members : list MemberState) (member : MemberState)
  : bool :=
  existsb (fun x => __eq__ x member) members.

(** Modelled from the spec: [copy], [copy_parameters] and [copy_state] of
    member.py. Values are immutable here, so a copy is the value. *)
Definition copy (m : MemberState) : MemberState := m.

Definition copy_parameters (m other : MemberState) : MemberState :=
  {| id := id m; epochs := epochs m; steps := steps m;
     parameters := parameters other;
     model_state := model_state m; optimizer_state := optimizer_state m;
     eval_loss := eval_loss m; minimize := minimize m |}.

Definition copy_state (m other : MemberState) : MemberState :=
  {| id := id m; epochs := epochs m; steps := steps m;
     parameters := parameters m;
     model_state := model_state other;
     optimizer_state := optimizer_state other;
     eval_loss := eval_loss m; minimize := minimize m |}.

(** Modelled from the spec: [member[j]] reads the [j]-th normalized
    coordinate and [member[j] = u] writes it. Every [u] lies in [0, 1]
    after a mutation (the invariant of the data model and the first
    testable property), so the write saturates to [0, 1]. *)
Definition __getitem__ (m : MemberState) (j : nat) : result Q :=
  match parameters m !! j with
  | Some u => Ok u
  | None => Raise IndexError
  end.

Definition __setitem__ (m : MemberState) (j : nat) (u : Q)
  : result MemberState :=
  if (j <? length (parameters m))%nat then
    Ok {| id := id m; epochs := epochs m; steps := steps m;
          parameters := <[j := clip u 0 1]> (parameters m);
          model_state := model_state m;
          optimizer_state := optimizer_state m;
          eval_loss := eval_loss m; minimize := minimize m |}
  else Raise IndexError.

(** Modelled from the spec: [Generation] of member.py, the members of one
    cycle in insertion order, indexed by id. *)
Definition Generation : Type := list MemberState.

(** [generation.remove(member)] *)
Definition remove (generation : Generation) (member : MemberState)
  : result Generation :=
  if contains generation member
  then Ok (List.filter (fun x => negb (__eq__ x member)) generation)
  else Raise KeyError.

(** [sorted(members)]: stable, driven by [<]. *)
Fixpoint insert (x : MemberState) (l : list MemberState) : list MemberState :=
  match l with
  | [] => [x]
  | y :: l' => if __lt__ y x then y :: insert x l' else x :: y :: l'
  end.

Fixpoint sorted (l : list MemberState) : list MemberState :=
  match l with
  | [] => []
  | x :: l' => insert x (sorted l')
  end.

(** [sorted(members, reverse=True)]: descending, equal members keeping
    their order. *)
Definition sorted_reverse (l : list MemberState) : list MemberState :=
  rev (sorted (rev l)).

(** [l[:n]] *)
Definition slice_to {A : Type} (l : list A) (n : Z) : list A :=
  if n <? 0 then firstn (length l - Z.to_nat (- n)) l
  else firstn (Z.to_nat n) l.

(** [del l[i]] *)
Definition delete_at {A : Type} (l : list A) (i : Z) : list A :=
  firstn (Z.to_nat i) l ++ skipn (S (Z.to_nat i)) l.

Definition msg_sample : string :=
  "Sample larger than population or is negative".

(** [k] distinct members of [l], each drawn among those not drawn yet. *)
Fixpoint sample (l : list MemberState) (k : nat) : M Rng (list MemberState) :=
  match k with
  | O => ret []
  | S k' =>
      match l with
      | [] => raise (ValueError msg_sample)
      | _ =>
          i <- randrange (Z.of_nat (length l)) ;;
          x <- lift (getitem l i) ;;
          xs <- sample (delete_at l i) k' ;;
          ret (x :: xs)
      end
  end.

(** Modelled from the spec: [random_from_list] of utils/iterable.py,
    [k] distinct members drawn from those of [l] not in [exclude]; too few
    candidates are an error before any draw. *)
Definition random_from_list (l : list MemberState) (k : nat)
    (exclude : list MemberState) : M Rng (list MemberState) :=
  let candidates := List.filter (fun x => negb (contains exclude x)) l in
  if (length candidates <? k)%nat then raise (ValueError msg_sample)
  else sample candidates k.

(** Modelled from the spec: the kernels of de/mutation.py and the halving
    constraint of de/constraint.py. *)
Definition de_rand_1 (F x_r0 x_r1 x_r2 : Q) : Q :=
  (x_r0 + F * (x_r1 - x_r2))%Q.

Definition de_current_to_best_1 (F x_base x_best x_r1 x_r2 : Q) : Q :=
  (x_base + F * (x_best - x_base) + F * (x_r1 - x_r2))%Q.

Definition halving (base mutant lower_bounds upper_bounds : Q) : Q :=
  if Qltb mutant lower_bounds then ((base + lower_bounds) / 2)%Q
  else if Qltb upper_bounds mutant then ((base + upper_bounds) / 2)%Q
  else mutant.

(** *** mean_wl *)

(** [weights[k] / sum(weights)] *)
Definition weight (weights : list Q) (k : Z) : result Q :=
  w ← getitem weights k;
  div w (fold_left Qplus weights 0%Q).

(** [sum(weight(weights, k) * f(s) for k, s in enumerate(S))], the terms
    added from the left as they are produced. *)
Fixpoint weighted_sum (f : Q -> Q) (weights : list Q) (acc : Q) (k : Z)
    (S : list Q) : result Q :=
  match S with
  | [] => Ok acc
  | s :: S' =>
      w ← weight weights k;
      weighted_sum f weights (acc + w * f s)%Q (k + 1) S'
  end.

Definition mean_wl (S weights : list Q) : result Q :=
  A ← weighted_sum (fun s => s ^ 2)%Q weights 0%Q 0 S;
  B ← weighted_sum (fun s => s) weights 0%Q 0 S;
  div A B.

(** The weighted Lehmer mean as the specification words it:
    [Σ (w_k / Σw)·s_k² / Σ (w_k / Σw)·s_k]. *)
Definition Qsum (l : list Q) : Q := fold_right Qplus 0%Q l.

Definition lehmer_mean (S weights : list Q) : Q :=
  let W := Qsum weights in
  (Qsum (map (fun ws => fst ws / W * snd ws ^ 2) (combine weights S)) /
   Qsum (map (fun ws => fst ws / W * snd ws) (combine weights S)))%Q.

(** *** HistoricalMemory *)

Module HistoricalMemory.

Record t : Type := mk {
  size : Z;
  m_cr : list (option Q);
  m_f : list Q;
  s_cr : list Q;
  s_f : list Q;
  weights : list Q;
  k : Z
}.

Definition __init__ (size : Z) (default : Q) : t :=
  {| size := size;
     m_cr := repeat (Some default) (Z.to_nat size);
     m_f := repeat default (Z.to_nat size);
     s_cr := []; s_f := []; weights := [];
     k := 0 |}.

Definition msg_cr : string := "cr_i is not valid.".
Definition msg_f : string := "f_i is not valid.".

Definition tiny : Q := 1 # 1000000000.

Definition record (cr_i f_i : Q) (delta_score : float) : M t unit :=
  lift (assert (Qle_bool 0 cr_i && Qle_bool cr_i 1) msg_cr) ;;;
  lift (assert (Qle_bool 0 f_i) msg_f) ;;;
  let delta_score :=
    match delta_score with
    | Real d => if Qeq_bool d 0 then tiny else d
    | NaN => tiny
    end in
  self <- get ;;
  put {| size := size self; m_cr := m_cr self; m_f := m_f self;
         s_cr := s_cr self ++ [cr_i];
         s_f := s_f self ++ [f_i];
         weights := weights self ++ [delta_score];
         k := k self |}.

Definition reset : M t unit :=
  self <- get ;;
  put {| size := size self; m_cr := m_cr self; m_f := m_f self;
         s_cr := []; s_f := []; weights := [];
         k := k self |}.

(** [l[i] = x], negative indices counting from the end *)
Definition store {A : Type} (l : list A) (i : Z) (x : A)
  : result (list A) :=
  let n := Z.of_nat (length l) in
  let j := if i <? 0 then n + i else i in
  if (j <? 0) || (n <=? j) then Raise IndexError
  else Ok (<[Z.to_nat j := x]> l).

Definition set_m_cr (v : option Q) : M t unit :=
  self <- get ;;
  l <- lift (store (m_cr self) (k self) v) ;;
  put {| size := size self; m_cr := l; m_f := m_f self;
         s_cr := s_cr self; s_f := s_f self; weights := weights self;
         k := k self |}.

Definition set_m_f (v : Q) : M t unit :=
  self <- get ;;
  l <- lift (store (m_f self) (k self) v) ;;
  put {| size := size self; m_cr := m_cr self; m_f := l;
         s_cr := s_cr self; s_f := s_f self; weights := weights self;
         k := k self |}.

Definition set_k (v : Z) : M t unit :=
  self <- get ;;
  put {| size := size self; m_cr := m_cr self; m_f := m_f self;
         s_cr := s_cr self; s_f := s_f self; weights := weights self;
         k := v |}.

(** [max(l)] of a non-empty list *)
Definition max (l : list Q) : Q :=
  match l with
  | [] => 0%Q
  | x :: l' => fold_left (fun m y => if Qltb m y then y else m) l' x
  end.

Definition is_empty {A : Type} (l : list A) : bool :=
  match l with [] => true | _ => false end.

Definition update : M t unit :=
  self <- get ;;
  if is_empty (s_cr self) || is_empty (s_f self) || is_empty (weights self)
  then ret tt
  else
    current <- lift (getitem (m_cr self) (k self)) ;;
    (match current with
     | None => set_m_cr None
     | Some _ =>
         if Qeq_bool (max (s_cr self)) 0 then set_m_cr None
         else
           v <- lift (mean_wl (s_cr self) (weights self)) ;;
           set_m_cr (Some v)
     end) ;;;
    v <- lift (mean_wl (s_f self) (weights self)) ;;
    set_m_f v ;;;
    set_k (if size self - 1 <=? k self then 0 else k self + 1).

End HistoricalMemory.

(** *** ExternalArchive *)

Module ExternalArchive.

Record t : Type := mk {
  items : list MemberState;
  size : value
}.

Definition __init__ (size : Z) : t :=
  {| items := []; size := VInt size |}.

Definition len (self : t) : Z := Z.of_nat (length (items self)).

Definition append (parent : MemberState) : M (t * Rng) unit :=
  self <- on_fst get ;;
  (if Py.eq (VInt (len self)) (size self) then
     random_index <- on_snd (randrange_value (size self)) ;;
     on_fst (put {| items := delete_at (items self) random_index;
                    size := size self |})
   else ret tt) ;;;
  self <- on_fst get ;;
  on_fst (put {| items := items self ++ [parent]; size := size self |}).

End ExternalArchive.


(** *** ExploitAndExplore *)

Module ExploitAndExplore.

Record t : Type := mk {
  exploit_factor : Q;
  explore_factors : list Q
}.

Definition msg_exploit_factor : string :=
  "Exploit factor must be of type <class 'float'> between 0.0 and 1.0.".

(** The constructor; [explore_factors] is taken to be a sequence, which
    the second assertion admits. *)
Definition __init__ (exploit_factor : value) (explore_factors : list Q)
  : result t :=
  match exploit_factor with
  | VFloat q =>
      _ ← assert (Qle_bool 0 q && Qle_bool q 1) msg_exploit_factor;
      Ok {| exploit_factor := q; explore_factors := explore_factors |}
  | _ => Raise (AssertionError msg_exploit_factor)
  end.

(** The float operations of the engine round with [fl]. *)
Section Rounding.

Variable fl : Q -> Q.

(** The loop of [__explore] over the coordinates [js]. *)
Fixpoint perturb (self : t) (js : list nat) (explorer : MemberState)
  : M Rng MemberState :=
  match js with
  | [] => ret explorer
  | index :: js' =>
      perturb_factor <- choice (explore_factors self) ;;
      u <- lift (__getitem__ explorer index) ;;
      explorer' <-
        lift (__setitem__ explorer index (fl (u * perturb_factor)%Q)) ;;
      perturb self js' explorer'
  end.

Definition __explore (self : t) (member : MemberState) : M Rng MemberState :=
  let explorer := copy member in
  perturb self (seq 0 (length (parameters explorer))) explorer.

(** [max(1, round(len(generation) * self.exploit_factor))]: the length
    becomes a float, the product is rounded, and [round] takes the
    nearest integer of that. *)
Definition n_elitists (self : t) (generation : Generation) : Z :=
  Z.max 1 (round (fl (fl (inject_Z (Z.of_nat (length generation)))
                      * exploit_factor self)%Q)).

Definition elitists (self : t) (generation : Generation)
  : list MemberState :=
  slice_to (sorted_reverse generation) (n_elitists self generation).

Definition __exploit_and_explore (self : t) (member : MemberState)
    (generation : Generation) : M Rng MemberState :=
  let elitists := elitists self generation in
  if negb (contains elitists member) then
    elitist <- choice elitists ;;
    let exploiter := copy member in
    let exploiter := copy_parameters exploiter elitist in
    let exploiter := copy_state exploiter elitist in
    __explore self exploiter
  else ret (copy member).

(** The generator of [mutate], run to its end. *)
Definition mutate (self : t) (generation : Generation)
  : M Rng (list MemberState) :=
  mapM (fun member => __exploit_and_explore self member generation)
       generation.

End Rounding.

Definition select (candidate : MemberState) : MemberState := candidate.

End ExploitAndExplore.

(** *** DifferentialEvolution *)

Module DifferentialEvolution.

Record t : Type := mk {
  F : Q;
  Cr : Q
}.

Definition msg_size : string :=
  "generation size must be at least 3 or higher.".
Definition msg_unpack : string := "not enough values to unpack".

(** The loop over the coordinates [js] that builds the trial. *)
Fixpoint crossover (self : t) (member x_r0 x_r1 x_r2 : MemberState)
    (j_rand : Z) (js : list nat) (trial : MemberState)
  : M Rng MemberState :=
  match js with
  | [] => ret trial
  | j :: js' =>
      u <- uniform01 ;;
      trial' <-
        (if Qle_bool u (Cr self) || (Z.of_nat j =? j_rand) then
           a <- lift (__getitem__ x_r0 j) ;;
           b <- lift (__getitem__ x_r1 j) ;;
           c <- lift (__getitem__ x_r2 j) ;;
           let mutant := de_rand_1 (F self) a b c in
           let constrained := clip mutant 0 1 in
           lift (__setitem__ trial j constrained)
         else
           v <- lift (__getitem__ member j) ;;
           lift (__setitem__ trial j v)) ;;
      crossover self member x_r0 x_r1 x_r2 j_rand js' trial'
  end.

Definition mutate_member (self : t) (generation : Generation)
    (member : MemberState) : M Rng (MemberState * MemberState) :=
  let trial := copy member in
  let hp_dimension_size := length (parameters member) in
  rs <- random_from_list generation 3 [member] ;;
  match rs with
  | [x_r0; x_r1; x_r2] =>
      j_rand <- randrange (Z.of_nat hp_dimension_size) ;;
      trial' <- crossover self member x_r0 x_r1 x_r2 j_rand
                  (seq 0 hp_dimension_size) trial ;;
      ret (copy member, trial')
  | _ => raise (ValueError msg_unpack)
  end.

(** The generator of [mutate], run to its end: the size check is the
    first thing its body does. *)
Definition mutate (self : t) (generation : Generation)
  : M Rng (list (MemberState * MemberState)) :=
  if Z.of_nat (length generation) <? 3 then raise (ValueError msg_size)
  else mapM (mutate_member self generation) generation.

Definition select (self : t) (parent trial : MemberState) : MemberState :=
  if __le__ parent trial then trial else parent.

End DifferentialEvolution.

(** *** SHADE *)

(** [a - b] and [abs(a)] on floats that may be NaN *)
Definition fsub (a b : float) : float :=
  match a, b with
  | Real x, Real y => Real (x - y)
  | _, _ => NaN
  end.

Definition fabs (a : float) : float :=
  match a with
  | Real x => Real (Qabs x)
  | NaN => NaN
  end.

Module SHADE.

Record t : Type := mk {
  F_MIN : Q;
  F_MAX : Q;
  N_INIT : Z;
  r_arc : Q;
  archive : ExternalArchive.t;
  memory : HistoricalMemory.t;
  p : Q;
  CR : gmap Z Q;
  F : gmap Z Q;
  state_sharing : bool
}.

Definition set_archive (self : t) (a : ExternalArchive.t) : t :=
  {| F_MIN := F_MIN self; F_MAX := F_MAX self; N_INIT := N_INIT self;
     r_arc := r_arc self; archive := a; memory := memory self;
     p := p self; CR := CR self; F := F self;
     state_sharing := state_sharing self |}.

Definition set_memory (self : t) (h : HistoricalMemory.t) : t :=
  {| F_MIN := F_MIN self; F_MAX := F_MAX self; N_INIT := N_INIT self;
     r_arc := r_arc self; archive := archive self; memory := h;
     p := p self; CR := CR self; F := F self;
     state_sharing := state_sharing self |}.

Definition set_CR_F (self : t) (cr f : gmap Z Q) : t :=
  {| F_MIN := F_MIN self; F_MAX := F_MAX self; N_INIT := N_INIT self;
     r_arc := r_arc self; archive := archive self; memory := memory self;
     p := p self; CR := cr; F := f;
     state_sharing := state_sharing self |}.

(** Run a method of [self.archive] or of [self.memory]. *)
Definition with_archive {A : Type} (m : M (ExternalArchive.t * Rng) A)
  : M (t * Rng) A :=
  fun st =>
    let '(r, (a, rng)) := m (archive (fst st), snd st) in
    (r, (set_archive (fst st) a, rng)).

Definition with_memory {A : Type} (m : M HistoricalMemory.t A)
  : M (t * Rng) A :=
  fun st =>
    let '(r, h) := m (memory (fst st)) in
    (r, (set_memory (fst st) h, snd st)).

Definition msg_population : string :=
  "population size must be at least 4 or higher.".
Definition msg_f_min : string := "f_min cannot be negative.".
Definition msg_f_max : string := "f_max cannot be negative.".
Definition msg_f_order : string := "f_max cannot be less than f_min.".
Definition msg_size : string :=
  "generation size must be at least 4 or higher.".
Definition msg_unpack : string := "not enough values to unpack".

Definition __init__ (N_INIT : Z) (r_arc p : Q) (memory_size : Z)
    (f_min f_max : Q) (state_sharing : bool) : result t :=
  if N_INIT <? 4 then Raise (ValueError msg_population)
  else if Qltb f_min 0 then Raise (ValueError msg_f_min)
  else if Qle_bool f_max 0 then Raise (ValueError msg_f_max)
  else if Qltb f_max f_min then Raise (ValueError msg_f_order)
  else Ok {| F_MIN := f_min; F_MAX := f_max; N_INIT := N_INIT;
             r_arc := r_arc;
             archive :=
               ExternalArchive.__init__ (round (inject_Z N_INIT * r_arc));
             memory :=
               HistoricalMemory.__init__ memory_size
                 ((f_max - f_min) / 2);
             p := p; CR := ∅; F := ∅;
             state_sharing := state_sharing |}.

Definition on_generation_start (generation : Generation)
  : M (t * Rng) unit :=
  with_memory HistoricalMemory.reset ;;;
  self <- on_fst get ;;
  on_fst (put (set_CR_F self ∅ ∅)).

(** [random_from_list(..., k=1, ...)] gives the member itself. *)
Definition random_one (l exclude : list MemberState) : M Rng MemberState :=
  rs <- random_from_list l 1 exclude ;;
  match rs with
  | [x] => ret x
  | _ => raise (ValueError msg_unpack)
  end.

Definition __sample_r1_and_r2 (member : MemberState)
    (generation : Generation) : M (t * Rng) (MemberState * MemberState) :=
  self <- on_fst get ;;
  x_r1 <- on_snd (random_one generation [member]) ;;
  x_r2 <- on_snd (random_one (ExternalArchive.items (archive self)
                               ++ generation) [member; x_r1]) ;;
  ret (x_r1, x_r2).

(** The [while True] loop that draws [F_i]: it consumes the tape until a
    draw is not below [F_MIN]. *)
Fixpoint draw_F (MF_i F_MIN F_MAX : Q) (tape : list Q)
  : result Q * list Q :=
  match tape with
  | [] => (Raise OutOfEntropy, [])
  | z :: tape' =>
      let F_i := (MF_i + (1 # 10) * z)%Q in
      if Qltb F_i F_MIN then draw_F MF_i F_MIN F_MAX tape'
      else (Ok (if Qltb F_MAX F_i then F_MAX else F_i), tape')
  end.

Definition get_control_parameters : M (t * Rng) (Q * Q) :=
  self <- on_fst get ;;
  r1 <- on_snd (randrange (HistoricalMemory.size (memory self))) ;;
  MF_i <- lift (getitem (HistoricalMemory.m_f (memory self)) r1) ;;
  MCR_i <- lift (getitem (HistoricalMemory.m_cr (memory self)) r1) ;;
  (* the assertions: a float of this model is never NaN, and
     math.isnan(None) is a TypeError *)
  (match MCR_i with None => raise TypeError | Some _ => ret tt end) ;;;
  CR_i <- (match MCR_i with
           | None => ret 0%Q
           | Some mcr =>
               z <- on_snd (randn mcr (1 # 10)) ;; ret (clip z 0 1)
           end) ;;
  F_i <- on_snd (fun rng =>
                   let '(r, tape) :=
                     draw_F MF_i (F_MIN self) (F_MAX self) (reals rng) in
                   (r, {| ints := ints rng; reals := tape |})) ;;
  ret (CR_i, F_i).

(** [d[key]] *)
Definition lookup (d : gmap Z Q) (key : Z) : result Q :=
  match d !! key with
  | Some v => Ok v
  | None => Raise KeyError
  end.

Definition pbest_member (self : t) (generation : Generation)
  : M Rng MemberState :=
  let sorted_members := sorted_reverse generation in
  let n_elitists := round (inject_Z (Z.of_nat (length generation)) * p self) in
  let n_elitists := Z.max n_elitists 1 in
  choice (slice_to sorted_members n_elitists).

(** The loop over the coordinates [js] that builds the trial. *)
Fixpoint crossover (CR_i F_i : Q)
    (member x_pbest x_r1 x_r2 : MemberState)
    (j_rand : Z) (js : list nat) (trial : MemberState)
  : M Rng MemberState :=
  match js with
  | [] => ret trial
  | j :: js' =>
      u <- uniform01 ;;
      trial' <-
        (if Qle_bool u CR_i || (Z.of_nat j =? j_rand) then
           x_base <- lift (__getitem__ member j) ;;
           x_best <- lift (__getitem__ x_pbest j) ;;
           a <- lift (__getitem__ x_r1 j) ;;
           b <- lift (__getitem__ x_r2 j) ;;
           let mutant := de_current_to_best_1 F_i x_base x_best a b in
           base <- lift (__getitem__ member j) ;;
           let constrained := halving base mutant 0 1 in
           lift (__setitem__ trial j constrained)
         else
           v <- lift (__getitem__ member j) ;;
           lift (__setitem__ trial j v)) ;;
      crossover CR_i F_i member x_pbest x_r1 x_r2 j_rand js' trial'
  end.

Definition mutate (member : MemberState) (generation : Generation)
  : M (t * Rng) MemberState :=
  if Z.of_nat (length generation) <? 4 then raise (ValueError msg_size)
  else
    let index := id member in
    cf <- get_control_parameters ;;
    self <- on_fst get ;;
    on_fst (put (set_CR_F self (<[index := fst cf]> (CR self))
                               (<[index := snd cf]> (F self)))) ;;;
    rs <- __sample_r1_and_r2 member generation ;;
    self <- on_fst get ;;
    x_pbest <- on_snd (pbest_member self generation) ;;
    let dimension_size := length (parameters member) in
    j_rand <- on_snd (randrange (Z.of_nat dimension_size)) ;;
    let trial := copy member in
    let trial := if state_sharing self then copy_state trial x_pbest
                 else trial in
    self <- on_fst get ;;
    CR_i <- lift (lookup (CR self) index) ;;
    F_i <- lift (lookup (F self) index) ;;
    on_snd (crossover CR_i F_i member x_pbest (fst rs) (snd rs) j_rand
                      (seq 0 dimension_size) trial).

Definition select (parent trial : MemberState)
  : M (t * Rng) MemberState :=
  if __le__ parent trial then
    with_archive (ExternalArchive.append (copy parent)) ;;;
    let delta_score := fabs (fsub (score trial) (score parent)) in
    self <- on_fst get ;;
    CR_i <- lift (lookup (CR self) (id parent)) ;;
    F_i <- lift (lookup (F self) (id parent)) ;;
    with_memory (HistoricalMemory.record CR_i F_i delta_score) ;;;
    ret trial
  else ret parent.

End SHADE.

(** *** LSHADE *)

Module LSHADE.

Record t : Type := mk {
  super : SHADE.t;
  N_MIN : Z;
  MAX_NFE : Z;
  _nfe : Z
}.

Definition __init__ (N_INIT MAX_NFE : Z) (r_arc p : Q) (memory_size : Z)
    (f_min f_max : Q) (state_sharing : bool) : result t :=
  base ← SHADE.__init__ N_INIT r_arc p memory_size f_min f_max
                        state_sharing;
  Ok {| super := base; N_MIN := 4; MAX_NFE := MAX_NFE; _nfe := 0 |}.

(** [select] counts the evaluation and then calls a method the parent
    class does not have. *)
Definition select (candidates : MemberState * MemberState)
  : M (t * Rng) MemberState :=
  self <- on_fst get ;;
  on_fst (put {| super := super self; N_MIN := N_MIN self;
                 MAX_NFE := MAX_NFE self; _nfe := _nfe self + 1 |}) ;;;
  raise AttributeError.

Definition new_size (self : t) : result Z :=
  slope ← div (inject_Z (N_MIN self - SHADE.N_INIT (super self)))
              (inject_Z (MAX_NFE self));
  Ok (round (slope * inject_Z (_nfe self)
             + inject_Z (SHADE.N_INIT (super self)))).

Definition set_archive_size (self : t) (size : value) : t :=
  {| super :=
       SHADE.set_archive (super self)
         {| ExternalArchive.items :=
              ExternalArchive.items (SHADE.archive (super self));
            ExternalArchive.size := size |};
     N_MIN := N_MIN self; MAX_NFE := MAX_NFE self; _nfe := _nfe self |}.

(** The loop that removes the members [worsts] from the generation. *)
Fixpoint remove_all (worsts : list MemberState) : M Generation unit :=
  match worsts with
  | [] => ret tt
  | worst :: rest =>
      generation <- get ;;
      generation' <- lift (remove generation worst) ;;
      put generation' ;;;
      remove_all rest
  end.

(** The generation is mutated in place: it is part of the state. *)
Definition adjust_generation_size : M (t * Generation) unit :=
  self <- on_fst get ;;
  generation <- on_snd get ;;
  new_size <- lift (new_size self) ;;
  if Z.of_nat (length generation) <=? new_size then ret tt
  else
    on_fst (put (set_archive_size self
                   (VFloat (inject_Z new_size * SHADE.r_arc (super self))))) ;;;
    let size_delta := Z.of_nat (length generation) - new_size in
    on_snd (remove_all (slice_to (sorted generation) size_delta)).

End LSHADE.

(** *** RandomWalk *)

(** [random.uniform(a, b)]: [a + (b - a) * random()] *)
Definition uniform (a b : Q) : M Rng Q :=
  z <- uniform01 ;; ret (a + (b - a) * z)%Q.

Module RandomWalk.

Record t : Type := mk {
  explore_factor : Q
}.

Definition __init__ (explore_factor : Q) : t :=
  {| explore_factor := explore_factor |}.

(** The loop of [mutate] over the coordinates [js] of one member. *)
Fixpoint walk (self : t) (js : list nat) (explorer : MemberState)
  : M Rng MemberState :=
  match js with
  | [] => ret explorer
  | index :: js' =>
      perturb_factor <-
        uniform (- explore_factor self) (explore_factor self) ;;
      u <- lift (__getitem__ explorer index) ;;
      explorer' <- lift (__setitem__ explorer index (u * perturb_factor)%Q) ;;
      walk self js' explorer'
  end.

Definition mutate_member (self : t) (member : MemberState)
  : M Rng MemberState :=
  let explorer := copy member in
  walk self (seq 0 (length (parameters explorer))) explorer.

(** The generator of [mutate], run to its end. *)
Definition mutate (self : t) (generation : Generation)
  : M Rng (list MemberState) :=
  mapM (mutate_member self) generation.

Definition select (candidate : MemberState) : MemberState := candidate.

End RandomWalk.

(** *** DecayingLSHADE and GuidedLSHADE: the linear and the curve guide *)

(** [x**k] for the integer exponent [curve] is called with *)
Definition curve (x : Q) (k : positive) : Q := Qpower_positive x k.

(** Run a method of the SHADE part of an LSHADE object. *)
Definition with_shade {A : Type} (m : M (SHADE.t * Rng) A)
  : M (LSHADE.t * Rng) A :=
  fun st =>
    let '(r, (base, rng)) := m (LSHADE.super (fst st), snd st) in
    (r, ({| LSHADE.super := base; LSHADE.N_MIN := LSHADE.N_MIN (fst st);
            LSHADE.MAX_NFE := LSHADE.MAX_NFE (fst st);
            LSHADE._nfe := LSHADE._nfe (fst st) |}, rng)).

Module DecayingLSHADE.

(** [lambda f, nfe, max_nfe: f * (1.0 - nfe/max_nfe)] *)
Definition linear (f : Q) (nfe max_nfe : Z) : result Q :=
  x ← div (inject_Z nfe) (inject_Z max_nfe);
  Ok (f * (1 - x))%Q.

(** [lambda f, nfe, max_nfe: f * (1.0 - curve(nfe/max_nfe))] *)
Definition curved (f : Q) (nfe max_nfe : Z) : result Q :=
  x ← div (inject_Z nfe) (inject_Z max_nfe);
  Ok (f * (1 - curve x 5))%Q.

(** [get_control_parameters], for the decay function the constructor
    chose. *)
Definition get_control_parameters
    (decay_function : Q -> Z -> Z -> result Q) : M (LSHADE.t * Rng) (Q * Q) :=
  cf <- with_shade SHADE.get_control_parameters ;;
  self <- on_fst get ;;
  f <- lift (decay_function (snd cf) (LSHADE._nfe self)
                            (LSHADE.MAX_NFE self)) ;;
  ret (fst cf, f).

End DecayingLSHADE.

Module GuidedLSHADE.

(** [lambda f, nfe, max_nfe: f + ((1.0 - nfe/max_nfe) - f) * strength] *)
Definition linear (strength : Q) (f : Q) (nfe max_nfe : Z) : result Q :=
  x ← div (inject_Z nfe) (inject_Z max_nfe);
  Ok (f + ((1 - x) - f) * strength)%Q.

(** [lambda f, nfe, max_nfe:
       f + ((1.0 - curve(nfe/max_nfe)) - f) * strength] *)
Definition curved (strength : Q) (f : Q) (nfe max_nfe : Z) : result Q :=
  x ← div (inject_Z nfe) (inject_Z max_nfe);
  Ok (f + ((1 - curve x 5) - f) * strength)%Q.

(** [get_control_parameters], for the guide function the constructor
    chose. *)
Definition get_control_parameters
    (guide_function : Q -> Z -> Z -> result Q) : M (LSHADE.t * Rng) (Q * Q) :=
  cf <- with_shade SHADE.get_control_parameters ;;
  self <- on_fst get ;;
  f <- lift (guide_function (snd cf) (LSHADE._nfe self)
                            (LSHADE.MAX_NFE self)) ;;
  ret (fst cf, f).

End GuidedLSHADE.

End Evolution.

(** ** Float arithmetic in hyperparameters.py and in the size schedule

    The functions of hyperparameters.py and [LSHADE.adjust_generation_size]
    once more, with every float operation rounded by [fl] and the integer
    operations exact, as the interpreter has them: an [int] meets a float
    as [float(int)], [int - int] stays an [int], [int / int] is the
    rounded quotient. With [fl = exact] the size schedule is the one
    above. *)

Module Rounded.

Section Values.

Variable fl : Q -> Q.

(** [float(v)], and an [int] operand of a float operation *)
Definition to_float (v : value) : result Q :=
  match v with
  | VInt z => Ok (fl (inject_Z z))
  | VFloat q => Ok q
  | VStr _ => Raise TypeError
  end.

(** [a - b] on numbers *)
Definition sub (a b : value) : result value :=
  match a, b with
  | VInt x, VInt y => Ok (VInt (x - y))
  | VStr _, _ | _, VStr _ => Raise TypeError
  | _, _ => x ← to_float a; y ← to_float b; Ok (VFloat (fl (x - y)))
  end.

(** [x / y] on floats *)
Definition fdiv (x y : Q) : result Q :=
  if Qeq_bool y 0 then Raise ZeroDivisionError else Ok (fl (x / y)).

Definition translate (value left_min left_max right_min right_max : value)
  : result Q :=
  left_span ← sub left_max left_min;
  right_span ← sub right_max right_min;
  d ← sub value left_min;
  fd ← to_float d;
  fs ← to_float left_span;
  value_normalized ← fdiv fd fs;
  rs ← to_float right_span;
  rm ← to_float right_min;
  Ok (fl (rm + fl (value_normalized * rs))).

Definition _get_normalized_value (self : Hyperparameters.Hyperparameter)
    (v : value) : result Q :=
  if Hyperparameters.is_categorical self then
    _ ← assert (existsb (fun x => eq x v)
                        (Hyperparameters._search_space self))
               Hyperparameters.msg_not_in_space;
    i ← index v (Hyperparameters._search_space self);
    translate (VInt i) (VInt 0)
              (VInt (Z.of_nat (length (Hyperparameters._search_space self))
                     - 1))
              (VFloat 0) (VFloat 1)
  else if is_number v then
    lo ← Hyperparameters.get_lower_bound self;
    hi ← Hyperparameters.get_upper_bound self;
    translate v lo hi (VFloat 0) (VFloat 1)
  else Raise (Exception Hyperparameters.msg_value_type).

Definition get_value (self : Hyperparameters.Hyperparameter)
  : result value :=
  if Hyperparameters.is_categorical self then
    u ← Hyperparameters.stored self;
    t ← translate u (VFloat 0) (VFloat 1) (VInt 0)
                  (VInt (Z.of_nat
                           (length (Hyperparameters._search_space self))
                         - 1));
    getitem (Hyperparameters._search_space self) (round t)
  else
    first ← getitem (Hyperparameters._search_space self) 0;
    if is_float first then
      u ← Hyperparameters.stored self;
      lo ← Hyperparameters.get_lower_bound self;
      hi ← Hyperparameters.get_upper_bound self;
      t ← translate u (VFloat 0) (VFloat 1) lo hi;
      Ok (VFloat t)
    else if is_int first then
      u ← Hyperparameters.stored self;
      lo ← Hyperparameters.get_lower_bound self;
      hi ← Hyperparameters.get_upper_bound self;
      t ← translate u (VFloat 0) (VFloat 1) lo hi;
      Ok (VInt (round t))
    else Raise (Exception Hyperparameters.msg_non_categorical).

Definition set_value (self : Hyperparameters.Hyperparameter) (v : value)
  : result Hyperparameters.Hyperparameter :=
  n ← _get_normalized_value self v;
  Ok (Hyperparameters.with_value self (Hyperparameters.clip n 0 1)).

(** [h = Hyperparameter(a, b); h.set_value(v); h.get_value()] *)
Definition roundtrip_values (a b v : value) : result value :=
  h ← Hyperparameters.__init__ [a; b] false;
  h' ← set_value h v;
  get_value h'.

Definition roundtrip (a b v : Q) : result value :=
  roundtrip_values (VFloat a) (VFloat b) (VFloat v).

(** The body the in-place operators share: after the type test,
    [self._value = self._value op other], a float operation. *)
Definition inplace (op : Q -> Q -> Q) (msg : string)
    (self : Hyperparameters.Hyperparameter)
    (other : Hyperparameters.Arithmetic.operand)
  : result Hyperparameters.Hyperparameter :=
  match other with
  | Hyperparameters.Arithmetic.Number v =>
      if is_number v then
        x ← to_float v;
        match Hyperparameters._value self with
        | Some u => Ok (Hyperparameters.with_value self (fl (op u x)))
        | None => Raise TypeError
        end
      else Raise (Exception msg)
  | Hyperparameters.Arithmetic.Hyper _ => Raise TypeError
  end.

Definition __iadd__ := inplace Qplus Hyperparameters.Arithmetic.msg_add.

Definition __isub__ := inplace Qminus Hyperparameters.Arithmetic.msg_sub.

Definition __imul__ := inplace Qmult Hyperparameters.Arithmetic.msg_mul.

End Values.

Section Schedule.
Import Evolution.
Import LSHADE.
Local Open Scope py_scope.

Variable fl : Q -> Q.

(** [round(((self.N_MIN - self.N_INIT) / self.MAX_NFE) * self._nfe
    + self.N_INIT)]: the quotient of two [int], times an [int], plus an
    [int]. *)
Definition new_size (self : LSHADE.t) : result Z :=
  slope ← fdiv fl (inject_Z (N_MIN self - SHADE.N_INIT (super self)))
                  (inject_Z (MAX_NFE self));
  Ok (round (fl (fl (slope * fl (inject_Z (_nfe self)))
                 + fl (inject_Z (SHADE.N_INIT (super self)))))).

(** The generation is mutated in place: it is part of the state. The
    capacity assigned is the float [new_size * self.r_arc]. *)
Definition adjust_generation_size : M (LSHADE.t * Generation) unit :=
  self <- on_fst get ;;
  generation <- on_snd get ;;
  new_size <- lift (new_size self) ;;
  if Z.of_nat (length generation) <=? new_size then ret tt
  else
    on_fst (put (set_archive_size self
                   (VFloat (fl (fl (inject_Z new_size)
                                * SHADE.r_arc (super self)))))) ;;;
    let size_delta := Z.of_nat (length generation) - new_size in
    on_snd (remove_all (slice_to (sorted generation) size_delta)).

End Schedule.

End Rounded.


(** ** controller.py: the end criteria *)

Module Controller.
Import Evolution.

(** The part of the controller the end criteria read. The criteria are a
    dictionary from names to numbers. *)
Record t : Type := mk {
  end_criteria : gmap string Q;
  nfe : Z;
  current : Generation
}.

(** ['key' in self.end_criteria and self.end_criteria['key']]: the
    threshold, when the key is there and its number is not zero. *)
Definition criterion (self : t) (key : string) : option Q :=
  match end_criteria self !! key with
  | Some v => if Qeq_bool v 0 then None else Some v
  | None => None
  end.

(** Modelled from the spec: [member >= score] of member.py, the score
    reaching the target: at least the threshold when maximizing, at most
    the threshold when minimizing; a NaN score reaches nothing. *)
Definition __ge__ (member : MemberState) (target : Q) : bool :=
  match score member with
  | Real x => if minimize member then Qle_bool x target else Qle_bool target x
  | NaN => false
  end.

Definition __is_member_finished (self : t) (member : MemberState) : bool :=
  match criterion self "steps" with
  | Some s => Qle_bool s (inject_Z (steps member))
  | None => false
  end.

Definition __is_population_finished (self : t) : bool :=
  if match criterion self "nfe" with
     | Some n => Qle_bool n (inject_Z (nfe self))
     | None => false
     end
  then true
  else if match criterion self "score" with
          | Some s => existsb (fun member => __ge__ member s) (current self)
          | None => false
          end
  then true
  else if forallb (__is_member_finished self) (current self) then true
  else false.

End Controller.

(** * Vocabulary of the statements and concrete inputs *)

Section Vocabulary.
Import Evolution.

Definition full (a : ExternalArchive.t) : bool :=
  Py.eq (VInt (ExternalArchive.len a)) (ExternalArchive.size a).

(** The weight [record] stores for a score difference: the difference
    itself unless it is zero or NaN, then [1e-9]. *)
Definition recorded_weight (delta_score : float) : Q :=
  match delta_score with
  | Real d => if Qeq_bool d 0 then HistoricalMemory.tiny else d
  | NaN => HistoricalMemory.tiny
  end.

Definition recorded (h : HistoricalMemory.t) (cr_i f_i w : Q)
  : HistoricalMemory.t :=
  {| HistoricalMemory.size := HistoricalMemory.size h;
     HistoricalMemory.m_cr := HistoricalMemory.m_cr h;
     HistoricalMemory.m_f := HistoricalMemory.m_f h;
     HistoricalMemory.s_cr := HistoricalMemory.s_cr h ++ [cr_i];
     HistoricalMemory.s_f := HistoricalMemory.s_f h ++ [f_i];
     HistoricalMemory.weights := HistoricalMemory.weights h ++ [w];
     HistoricalMemory.k := HistoricalMemory.k h |}.

(** The exceptions other than the two size errors of [mutate]. *)
Definition benign (e : exn) : bool :=
  match e with
  | ValueError msg =>
      negb (String.eqb msg DifferentialEvolution.msg_size)
      && negb (String.eqb msg SHADE.msg_size)
  | _ => true
  end.

Definition only_benign {S A : Type} (m : M S A) : Prop :=
  forall s e, fst (m s) = Raise e -> benign e = true.

Definition result_benign {A : Type} (r : result A) : Prop :=
  forall e, r = Raise e -> benign e = true.

Definition set_parameters (m : MemberState) (ps : list Q) : MemberState :=
  {| id := id m; epochs := epochs m; steps := steps m;
     parameters := ps;
     model_state := model_state m; optimizer_state := optimizer_state m;
     eval_loss := eval_loss m; minimize := minimize m |}.

Definition le_prop (a b : MemberState) : Prop := __le__ a b = true.

(** All the members of a generation pursue the same objective. *)
Definition same_objective (l : list MemberState) : Prop :=
  exists b : bool, Forall (fun m => minimize m = b) l.

Section Memory.
Import HistoricalMemory.

(** What [__init__], [record] and [reset] maintain: the cursor is
    within the arrays, and the three sample buffers run in step, the
    weights positive and the samples non-negative. *)
Record wf (h : HistoricalMemory.t) : Prop := {
  wf_k : 0 <= k h < size h;
  wf_m_cr : Z.of_nat (length (m_cr h)) = size h;
  wf_m_f : Z.of_nat (length (m_f h)) = size h;
  wf_s_cr : length (s_cr h) = length (weights h);
  wf_s_f : length (s_f h) = length (weights h);
  wf_weights : Forall (fun w => 0 < w)%Q (weights h);
  wf_cr_nonneg : Forall (fun c => 0 <= c)%Q (s_cr h);
  wf_f_nonneg : Forall (fun f => 0 <= f)%Q (s_f h)
}.

Definition no_samples (h : HistoricalMemory.t) : Prop :=
  s_cr h = [] \/ s_f h = [] \/ weights h = [].

(** The state [update] reaches once it has written [cr] and [f] at the
    cursor. *)
Definition updated (h : HistoricalMemory.t) (cr : option Q) (f : Q)
  : HistoricalMemory.t :=
  {| size := size h;
     m_cr := <[Z.to_nat (k h) := cr]> (m_cr h);
     m_f := <[Z.to_nat (k h) := f]> (m_f h);
     s_cr := s_cr h; s_f := s_f h; weights := weights h;
     k := (k h + 1) mod size h |}.

End Memory.

(** Member [i] of a maximizing population, with score [s]. *)
Definition example_member (i : Z) (s : Q) : MemberState :=
  {| id := i; epochs := 0; steps := 0;
     parameters := [9 # 10; 1 # 4];
     model_state := Some i; optimizer_state := Some i;
     eval_loss := Real s; minimize := false |}.

(** Members [0 .. n-1], member [i] scoring [i/20]. *)
Definition example_generation (n : nat) : Generation :=
  map (fun i => example_member (Z.of_nat i) (Z.of_nat i # 20)) (seq 0 n).

(** [SHADE(N_INIT=20, r_arc=r_arc)] after [mutate] has drawn the control
    parameters [cr] and [f]. *)
Definition example_shade (r_arc : Q) (cr f : gmap Z Q) : SHADE.t :=
  {| SHADE.F_MIN := 0; SHADE.F_MAX := 1; SHADE.N_INIT := 20;
     SHADE.r_arc := r_arc;
     SHADE.archive :=
       ExternalArchive.__init__ (round (inject_Z 20 * r_arc));
     SHADE.memory := HistoricalMemory.__init__ 5 ((1 - 0) / 2);
     SHADE.p := 1 # 10; SHADE.CR := cr; SHADE.F := f;
     SHADE.state_sharing := false |}.

(** [LSHADE(N_INIT=20, MAX_NFE=1000, r_arc=r_arc)] after [nfe]
    evaluations. *)
Definition example_lshade (r_arc : Q) (nfe : Z) : LSHADE.t :=
  {| LSHADE.super := example_shade r_arc ∅ ∅;
     LSHADE.N_MIN := 4; LSHADE.MAX_NFE := 1000; LSHADE._nfe := nfe |}.

(** A SHADE engine whose archive is full (three members, capacity 3),
    with control parameters drawn for member 7. *)
Definition example_full_shade : SHADE.t :=
  SHADE.set_archive
    (example_shade 2 {[ 7 := 1 # 2 ]} {[ 7 := 3 # 10 ]})
    {| ExternalArchive.items := example_generation 3;
       ExternalArchive.size := VInt 3 |}.

Definition example_rng : Rng := {| ints := [3%nat; 1%nat; 4%nat; 1%nat; 5%nat];
                                   reals := [1 # 2; 1 # 3] |}.

Definition example_memory : HistoricalMemory.t :=
  {| HistoricalMemory.size := 2;
     HistoricalMemory.m_cr := [Some (1 # 2); Some (1 # 2)];
     HistoricalMemory.m_f := [1 # 2; 1 # 2];
     HistoricalMemory.s_cr := [0%Q; 0%Q; 0%Q];
     HistoricalMemory.s_f := [3 # 10; 5 # 10; 7 # 10];
     HistoricalMemory.weights := [1 # 10; 2 # 10; 1 # 10];
     HistoricalMemory.k := 1 |}.

(** Five members scoring 0.1 to 0.5 with [exploit_factor = 0.4]: the two
    best are the elitists, and the worst member exploits one of them. *)
Definition example_scores : Generation :=
  [example_member 0 (1 # 10); example_member 1 (2 # 10);
   example_member 2 (3 # 10); example_member 3 (4 # 10);
   example_member 4 (5 # 10)].

Definition example_pbt : ExploitAndExplore.t :=
  {| ExploitAndExplore.exploit_factor := 4 # 10;
     ExploitAndExplore.explore_factors := [8 # 10; 12 # 10] |}.

(** The element [random.choice(l)] returns on the draw [r]. *)
Definition picked {A : Type} (d : A) (l : list A) (r : nat) : A :=
  nth (Z.to_nat (Z.of_nat r mod Z.of_nat (length l))) l d.

(** What exploit-and-explore makes of a member that copies [elitist],
    the factors being picked by [draws]: the member's own identity,
    counters and loss, the elitist's opaque state, and the elitist's
    coordinates, each multiplied by its factor, the product rounded by
    [fl] and saturated to [0, 1]. *)
Definition explored (fl : Q -> Q) (self : ExploitAndExplore.t)
    (member elitist : MemberState) (draws : list nat) : MemberState :=
  {| id := id member; epochs := epochs member; steps := steps member;
     parameters :=
       zip_with (fun u r =>
                   clip (fl (u * picked 0%Q
                                   (ExploitAndExplore.explore_factors self)
                                   r)%Q) 0 1)
                (parameters elitist) draws;
     model_state := model_state elitist;
     optimizer_state := optimizer_state elitist;
     eval_loss := eval_loss member; minimize := minimize member |}.

(** What [mutate] emits for the members [g], in order, with the elitists
    [top], and the tape it leaves: an elitist costs no draw, any other
    member one draw for the elitist it copies and one for each of that
    elitist's coordinates. *)
Fixpoint emitted (fl : Q -> Q) (self : ExploitAndExplore.t)
    (top g : list MemberState) (tape : list nat)
  : list MemberState * list nat :=
  match g with
  | [] => ([], tape)
  | member :: g' =>
      if contains top member then
        let rest := emitted fl self top g' tape in
        (copy member :: fst rest, snd rest)
      else
        let elitist := picked member top (List.hd 0%nat tape) in
        let d := length (parameters elitist) in
        let t := List.tl tape in
        let rest := emitted fl self top g' (skipn d t) in
        (explored fl self member elitist (firstn d t) :: fst rest, snd rest)
  end.

(** 75 members scoring alike. *)
Definition example_crowd : Generation :=
  map (fun i => example_member (Z.of_nat i) (1 # 2)) (seq 0 75).

(** The number a numeric value denotes. *)
Definition num_of (v : value) : Q :=
  match v with
  | VInt z => inject_Z z
  | VFloat q => q
  | VStr _ => 0%Q
  end.

Definition num_le (a b : value) : Prop := (num_of a <= num_of b)%Q.

(** What the constructor establishes and no method undoes: a continuous
    hyper-parameter over a non-empty ascending list of numbers. *)
Record wf_hp (h : Hyperparameters.Hyperparameter) : Prop := {
  wf_hp_continuous : Hyperparameters.is_categorical h = false;
  wf_hp_nonempty : Hyperparameters._search_space h <> [];
  wf_hp_numbers :
    Forall (fun v => is_number v = true) (Hyperparameters._search_space h);
  wf_hp_sorted : StronglySorted num_le (Hyperparameters._search_space h)
}.

(** The ends of the search space. *)
Definition lower_of (h : Hyperparameters.Hyperparameter) : value :=
  List.hd (VInt 0) (Hyperparameters._search_space h).

Definition upper_of (h : Hyperparameters.Hyperparameter) : value :=
  List.last (Hyperparameters._search_space h) (VInt 0).

(** A number the floats hold as it is: a float, or an integer of
    magnitude at most [2 ^ 53]. *)
Definition representable (fl : Q -> Q) (v : value) : Prop :=
  match v with
  | VFloat q => (fl q == q)%Q
  | VInt z => Z.abs z <= 2 ^ 53
  | VStr _ => False
  end.

(** The float a number becomes as the operand of a float operation. *)
Definition float_of (fl : Q -> Q) (v : value) : Q :=
  match v with
  | VInt z => fl (inject_Z z)
  | VFloat q => q
  | VStr _ => 0%Q
  end.

(** The float [translate] makes of a difference [x - y]: the exact
    difference of two integers converted, the rounded difference
    otherwise. *)
Definition span_of (fl : Q -> Q) (x y : value) : Q :=
  match x, y with
  | VInt m, VInt n => fl (inject_Z (m - n))
  | _, _ => fl (float_of fl x - float_of fl y)%Q
  end.

(** The upper end of the search space as [get_value] reaches it, at the
    normalized value 1. *)
Definition top_of (fl : Q -> Q) (h : Hyperparameters.Hyperparameter) : Q :=
  fl (float_of fl (lower_of h) + span_of fl (upper_of h) (lower_of h))%Q.

Definition example_float_hp : Hyperparameters.Hyperparameter :=
  {| Hyperparameters._search_space := [VFloat (1 # 10); VFloat (9 # 10)];
     Hyperparameters.is_categorical := false;
     Hyperparameters._value := Some (1 # 2) |}.

(** The floats 0.3 and 0.9 as bounds, the normalized value at the upper
    end. *)
Definition example_binary_hp : Hyperparameters.Hyperparameter :=
  {| Hyperparameters._search_space :=
       [VFloat (Float.binary64 (3 # 10)); VFloat (Float.binary64 (9 # 10))];
     Hyperparameters.is_categorical := false;
     Hyperparameters._value := Some 1%Q |}.

Definition example_int_hp : Hyperparameters.Hyperparameter :=
  {| Hyperparameters._search_space := [VInt 1; VInt 4; VInt 8];
     Hyperparameters.is_categorical := false;
     Hyperparameters._value := Some (1 # 2) |}.


(** The state [update] is in between its two assignments: [cr] written
    at the cursor of [m_cr], nothing else touched yet. *)
Definition cr_written (h : HistoricalMemory.t) (cr : option Q)
  : HistoricalMemory.t :=
  {| HistoricalMemory.size := HistoricalMemory.size h;
     HistoricalMemory.m_cr :=
       <[Z.to_nat (HistoricalMemory.k h) := cr]> (HistoricalMemory.m_cr h);
     HistoricalMemory.m_f := HistoricalMemory.m_f h;
     HistoricalMemory.s_cr := HistoricalMemory.s_cr h;
     HistoricalMemory.s_f := HistoricalMemory.s_f h;
     HistoricalMemory.weights := HistoricalMemory.weights h;
     HistoricalMemory.k := HistoricalMemory.k h |}.

(** The value the first assignment of [update] computes for
    [m_cr[k]]. *)
Definition next_m_cr (h : HistoricalMemory.t) : result (option Q) :=
  match HistoricalMemory.m_cr h !! Z.to_nat (HistoricalMemory.k h) with
  | Some (Some _) =>
      if Qeq_bool (HistoricalMemory.max (HistoricalMemory.s_cr h)) 0
      then Ok None
      else v ← mean_wl (HistoricalMemory.s_cr h) (HistoricalMemory.weights h);
           Ok (Some v)
  | _ => Ok None
  end.

(** A memory whose recorded [F] are all zero, the first slot of [m_cr]
    already given up. *)
Definition example_memory_zero_F : HistoricalMemory.t :=
  {| HistoricalMemory.size := 2;
     HistoricalMemory.m_cr := [None; Some (1 # 2)];
     HistoricalMemory.m_f := [1 # 2; 1 # 2];
     HistoricalMemory.s_cr := [1 # 2; 1 # 4];
     HistoricalMemory.s_f := [0%Q; 0%Q];
     HistoricalMemory.weights := [1 # 10; 2 # 10];
     HistoricalMemory.k := 1 |}.

(** A memory with two samples whose recorded [CR] are positive, the slot
    of [m_cr] at the cursor holding a number. *)
Definition example_memory_cr : HistoricalMemory.t :=
  {| HistoricalMemory.size := 2;
     HistoricalMemory.m_cr := [Some (1 # 2); Some (1 # 2)];
     HistoricalMemory.m_f := [1 # 2; 1 # 2];
     HistoricalMemory.s_cr := [1 # 2; 1 # 4];
     HistoricalMemory.s_f := [3 # 10; 5 # 10];
     HistoricalMemory.weights := [1 # 10; 2 # 10];
     HistoricalMemory.k := 0 |}.

(** A computation on a pair of states that leaves the first one as it
    found it, whether it returns or raises. *)
Definition keeps_fst {S T A : Type} (m : M (S * T) A) : Prop :=
  forall st, fst (snd (m st)) = fst st.

(** A tape long enough for one [mutate] over four members. *)
Definition example_long_rng : Rng :=
  {| ints := [3; 1; 4; 1; 5; 9; 2; 6; 5; 3; 5; 8; 9; 7; 9; 3; 2; 3; 8; 4]%nat;
     reals := [1 # 2; 9 # 10; 1 # 3; 1 # 10; 7 # 10; 2 # 5; 19 # 20; 1 # 4] |}.

Definition example_de : DifferentialEvolution.t :=
  {| DifferentialEvolution.F := 1 # 5; DifferentialEvolution.Cr := 4 # 5 |}.

(** [LSHADE(N_INIT=18, MAX_NFE=100)] after 75 evaluations. *)
Definition example_lshade_tie : LSHADE.t :=
  {| LSHADE.super :=
       {| SHADE.F_MIN := 0; SHADE.F_MAX := 1; SHADE.N_INIT := 18;
          SHADE.r_arc := 2;
          SHADE.archive := ExternalArchive.__init__ 36;
          SHADE.memory := HistoricalMemory.__init__ 5 ((1 - 0) / 2);
          SHADE.p := 1 # 10; SHADE.CR := ∅; SHADE.F := ∅;
          SHADE.state_sharing := false |};
     LSHADE.N_MIN := 4; LSHADE.MAX_NFE := 100; LSHADE._nfe := 75 |}.


(** A controller whose only criterion is a number of steps. *)
Definition example_controller : Controller.t :=
  {| Controller.end_criteria := {[ "steps" := 100%Q; "nfe" := 0%Q ]};
     Controller.nfe := 40;
     Controller.current := example_generation 3 |}.

End Vocabulary.

(** * Theorems *)

(** ** Arithmetic helpers *)

Lemma Qltb_lt (x y : Q) : Qltb x y = true <-> (x < y)%Q.
Proof.
  unfold Qltb. rewrite negb_true_iff, <- not_true_iff_false, Qle_bool_iff.
  split; [apply Qnot_le_lt | apply Qlt_not_le].
Qed.

Lemma Qltb_ge (x y : Q) : Qltb x y = false <-> (y <= x)%Q.
Proof.
  unfold Qltb. rewrite negb_false_iff. apply Qle_bool_iff.
Qed.

Lemma div_nonzero (x y : Q) : ~ (y == 0)%Q -> div x y = Ok (x / y)%Q.
Proof.
  intros Hy. unfold div.
  destruct (Qeq_bool y 0) eqn:E; [|reflexivity].
  apply Qeq_bool_iff in E. contradiction.
Qed.

(** ** Rounding to an integer *)

Section IntegerRounding.


Lemma round_ge (q : Q) (m : Z) : (inject_Z m <= q)%Q -> m <= round q.
Proof.
  intros Hq. unfold round.
  assert (Hfl : m <= Qfloor q).
  { rewrite <- (Qfloor_Z m). apply Qfloor_resp_le. exact Hq. }
  destruct (Qcompare _ _); [destruct (Z.even _)| |]; lia.
Qed.

Lemma round_le (q : Q) (m : Z) : (q <= inject_Z m)%Q -> round q <= m.
Proof.
  intros Hq. unfold round.
  pose proof (Qfloor_le q) as Hlo.
  assert (Hfl : Qfloor q <= m).
  { rewrite <- (Qfloor_Z m). apply Qfloor_resp_le. exact Hq. }
  assert (Hstrict : (inject_Z (Qfloor q) < q)%Q -> Qfloor q + 1 <= m).
  { intros Hlt. assert (Hm : (inject_Z (Qfloor q) < inject_Z m)%Q) by lra.
    rewrite <- Zlt_Qlt in Hm. lia. }
  destruct (Qcompare (q - inject_Z (Qfloor q)) (1 # 2)) eqn:E.
  - apply Qeq_alt in E. destruct (Z.even _); [lia|].
    apply Hstrict. lra.
  - lia.
  - apply Qgt_alt in E. apply Hstrict. lra.
Qed.



End IntegerRounding.

(** ** Float arithmetic: [binary64] is a rounding *)

Section Binary64.
Import Float.





































Lemma exact_rounding : Rounding exact.
Proof.
  constructor; unfold exact.
  - intros x y H. exact H.
  - intros x y H. exact H.
  - intros n _. reflexivity.
  - intros x. reflexivity.
  - intros x. assert (E : (x - x == 0)%Q) by ring. rewrite E.
    change (Qabs 0) with 0%Q.
    apply Qmult_le_0_compat; [discriminate|apply Qabs_nonneg].
Qed.
End Binary64.

(** ** Hyperparameter *)

Section HyperparameterFacts.
Import Hyperparameters.

Lemma sorted_bounds (a b : Q) :
  (a < b)%Q -> sorted [VFloat a; VFloat b] = Ok [VFloat a; VFloat b].
Proof.
  intros Hab. cbn.
  assert (Qltb b a = false) as -> by (apply Qltb_ge; lra).
  reflexivity.
Qed.

Lemma clip_spec (v lo hi : Q) :
  (lo <= hi)%Q ->
  ((v < lo)%Q /\ clip v lo hi = lo) \/
  ((hi < v)%Q /\ clip v lo hi = hi) \/
  ((lo <= v <= hi)%Q /\ clip v lo hi = v).
Proof.
  intros Hle. unfold clip.
  destruct (Qltb v lo) eqn:E1.
  - left. apply Qltb_lt in E1. auto.
  - apply Qltb_ge in E1. destruct (Qltb hi v) eqn:E2.
    + right; left. apply Qltb_lt in E2. auto.
    + right; right. apply Qltb_ge in E2. auto.
Qed.

(** Whatever the arguments, a categorical construction is rejected: by
    the second assertion, or by the first one when fewer than two
    arguments are given. *)
Theorem categorical_construction_raises (args : list value) :
  __init__ args true =
    Raise (AssertionError
             (if 1 <? Z.of_nat (length args)
              then msg_non_categorical else msg_two_arguments)).
Proof.
  unfold __init__. destruct (1 <? Z.of_nat (length args)); reflexivity.
Qed.

(** C4 at a concrete input: [Hyperparameter("a", "b", "c",
    is_categorical=True)] raises the assertion error meant for
    non-categorical hyper-parameters; fewer than two arguments raise the
    arity assertion, categorical or not. *)
Theorem C4_categorical_construction_fails :
  __init__ [VStr "a"; VStr "b"; VStr "c"] true
    = Raise (AssertionError msg_non_categorical)
  /\ (forall (args : list value) (c : bool),
        (length args < 2)%nat ->
        (__init__ args c = Raise (AssertionError msg_two_arguments))).
Proof.
  split; [reflexivity|].
  intros args c Hlen. unfold __init__.
  assert ((1 <? Z.of_nat (length args)) = false) as -> by lia.
  reflexivity.
Qed.

(** The non-categorical path of the constructor does succeed on numeric
    bounds. *)
Lemma init_bounds (a b : Q) :
  (a < b)%Q ->
  __init__ [VFloat a; VFloat b] false =
    Ok {| _search_space := [VFloat a; VFloat b];
          is_categorical := false;
          _value := None |}.
Proof.
  intros Hab. unfold __init__. cbn -[sorted].
  rewrite (sorted_bounds a b Hab). reflexivity.
Qed.

Lemma set_value_bounds (a b v : Q) :
  (a < b)%Q ->
  set_value {| _search_space := [VFloat a; VFloat b];
               is_categorical := false;
               _value := None |} (VFloat v)
  = Ok {| _search_space := [VFloat a; VFloat b];
          is_categorical := false;
          _value := Some (clip (0 + (v - a) / (b - a) * (1 - 0)) 0 1) |}.
Proof.
  intros Hab. unfold set_value, _get_normalized_value; cbn.
  change (get_lower_bound _) with (Ok (VFloat a)).
  change (get_upper_bound _) with (Ok (VFloat b)).
  cbn. unfold translate_number. rewrite div_nonzero by lra. reflexivity.
Qed.

Lemma get_value_bounds (a b u : Q) :
  get_value {| _search_space := [VFloat a; VFloat b];
               is_categorical := false;
               _value := Some u |}
  = Ok (VFloat (a + (u - 0) / (1 - 0) * (b - a))).
Proof.
  unfold get_value; cbn.
  change (getitem _ 0) with (Ok (VFloat a)). cbn.
  change (get_lower_bound _) with (Ok (VFloat a)).
  change (get_upper_bound _) with (Ok (VFloat b)).
  cbn. unfold translate_number. rewrite div_nonzero by lra. reflexivity.
Qed.

(** In exact arithmetic the round trip is the identity between the
    bounds and saturates outside them: what the floats approximate. *)
Lemma roundtrip_in_exact_arithmetic (a b v : Q) :
  (a < b)%Q ->
  exists r : Q,
    roundtrip a b v = Ok (VFloat r) /\
    ((a <= v <= b)%Q -> (r == v)%Q) /\
    ((v < a)%Q -> (r == a)%Q) /\
    ((b < v)%Q -> (r == b)%Q).
Proof.
  intros Hab. unfold roundtrip.
  rewrite (init_bounds a b Hab). cbn -[set_value get_value].
  rewrite (set_value_bounds a b v Hab). cbn -[get_value].
  rewrite get_value_bounds.
  eexists; split; [reflexivity|].
  set (u := (0 + (v - a) / (b - a) * (1 - 0))%Q).
  assert (Hu : (u == (v - a) / (b - a))%Q) by (unfold u; field; lra).
  assert (Hden : (0 < b - a)%Q) by lra.
  assert (Hpos : (0 <= v - a -> 0 <= u)%Q).
  { intros H. rewrite Hu. apply Qle_shift_div_l; lra. }
  assert (Hneg : (v - a < 0 -> u < 0)%Q).
  { intros H. rewrite Hu. apply Qlt_shift_div_r; lra. }
  assert (Hle1 : (v - a <= b - a -> u <= 1)%Q).
  { intros H. rewrite Hu. apply Qle_shift_div_r; lra. }
  assert (Hgt1 : (b - a < v - a -> 1 < u)%Q).
  { intros H. rewrite Hu. apply Qlt_shift_div_l; lra. }
  destruct (clip_spec u 0 1) as [[Hc ->]|[[Hc ->]|[Hc ->]]]; [lra| | |].
  - repeat split; intros H.
    + exfalso. apply (Qlt_not_le _ _ Hc). apply Hpos. lra.
    + field.
    + exfalso. apply (Qlt_not_le _ _ Hc). apply Hpos. lra.
  - repeat split; intros H.
    + exfalso. apply (Qlt_not_le _ _ Hc). apply Hle1. lra.
    + exfalso. apply (Qlt_not_le _ _ Hc). apply Hle1. lra.
    + field.
  - repeat split; intros H.
    + rewrite Hu. field. lra.
    + exfalso. assert (u < 0)%Q by (apply Hneg; lra). lra.
    + exfalso. assert (1 < u)%Q by (apply Hgt1; lra). lra.
Qed.

End HyperparameterFacts.

(** ** The member ordering *)

Section Ordering.
Import Evolution.

Lemma Qle_bool_refl (x : Q) : Qle_bool x x = true.
Proof. apply Qle_bool_iff. apply Qle_refl. Qed.

Lemma Qle_bool_total (x y : Q) : Qle_bool x y = false -> Qle_bool y x = true.
Proof.
  intros H. apply Qle_bool_iff. apply Qlt_le_weak, Qnot_le_lt.
  intros Hle. apply Qle_bool_iff in Hle. congruence.
Qed.

Lemma member_le_refl (a : MemberState) : __le__ a a = true.
Proof.
  unfold __le__. destruct (score a); [|reflexivity].
  destruct (minimize a); apply Qle_bool_refl.
Qed.

Lemma member_le_total (a b : MemberState) :
  minimize a = minimize b -> __le__ a b = false -> __le__ b a = true.
Proof.
  unfold __le__. intros Hm.
  destruct (score a), (score b); try discriminate; try reflexivity.
  rewrite <- Hm. destruct (minimize a); apply Qle_bool_total.
Qed.

Lemma member_le_trans (a b c : MemberState) :
  minimize a = minimize b ->
  __le__ a b = true -> __le__ b c = true -> __le__ a c = true.
Proof.
  unfold __le__. intros Hm.
  destruct (score a), (score b), (score c);
    try discriminate; try reflexivity.
  rewrite <- Hm. destruct (minimize a);
    rewrite !Qle_bool_iff; intros; lra.
Qed.

(** [a < b] is the negation of [b <= a] among members of one objective. *)
Lemma member_lt_not_le (a b : MemberState) :
  minimize a = minimize b -> __lt__ a b = negb (__le__ b a).
Proof.
  unfold __lt__, __le__. intros Hm.
  destruct (score a), (score b); try reflexivity.
  rewrite <- Hm. unfold Qltb. destruct (minimize a); reflexivity.
Qed.

End Ordering.

(** ** DifferentialEvolution.select *)

Section DESelect.
Import Evolution.

(** C8: [select] returns the trial exactly when [parent <= trial] and the
    parent otherwise; the survivor is never worse than the parent, and,
    parent and trial sharing the objective, never worse than the trial:
    it is the better of the two, ties going to the trial. *)
Theorem C8_select_better (self : DifferentialEvolution.t)
    (parent trial : MemberState) :
  let survivor := DifferentialEvolution.select self parent trial in
  (__le__ parent trial = true -> survivor = trial) /\
  (__le__ parent trial = false -> survivor = parent) /\
  __le__ parent survivor = true /\
  (minimize parent = minimize trial -> __le__ trial survivor = true).
Proof.
  unfold DifferentialEvolution.select.
  destruct (__le__ parent trial) eqn:Hle; cbn.
  - repeat split; try discriminate; auto using member_le_refl.
  - repeat split; try discriminate; auto using member_le_refl.
    intros Hm. apply member_le_total; auto.
Qed.

End DESelect.

(** ** ExternalArchive.append *)

Section ArchiveFacts.
Import Evolution.
Import ExternalArchive.

Lemma append_not_full (x : MemberState) (a : ExternalArchive.t) (rng : Rng) :
  full a = false ->
  append x (a, rng)
  = (Ok tt, ({| items := items a ++ [x]; size := size a |}, rng)).
Proof.
  unfold full, append, bind, on_fst, on_snd, get, put, ret; cbn.
  intros ->. reflexivity.
Qed.

Lemma randrange_draw (n : Z) (r : nat) (t : list nat) (rs : list Q) :
  0 < n ->
  randrange n {| ints := r :: t; reals := rs |}
  = (Ok (Z.of_nat r mod n), {| ints := t; reals := rs |}).
Proof.
  intros Hn. unfold randrange.
  assert ((n <=? 0) = false) as -> by lia. reflexivity.
Qed.

Lemma randrange_value_full (a : ExternalArchive.t) (r : nat) (t : list nat)
    (rs : list Q) :
  full a = true -> 0 < len a ->
  randrange_value (size a) {| ints := r :: t; reals := rs |}
  = (Ok (Z.of_nat r mod len a), {| ints := t; reals := rs |}).
Proof.
  unfold full. intros Hfull Hpos.
  destruct (size a) as [n|q|s]; cbn in *; try discriminate.
  - apply Z.eqb_eq in Hfull. subst n. apply randrange_draw; assumption.
  - apply Qeq_bool_iff in Hfull.
    assert (Hfl : Qfloor q = len a).
    { rewrite <- Hfull. apply Qfloor_Z. }
    rewrite Hfl.
    assert (Qeq_bool q (inject_Z (len a)) = true) as ->.
    { apply Qeq_bool_iff. symmetry. exact Hfull. }
    apply randrange_draw; assumption.
Qed.

Lemma append_full (x : MemberState) (a : ExternalArchive.t) (r : nat)
    (t : list nat) (rs : list Q) :
  full a = true -> 0 < len a ->
  append x (a, {| ints := r :: t; reals := rs |})
  = (Ok tt,
     ({| items := delete_at (items a) (Z.of_nat r mod len a) ++ [x];
         size := size a |},
      {| ints := t; reals := rs |})).
Proof.
  intros Hfull Hpos.
  unfold append, bind, on_fst, on_snd, get, put, ret; cbn [fst snd].
  fold (full a). rewrite Hfull. cbn [fst snd].
  rewrite (randrange_value_full a r t rs Hfull Hpos). reflexivity.
Qed.

Lemma length_delete_at {A : Type} (l : list A) (i : Z) :
  0 <= i < Z.of_nat (length l) ->
  length (delete_at l i) = Nat.pred (length l).
Proof.
  intros Hi. unfold delete_at.
  rewrite length_app, length_firstn, length_skipn. lia.
Qed.

(** An archive whose capacity is an integer and whose length is within it
    stays so under [append]; a draw is consumed only when it is full. *)
Lemma append_keeps_bound (x : MemberState) (a : ExternalArchive.t)
    (n : Z) (rng : Rng) :
  size a = VInt n -> 0 < n -> len a <= n -> ints rng <> [] ->
  exists a' rng',
    append x (a, rng) = (Ok tt, (a', rng')) /\
    size a' = VInt n /\ len a' <= n /\
    exists kept, items a' = kept ++ [x].
Proof.
  intros Hsize Hn Hlen Hrng.
  destruct (full a) eqn:Hfull.
  - assert (Heq : len a = n).
    { unfold full in Hfull. rewrite Hsize in Hfull. cbn in Hfull. lia. }
    destruct rng as [[|r t] rs]; [contradiction|].
    rewrite append_full by (auto; lia).
    eexists _, _; split; [reflexivity|]. cbn.
    split; [assumption|]. split; [|eauto].
    unfold len in *; cbn. rewrite length_app, length_delete_at; cbn.
    + lia.
    + apply Z.mod_pos_bound. lia.
  - rewrite append_not_full by assumption.
    eexists _, _; split; [reflexivity|]. cbn.
    split; [assumption|]. split; [|eauto].
    unfold full in Hfull. rewrite Hsize in Hfull. cbn in Hfull.
    unfold len in *; cbn. rewrite length_app; cbn. lia.
Qed.

End ArchiveFacts.

(** ** SHADE.select *)

Section SHADESelect.
Import Evolution.

Lemma record_valid (cr_i f_i : Q) (d : float) (h : HistoricalMemory.t) :
  (0 <= cr_i <= 1)%Q -> (0 <= f_i)%Q ->
  HistoricalMemory.record cr_i f_i d h
  = (Ok tt, recorded h cr_i f_i (recorded_weight d)).
Proof.
  intros [Hc0 Hc1] Hf.
  apply Qle_bool_iff in Hc0, Hc1, Hf.
  unfold HistoricalMemory.record, bind, lift, get, put, assert.
  rewrite Hc0, Hc1, Hf. cbn. destruct d; reflexivity.
Qed.

(** On the losing branch [select] is the identity on the whole state. *)
Lemma select_losing (parent trial : MemberState) (st : SHADE.t * Rng) :
  __le__ parent trial = false ->
  SHADE.select parent trial st = (Ok parent, st).
Proof.
  intros Hle. unfold SHADE.select. rewrite Hle. reflexivity.
Qed.

Lemma select_winning (parent trial : MemberState) (self : SHADE.t)
    (rng rng' : Rng) (a' : ExternalArchive.t) (cr_i f_i : Q) :
  __le__ parent trial = true ->
  ExternalArchive.append (copy parent) (SHADE.archive self, rng)
    = (Ok tt, (a', rng')) ->
  SHADE.CR self !! id parent = Some cr_i ->
  SHADE.F self !! id parent = Some f_i ->
  (0 <= cr_i <= 1)%Q -> (0 <= f_i)%Q ->
  SHADE.select parent trial (self, rng)
  = (Ok trial,
     (SHADE.set_memory (SHADE.set_archive self a')
        (recorded (SHADE.memory self) cr_i f_i
           (recorded_weight (fabs (fsub (score trial) (score parent))))),
      rng')).
Proof.
  intros Hle Happ Hcr Hf Hcr01 Hf0.
  unfold SHADE.select. rewrite Hle.
  unfold bind at 1. unfold SHADE.with_archive at 1. cbn [fst snd].
  rewrite Happ. cbn [fst snd].
  unfold bind, on_fst, get, lift, SHADE.lookup;
    cbn -[HistoricalMemory.record].
  rewrite Hcr, Hf. unfold SHADE.with_memory;
    cbn -[HistoricalMemory.record].
  rewrite record_valid by assumption. reflexivity.
Qed.

Lemma clip_range (z lo hi : Q) :
  (lo <= hi)%Q -> (lo <= clip z lo hi <= hi)%Q.
Proof.
  intros Hle. unfold clip.
  destruct (Qltb z lo) eqn:E1; [lra|]. apply Qltb_ge in E1.
  destruct (Qltb hi z) eqn:E2; [lra|]. apply Qltb_ge in E2. lra.
Qed.

Lemma draw_F_range (MF_i lo hi : Q) (tape tape' : list Q) (f : Q) :
  (lo <= hi)%Q ->
  SHADE.draw_F MF_i lo hi tape = (Ok f, tape') -> (lo <= f <= hi)%Q.
Proof.
  intros Hle. induction tape as [|z tape IH]; cbn; [discriminate|].
  destruct (Qltb _ lo) eqn:E1; [exact IH|]. apply Qltb_ge in E1.
  destruct (Qltb hi _) eqn:E2; intros [= <- _].
  - lra.
  - apply Qltb_ge in E2. lra.
Qed.

(** The control parameters [mutate] stores are those [record] accepts:
    [CR_i] within [[0, 1]] and [F_i] within [[F_MIN, F_MAX]]. *)
Lemma control_parameters_valid (self self' : SHADE.t) (rng rng' : Rng)
    (cr_i f_i : Q) :
  (SHADE.F_MIN self <= SHADE.F_MAX self)%Q ->
  SHADE.get_control_parameters (self, rng) = (Ok (cr_i, f_i), (self', rng')) ->
  (0 <= cr_i <= 1)%Q /\ (SHADE.F_MIN self <= f_i <= SHADE.F_MAX self)%Q.
Proof.
  intros Hle. unfold SHADE.get_control_parameters.
  unfold bind, on_fst, on_snd, get, lift, ret, raise; cbn.
  destruct (randrange _ rng) as [[r1|e] rng1]; [|discriminate]. cbn.
  destruct (getitem (HistoricalMemory.m_f _) r1) as [MF_i|e]; [|discriminate].
  destruct (getitem (HistoricalMemory.m_cr _) r1) as [[mcr|]|e];
    try discriminate.
  unfold randn, bind, ret. cbn.
  destruct (next_real rng1) as [[z|e] rng2]; [|discriminate]. cbn.
  destruct (SHADE.draw_F MF_i _ _ (reals rng2)) as [[f|e] tape] eqn:E;
    [|discriminate].
  intros [= <- <- _ _]. split.
  - apply clip_range. lra.
  - eapply draw_F_range; eassumption.
Qed.

(** C10: when the parent is strictly better than the trial (the test
    [parent <= trial] fails), [select] returns the parent and leaves the
    whole engine as it was: archive, sample buffers, memory arrays,
    cursor, the CR and F maps, and the random tape. *)
Theorem C10_select_frame (parent trial : MemberState) (self : SHADE.t)
    (rng : Rng) :
  __le__ parent trial = false ->
  SHADE.select parent trial (self, rng) = (Ok parent, (self, rng)).
Proof.
  intros Hle. apply select_losing. exact Hle.
Qed.

(** A full archive that holds nothing has capacity 0: [randrange(0)]
    raises before anything is deleted or appended. *)
Lemma append_capacity_zero (x : MemberState) (a : ExternalArchive.t)
    (rng : Rng) :
  full a = true -> ExternalArchive.len a = 0 ->
  ExternalArchive.append x (a, rng)
  = (Raise (ValueError msg_empty_range), (a, rng)).
Proof.
  unfold full. intros Hfull Hlen.
  unfold ExternalArchive.append, bind, on_fst, on_snd, get; cbn [fst snd].
  rewrite Hfull. rewrite Hlen in Hfull.
  assert (Hrr : randrange_value (ExternalArchive.size a) rng
                = (Raise (ValueError msg_empty_range), rng)).
  { destruct (ExternalArchive.size a) as [n|q|s]; cbn [Py.eq] in Hfull;
      cbn [randrange_value]; try discriminate.
    - apply Z.eqb_eq in Hfull. subst n. reflexivity.
    - apply Qeq_bool_iff in Hfull.
      assert (Hfl : Qfloor q = 0) by (rewrite <- Hfull; apply Qfloor_Z).
      rewrite Hfl.
      assert (Qeq_bool q (inject_Z 0) = true) as ->
          by (apply Qeq_bool_iff; symmetry; exact Hfull).
      reflexivity. }
  cbn [fst snd]. rewrite Hrr. reflexivity.
Qed.

(** When [append] raises, [select] raises with it and the engine is as it
    was. *)
Lemma select_append_raises (parent trial : MemberState) (self : SHADE.t)
    (rng : Rng) (e : exn) :
  __le__ parent trial = true ->
  ExternalArchive.append (copy parent) (SHADE.archive self, rng)
  = (Raise e, (SHADE.archive self, rng)) ->
  SHADE.select parent trial (self, rng) = (Raise e, (self, rng)).
Proof.
  intros Hle Happ. unfold SHADE.select. rewrite Hle.
  unfold bind at 1, SHADE.with_archive at 1. cbn [fst snd].
  rewrite Happ. destruct self; reflexivity.
Qed.

(** C2, amended: with control parameters [CR_i] in [0, 1] and [F_i >= 0]
    recorded for the parent, if [parent <= trial] then [select] does one
    of three things, by the state of the archive. Not full: it appends a
    copy of the parent, nothing evicted. Full and not empty: it evicts
    the element at the index [randrange] draws, which is within the
    archive, appends the copy, and the length is kept. Full and empty
    (capacity 0): it raises [ValueError] and changes nothing. In the
    first two cases it appends [CR_i], [F_i] and the weight to the sample
    buffers, leaves the rest of the engine as it was, and returns the
    trial; the weight is [|trial.score - parent.score|] unless that is
    zero or NaN, then [1e-9]. If [parent <= trial] fails it returns the
    parent. *)
Theorem C2_select_records (parent trial : MemberState) (self : SHADE.t)
    (rng : Rng) (cr_i f_i : Q) :
  SHADE.CR self !! id parent = Some cr_i ->
  SHADE.F self !! id parent = Some f_i ->
  (0 <= cr_i <= 1)%Q -> (0 <= f_i)%Q ->
  let a := SHADE.archive self in
  let delta := fabs (fsub (score trial) (score parent)) in
  let w := recorded_weight delta in
  let after (kept : list MemberState) :=
    SHADE.set_memory
      (SHADE.set_archive self
         {| ExternalArchive.items := kept ++ [copy parent];
            ExternalArchive.size := ExternalArchive.size a |})
      (recorded (SHADE.memory self) cr_i f_i w) in
  (__le__ parent trial = true ->
   (full a = false ->
    SHADE.select parent trial (self, rng)
    = (Ok trial, (after (ExternalArchive.items a), rng))) /\
   (forall (r : nat) (t : list nat),
      full a = true -> 0 < ExternalArchive.len a -> ints rng = r :: t ->
      let i := Z.of_nat r mod ExternalArchive.len a in
      SHADE.select parent trial (self, rng)
      = (Ok trial, (after (delete_at (ExternalArchive.items a) i),
                    {| ints := t; reals := reals rng |})) /\
      0 <= i < ExternalArchive.len a /\
      length (delete_at (ExternalArchive.items a) i ++ [copy parent])
      = length (ExternalArchive.items a)) /\
   (full a = true -> ExternalArchive.len a = 0 ->
    SHADE.select parent trial (self, rng)
    = (Raise (ValueError msg_empty_range), (self, rng)))) /\
  (__le__ parent trial = false ->
   fst (SHADE.select parent trial (self, rng)) = Ok parent) /\
  (forall d, delta = Real d -> ~ (d == 0)%Q -> w = d) /\
  (delta = NaN \/ (exists d, delta = Real d /\ (d == 0)%Q) ->
   w = 1 # 1000000000).
Proof.
  intros Hcr Hf Hcr01 Hf0 a delta w after.
  split; [|split; [|split]].
  - intros Hle. split; [|split].
    + intros Hnf.
      apply (select_winning parent trial self rng rng _ cr_i f_i);
        try assumption.
      apply append_not_full. exact Hnf.
    + intros r t Hfull Hpos Hrng i.
      assert (Hi : 0 <= i < ExternalArchive.len a)
        by (apply Z.mod_pos_bound; exact Hpos).
      split; [|split; [exact Hi|]].
      * apply (select_winning parent trial self rng _ _ cr_i f_i);
          try assumption.
        destruct rng as [ns rs]. cbn in Hrng. subst ns.
        apply append_full; assumption.
      * rewrite length_app, length_delete_at by exact Hi. cbn.
        unfold ExternalArchive.len in Hpos. lia.
    + intros Hfull Hlen. apply select_append_raises; [exact Hle|].
      apply append_capacity_zero; assumption.
  - intros Hle. rewrite select_losing by assumption. reflexivity.
  - intros d Hd Hnz. unfold w. rewrite Hd. cbn.
    destruct (Qeq_bool d 0) eqn:E; [|reflexivity].
    apply Qeq_bool_iff in E. contradiction.
  - intros [Hn | (d & Hd & Hz)]; unfold w.
    + rewrite Hn. reflexivity.
    + rewrite Hd. cbn. apply Qeq_bool_iff in Hz. rewrite Hz. reflexivity.
Qed.

End SHADESelect.

(** ** Which exceptions a computation can raise *)

Section Raises.
Import Evolution.

Lemma ob_ret {S A : Type} (a : A) : only_benign (@ret S A a).
Proof. intros s e H. discriminate. Qed.

Lemma ob_get {S : Type} : only_benign (@get S).
Proof. intros s e H. discriminate. Qed.

Lemma ob_put {S : Type} (s0 : S) : only_benign (put s0).
Proof. intros s e H. discriminate. Qed.

Lemma ob_raise {S A : Type} (e0 : exn) :
  benign e0 = true -> only_benign (@raise S A e0).
Proof. intros H0 s e H. cbn in H. congruence. Qed.

Lemma ob_lift {S A : Type} (r : result A) :
  result_benign r -> only_benign (@lift S A r).
Proof. intros Hr s e H. apply Hr. exact H. Qed.

Lemma ob_bind {S A B : Type} (m : M S A) (f : A -> M S B) :
  only_benign m -> (forall a, only_benign (f a)) -> only_benign (bind m f).
Proof.
  intros Hm Hf s e. unfold bind.
  destruct (m s) as [[a|e'] s'] eqn:E.
  - apply Hf.
  - cbn. intros [= <-]. apply (Hm s). rewrite E. reflexivity.
Qed.

Lemma ob_on_fst {S T A : Type} (m : M S A) :
  only_benign m -> only_benign (@on_fst S T A m).
Proof.
  intros Hm [s t] e. unfold on_fst. cbn.
  destruct (m s) as [r s'] eqn:E. cbn. intros H.
  apply (Hm s). rewrite E. exact H.
Qed.

Lemma ob_on_snd {S T A : Type} (m : M T A) :
  only_benign m -> only_benign (@on_snd S T A m).
Proof.
  intros Hm [s t] e. unfold on_snd. cbn.
  destruct (m t) as [r t'] eqn:E. cbn. intros H.
  apply (Hm t). rewrite E. exact H.
Qed.

Lemma ob_mapM {S A B : Type} (f : A -> M S B) (l : list A) :
  (forall a, only_benign (f a)) -> only_benign (mapM f l).
Proof.
  intros Hf. induction l as [|a l IH]; cbn.
  - apply ob_ret.
  - apply ob_bind; [apply Hf|]. intros b.
    apply ob_bind; [exact IH|]. intros bs. apply ob_ret.
Qed.

Lemma rb_getitem {A : Type} (l : list A) (i : Z) :
  result_benign (Py.getitem l i).
Proof.
  intros e. unfold Py.getitem.
  destruct (_ || _); [intros [= <-]; reflexivity|].
  destruct (nth_error _ _); [discriminate|intros [= <-]; reflexivity].
Qed.

Lemma rb_member_getitem (m : MemberState) (j : nat) :
  result_benign (__getitem__ m j).
Proof.
  intros e. unfold __getitem__.
  destruct (_ !! _); [discriminate|intros [= <-]; reflexivity].
Qed.

Lemma rb_member_setitem (m : MemberState) (j : nat) (u : Q) :
  result_benign (__setitem__ m j u).
Proof.
  intros e. unfold __setitem__.
  destruct (_ <? _)%nat; [discriminate|intros [= <-]; reflexivity].
Qed.

Lemma rb_lookup (d : gmap Z Q) (key : Z) : result_benign (SHADE.lookup d key).
Proof.
  intros e. unfold SHADE.lookup.
  destruct (_ !! _); [discriminate|intros [= <-]; reflexivity].
Qed.

Lemma ob_randrange (n : Z) : only_benign (randrange n).
Proof.
  intros s e. unfold randrange.
  destruct (n <=? 0); [intros [= <-]; reflexivity|].
  destruct (ints s); [intros [= <-]; reflexivity|discriminate].
Qed.

Lemma ob_next_real : only_benign next_real.
Proof.
  intros s e. unfold next_real.
  destruct (reals s); [intros [= <-]; reflexivity|discriminate].
Qed.

Lemma ob_choice {A : Type} (l : list A) : only_benign (choice l).
Proof.
  destruct l as [|a l]; cbn.
  - apply ob_raise. reflexivity.
  - apply ob_bind; [apply ob_randrange|]. intros i.
    apply ob_lift, rb_getitem.
Qed.

Lemma ob_sample (k : nat) (l : list MemberState) : only_benign (sample l k).
Proof.
  revert l. induction k as [|k IH]; intros l; cbn.
  - apply ob_ret.
  - destruct l as [|x l]; [apply ob_raise; reflexivity|].
    apply ob_bind; [apply ob_randrange|]. intros i.
    apply ob_bind; [apply ob_lift, rb_getitem|]. intros y.
    apply ob_bind; [apply IH|]. intros ys. apply ob_ret.
Qed.

Create HintDb benign.
Lemma ob_random_from_list (l : list MemberState) (k : nat)
    (exclude : list MemberState) :
  only_benign (random_from_list l k exclude).
Proof.
  unfold random_from_list. destruct (_ <? _)%nat.
  - apply ob_raise. reflexivity.
  - apply ob_sample.
Qed.

Hint Resolve ob_ret ob_get ob_put ob_on_fst ob_on_snd ob_randrange
  ob_next_real ob_choice ob_sample ob_random_from_list rb_getitem
  rb_member_getitem rb_member_setitem rb_lookup ob_lift : benign.

(** Peel one [bind], solving the first computation by the hints. *)
Ltac ob_step :=
  apply ob_bind; [solve [auto 6 with benign] | intros ?].

Lemma ob_uniform01 : only_benign uniform01.
Proof. unfold uniform01. ob_step. apply ob_ret. Qed.

Lemma ob_randn (mu sigma : Q) : only_benign (randn mu sigma).
Proof. unfold randn. ob_step. apply ob_ret. Qed.

Hint Resolve ob_uniform01 ob_randn : benign.

Lemma ob_de_crossover (self : DifferentialEvolution.t)
    (member x_r0 x_r1 x_r2 : MemberState) (j_rand : Z) (js : list nat)
    (trial : MemberState) :
  only_benign
    (DifferentialEvolution.crossover self member x_r0 x_r1 x_r2 j_rand js
       trial).
Proof.
  revert trial. induction js as [|j js IH]; intros trial; cbn.
  - apply ob_ret.
  - ob_step. apply ob_bind; [|intros ?; apply IH].
    destruct (_ || _); repeat ob_step; auto with benign.
Qed.

Lemma ob_de_mutate_member (self : DifferentialEvolution.t)
    (generation : Generation) (member : MemberState) :
  only_benign (DifferentialEvolution.mutate_member self generation member).
Proof.
  unfold DifferentialEvolution.mutate_member.
  ob_step.
  destruct a as [|x0 [|x1 [|x2 [|x3 rest]]]];
    try (apply ob_raise; reflexivity).
  ob_step. apply ob_bind; [apply ob_de_crossover|]. intros ?. apply ob_ret.
Qed.

Lemma ob_shade_crossover (CR_i F_i : Q)
    (member x_pbest x_r1 x_r2 : MemberState) (j_rand : Z) (js : list nat)
    (trial : MemberState) :
  only_benign
    (SHADE.crossover CR_i F_i member x_pbest x_r1 x_r2 j_rand js trial).
Proof.
  revert trial. induction js as [|j js IH]; intros trial; cbn.
  - apply ob_ret.
  - ob_step. apply ob_bind; [|intros ?; apply IH].
    destruct (_ || _); repeat ob_step; auto with benign.
Qed.

Lemma ob_random_one (l exclude : list MemberState) :
  only_benign (SHADE.random_one l exclude).
Proof.
  unfold SHADE.random_one. ob_step.
  destruct a as [|x [|y rest]]; try (apply ob_raise; reflexivity).
  apply ob_ret.
Qed.

Lemma ob_draw_F (MF_i lo hi : Q) (tape : list Q) (e : exn) :
  fst (SHADE.draw_F MF_i lo hi tape) = Raise e -> benign e = true.
Proof.
  induction tape as [|z tape IH]; cbn.
  - intros [= <-]. reflexivity.
  - destruct (Qltb _ lo); [exact IH|discriminate].
Qed.

Lemma ob_get_control_parameters : only_benign SHADE.get_control_parameters.
Proof.
  unfold SHADE.get_control_parameters.
  repeat ob_step.
  apply ob_bind.
  { destruct a2; [apply ob_ret|apply ob_raise; reflexivity]. }
  intros _. apply ob_bind.
  { destruct a2; [|apply ob_ret]. ob_step. apply ob_ret. }
  intros CR_i. apply ob_bind; [|intros ?; apply ob_ret].
  apply ob_on_snd. intros rng e.
  destruct (SHADE.draw_F _ _ _ _) as [r tape] eqn:E. cbn.
  intros ->. apply (ob_draw_F a1 (SHADE.F_MIN a) (SHADE.F_MAX a) (reals rng)).
  rewrite E. reflexivity.
Qed.

Lemma ob_shade_mutate_body (member : MemberState) (generation : Generation) :
  4 <= Z.of_nat (length generation) ->
  only_benign (SHADE.mutate member generation).
Proof.
  intros Hlen. unfold SHADE.mutate.
  assert ((Z.of_nat (length generation) <? 4) = false) as -> by lia.
  apply ob_bind; [apply ob_get_control_parameters|]. intros cf.
  repeat ob_step.
  apply ob_bind.
  { unfold SHADE.__sample_r1_and_r2. ob_step.
    apply ob_bind; [apply ob_on_snd, ob_random_one|]. intros ?.
    apply ob_bind; [apply ob_on_snd, ob_random_one|]. intros ?.
    apply ob_ret. }
  intros rs. ob_step.
  apply ob_bind.
  { apply ob_on_snd. unfold SHADE.pbest_member. apply ob_choice. }
  intros x_pbest. repeat ob_step.
  apply ob_on_snd, ob_shade_crossover.
Qed.

End Raises.

(** ** Degenerate populations *)

Section Degenerate.
Import Evolution.

(** C5, amended: on a generation of fewer than 3 members
    [DifferentialEvolution.mutate] raises [ValueError("generation size
    must be at least 3 or higher.")] and touches nothing, not even the
    random tape; on one of fewer than 4 members [SHADE.mutate] raises
    [ValueError("generation size must be at least 4 or higher.")] and
    leaves the engine as it was; on larger generations neither raises
    its size error. *)
Theorem C5_degenerate_population :
  (forall (self : DifferentialEvolution.t) (g : Generation) (rng : Rng),
      (length g < 3)%nat ->
      DifferentialEvolution.mutate self g rng
      = (Raise (ValueError "generation size must be at least 3 or higher."),
         rng)) /\
  (forall (member : MemberState) (g : Generation) (st : SHADE.t * Rng),
      (length g < 4)%nat ->
      SHADE.mutate member g st
      = (Raise (ValueError "generation size must be at least 4 or higher."),
         st)) /\
  (forall (self : DifferentialEvolution.t) (g : Generation) (rng : Rng),
      (3 <= length g)%nat ->
      fst (DifferentialEvolution.mutate self g rng)
      <> Raise (ValueError DifferentialEvolution.msg_size)) /\
  (forall (member : MemberState) (g : Generation) (st : SHADE.t * Rng),
      (4 <= length g)%nat ->
      fst (SHADE.mutate member g st) <> Raise (ValueError SHADE.msg_size)).
Proof.
  repeat split.
  - intros self g rng Hlen. unfold DifferentialEvolution.mutate.
    assert ((Z.of_nat (length g) <? 3) = true) as -> by lia. reflexivity.
  - intros member g st Hlen. unfold SHADE.mutate.
    assert ((Z.of_nat (length g) <? 4) = true) as -> by lia. reflexivity.
  - intros self g rng Hlen Hraise.
    assert (Hb : only_benign (DifferentialEvolution.mutate self g)).
    { unfold DifferentialEvolution.mutate.
      assert ((Z.of_nat (length g) <? 3) = false) as -> by lia.
      apply ob_mapM. intros m. apply ob_de_mutate_member. }
    specialize (Hb rng _ Hraise). discriminate.
  - intros member g st Hlen Hraise.
    assert (Hb : only_benign (SHADE.mutate member g))
      by (apply ob_shade_mutate_body; lia).
    specialize (Hb st _ Hraise). discriminate.
Qed.

(** The message [mutate] raises on a population of size 2 is not the one
    the specification quotes. *)
Lemma C5_counterexample :
  exists msg : string,
    fst (DifferentialEvolution.mutate
           {| DifferentialEvolution.F := 1 # 5;
              DifferentialEvolution.Cr := 4 # 5 |}
           [example_member 0 (1 # 10); example_member 1 (2 # 10)]
           {| ints := [0%nat; 1%nat]; reals := [1 # 2] |})
    = Raise (ValueError msg)
    /\ msg <> "generation size must be at least 3".
Proof.
  eexists. split; [reflexivity|]. discriminate.
Qed.

End Degenerate.

(** ** ExploitAndExplore *)

Section ExploitExplore.
Import Evolution.

Lemma getitem_in_range {A : Type} (l : list A) (i : Z) :
  0 <= i < Z.of_nat (length l) ->
  exists x, Py.getitem l i = Ok x /\ nth_error l (Z.to_nat i) = Some x.
Proof.
  intros Hi. unfold Py.getitem.
  assert ((i <? 0) = false) as -> by lia.
  assert (((i <? 0) || (Z.of_nat (length l) <=? i)) = false) as ->
      by (apply orb_false_iff; split; lia).
  destruct (nth_error l (Z.to_nat i)) as [x|] eqn:E; [eauto|].
  apply nth_error_None in E. lia.
Qed.

Lemma choice_draw {A : Type} (l : list A) (r : nat) (t : list nat)
    (rs : list Q) :
  l <> [] ->
  exists x, In x l /\
    choice l {| ints := r :: t; reals := rs |}
    = (Ok x, {| ints := t; reals := rs |}).
Proof.
  intros Hl. destruct l as [|a l]; [contradiction|].
  set (l0 := a :: l) in *.
  assert (Hpos : 0 < Z.of_nat (length l0)) by (cbn; lia).
  destruct (getitem_in_range l0 (Z.of_nat r mod Z.of_nat (length l0)))
    as (x & Hget & Hnth).
  { apply Z.mod_pos_bound. exact Hpos. }
  exists x. split; [eapply nth_error_In; exact Hnth|].
  unfold choice, l0 at 1. fold l0. unfold bind.
  rewrite randrange_draw by exact Hpos. unfold lift. rewrite Hget.
  reflexivity.
Qed.

Lemma choice_run {A : Type} (d : A) (l : list A) (r : nat) (t : list nat)
    (rs : list Q) :
  l <> [] ->
  choice l {| ints := r :: t; reals := rs |}
  = (Ok (picked d l r), {| ints := t; reals := rs |}).
Proof.
  intros Hl. destruct l as [|a l]; [contradiction|].
  set (l0 := a :: l) in *.
  assert (Hpos : 0 < Z.of_nat (length l0)) by (cbn; lia).
  destruct (getitem_in_range l0 (Z.of_nat r mod Z.of_nat (length l0)))
    as (x & Hget & Hnth).
  { apply Z.mod_pos_bound. exact Hpos. }
  unfold choice, l0 at 1. fold l0. unfold bind.
  rewrite randrange_draw by exact Hpos. unfold lift. rewrite Hget.
  unfold picked. rewrite (nth_error_nth _ _ d Hnth). reflexivity.
Qed.

Lemma picked_in {A : Type} (d : A) (l : list A) (r : nat) :
  l <> [] -> In (picked d l r) l.
Proof.
  intros Hl. unfold picked. apply nth_In.
  assert (Hpos : 0 < Z.of_nat (length l)).
  { destruct l; [contradiction|cbn; lia]. }
  pose proof (Z.mod_pos_bound (Z.of_nat r) _ Hpos). lia.
Qed.

Lemma set_parameters_id (m : MemberState) :
  set_parameters m (parameters m) = m.
Proof. destruct m; reflexivity. Qed.

(** The exploring loop visits the coordinates still to do in order: each
    costs one draw, which picks the factor, and is replaced by the
    rounded product, saturated to [0, 1]. *)
Lemma perturb_run (fl : Q -> Q) (self : ExploitAndExplore.t)
    (todo : list Q) :
  ExploitAndExplore.explore_factors self <> [] ->
  forall (done : list Q) (m : MemberState) (tape : list nat) (rs : list Q),
    parameters m = done ++ todo ->
    (length todo <= length tape)%nat ->
    ExploitAndExplore.perturb fl self (seq (length done) (length todo)) m
      {| ints := tape; reals := rs |}
    = (Ok (set_parameters m
             (done ++
              zip_with (fun u r =>
                          clip (fl (u * picked 0%Q
                                     (ExploitAndExplore.explore_factors self)
                                     r)%Q) 0 1)
                       todo (firstn (length todo) tape))),
       {| ints := skipn (length todo) tape; reals := rs |}).
Proof.
  intros Hfac.
  induction todo as [|u todo IH]; intros done m tape rs Hps Hlen.
  - cbn. rewrite <- Hps, set_parameters_id. reflexivity.
  - destruct tape as [|r t]; [cbn in Hlen; lia|].
    set (f := picked 0%Q (ExploitAndExplore.explore_factors self) r).
    set (v := clip (fl (u * f)%Q) 0 1).
    set (m' := set_parameters m ((done ++ [v]) ++ todo)).
    pose proof (IH (done ++ [v]) m' t rs eq_refl ltac:(cbn in Hlen; lia))
      as Hrun.
    cbn [length seq ExploitAndExplore.perturb].
    unfold bind at 1.
    rewrite (choice_run 0%Q _ r t rs Hfac). fold f.
    unfold bind at 1, lift at 1, __getitem__.
    rewrite Hps, lookup_app_r by lia.
    replace (length done - length done)%nat with 0%nat by lia.
    cbn [lookup list_lookup].
    unfold bind at 1, lift at 1, __setitem__.
    assert ((length done <? length (parameters m))%nat = true) as ->.
    { apply Nat.ltb_lt. rewrite Hps, length_app. cbn. lia. }
    rewrite Hps. fold v.
    replace (<[length done := v]> (done ++ u :: todo))
      with ((done ++ [v]) ++ todo).
    2:{ rewrite insert_app_r_alt by lia.
        replace (length done - length done)%nat with 0%nat by lia.
        rewrite <- app_assoc. reflexivity. }
    fold (set_parameters m ((done ++ [v]) ++ todo)). fold m'.
    rewrite length_app in Hrun. cbn [length] in Hrun.
    replace (length done + 1)%nat with (S (length done)) in Hrun by lia.
    rewrite Hrun. unfold m', set_parameters. cbn.
    rewrite <- app_assoc. reflexivity.
Qed.

(** Without factors to choose from, the first coordinate raises. *)
Lemma perturb_no_factors (fl : Q -> Q) (self : ExploitAndExplore.t)
    (j : nat) (js : list nat) (m : MemberState) (rng : Rng) :
  ExploitAndExplore.explore_factors self = [] ->
  ExploitAndExplore.perturb fl self (j :: js) m rng = (Raise IndexError, rng).
Proof.
  intros Hfac. cbn [ExploitAndExplore.perturb]. unfold bind at 1.
  rewrite Hfac. reflexivity.
Qed.

End ExploitExplore.

(** ** sorted *)

Section Sorting.
Import Evolution.

Lemma insert_perm (x : MemberState) (l : list MemberState) :
  Permutation (insert x l) (x :: l).
Proof.
  induction l as [|y l IH]; cbn; [reflexivity|].
  destruct (__lt__ y x); [|reflexivity].
  rewrite IH. apply perm_swap.
Qed.

Lemma sorted_perm (l : list MemberState) : Permutation (sorted l) l.
Proof.
  induction l as [|x l IH]; cbn; [reflexivity|].
  rewrite insert_perm, IH. reflexivity.
Qed.

Lemma sorted_reverse_perm (l : list MemberState) :
  Permutation (sorted_reverse l) l.
Proof.
  unfold sorted_reverse.
  rewrite <- Permutation_rev, sorted_perm, <- Permutation_rev. reflexivity.
Qed.

Lemma insert_sorted (b : bool) (x : MemberState) (l : list MemberState) :
  minimize x = b -> Forall (fun m => minimize m = b) l ->
  StronglySorted le_prop l -> StronglySorted le_prop (insert x l).
Proof.
  intros Hx Hl Hs. induction Hs as [|y l Hs IH Hy]; cbn.
  - repeat constructor.
  - apply Forall_cons_iff in Hl as [Hyb Hl].
    assert (Hxy : minimize y = minimize x) by congruence.
    destruct (__lt__ y x) eqn:Hlt.
    + rewrite member_lt_not_le in Hlt by exact Hxy.
      apply negb_true_iff in Hlt.
      apply member_le_total in Hlt; [|congruence].
      constructor; [apply IH; exact Hl|].
      eapply Permutation_Forall; [symmetry; apply insert_perm|].
      constructor; assumption.
    + rewrite member_lt_not_le in Hlt by exact Hxy.
      apply negb_false_iff in Hlt.
      constructor; [constructor; assumption|].
      constructor; [exact Hlt|].
      eapply List.Forall_impl; [|exact Hy]. cbn. intros z Hz.
      apply (member_le_trans x y z); [congruence|exact Hlt|exact Hz].
Qed.

Lemma sorted_sorted (l : list MemberState) :
  same_objective l -> StronglySorted le_prop (sorted l).
Proof.
  intros [b Hb]. induction l as [|x l IH]; cbn; [constructor|].
  apply Forall_cons_iff in Hb as [Hx Hl].
  apply (insert_sorted b); [exact Hx| |apply IH; exact Hl].
  eapply Permutation_Forall; [symmetry; apply sorted_perm|].
  exact Hl.
Qed.

Lemma in_skipn {A : Type} (d : nat) (l : list A) (c : A) :
  In c (skipn d l) -> In c l.
Proof.
  intros H. rewrite <- (firstn_skipn d l). apply in_or_app. right. exact H.
Qed.

Lemma in_firstn {A : Type} (d : nat) (l : list A) (c : A) :
  In c (firstn d l) -> In c l.
Proof.
  intros H. rewrite <- (firstn_skipn d l). apply in_or_app. left. exact H.
Qed.

(** In a sorted list every member of a prefix is below every member of
    the rest. *)
Lemma sorted_split (l : list MemberState) (d : nat) :
  StronglySorted le_prop l ->
  forall a c, In a (firstn d l) -> In c (skipn d l) -> le_prop a c.
Proof.
  intros Hs. revert d. induction Hs as [|y l Hs IH Hy]; intros d a c.
  - rewrite firstn_nil. intros [].
  - destruct d as [|d]; cbn; [intros []|].
    intros [<- | Ha] Hc.
    + rewrite List.Forall_forall in Hy. apply Hy.
      eapply in_skipn; exact Hc.
    + eapply IH; eassumption.
Qed.

End Sorting.

Section SortingReverse.
Import Evolution.

Lemma sorted_app (R : MemberState -> MemberState -> Prop)
    (l1 l2 : list MemberState) :
  StronglySorted R l1 -> StronglySorted R l2 ->
  (forall a c, In a l1 -> In c l2 -> R a c) ->
  StronglySorted R (l1 ++ l2).
Proof.
  intros H1 H2 H12. induction H1 as [|y l Hs IH Hy]; cbn; [exact H2|].
  constructor.
  - apply IH. intros a c Ha Hc. apply H12; [right; exact Ha|exact Hc].
  - apply List.Forall_forall. intros z Hz.
    apply in_app_or in Hz as [Hz|Hz].
    + rewrite List.Forall_forall in Hy. apply Hy, Hz.
    + apply H12; [left; reflexivity|exact Hz].
Qed.

Lemma sorted_rev (R : MemberState -> MemberState -> Prop)
    (l : list MemberState) :
  StronglySorted R l -> StronglySorted (fun a c => R c a) (rev l).
Proof.
  intros Hs. induction Hs as [|y l Hs IH Hy]; cbn; [constructor|].
  apply sorted_app; [exact IH|repeat constructor|].
  intros a c Ha [<-|[]]. rewrite List.Forall_forall in Hy.
  apply Hy. apply in_rev. exact Ha.
Qed.

(** [sorted(..., reverse=True)] is descending. *)
Lemma sorted_reverse_sorted (l : list MemberState) :
  same_objective l ->
  StronglySorted (fun a c => le_prop c a) (sorted_reverse l).
Proof.
  intros [b Hb]. unfold sorted_reverse.
  apply (sorted_rev le_prop), sorted_sorted.
  exists b. eapply Permutation_Forall; [apply Permutation_rev|exact Hb].
Qed.

Lemma sorted_reverse_split (l : list MemberState) (d : nat) :
  same_objective l ->
  forall a c,
    In a (firstn d (sorted_reverse l)) ->
    In c (skipn d (sorted_reverse l)) -> le_prop c a.
Proof.
  intros Hobj. pose proof (sorted_reverse_sorted l Hobj) as Hs.
  revert d. induction Hs as [|y s Hs IH Hy]; intros d a c.
  - rewrite firstn_nil. intros [].
  - destruct d as [|d]; cbn; [intros []|].
    intros [<- | Ha] Hc.
    + rewrite List.Forall_forall in Hy. apply Hy.
      eapply in_skipn; exact Hc.
    + eapply IH; eassumption.
Qed.

End SortingReverse.

Section Exploitation.
Import Evolution.
Import ExploitAndExplore.

Variable fl : Q -> Q.

Lemma n_elitists_pos (self : t) (g : Generation) : 1 <= n_elitists fl self g.
Proof. unfold n_elitists. lia. Qed.

Lemma elitists_firstn (self : t) (g : Generation) :
  elitists fl self g
  = firstn (Z.to_nat (n_elitists fl self g)) (sorted_reverse g).
Proof.
  unfold elitists, slice_to.
  pose proof (n_elitists_pos self g).
  assert ((n_elitists fl self g <? 0) = false) as -> by lia. reflexivity.
Qed.

Lemma elitists_in (self : t) (g : Generation) (e : MemberState) :
  In e (elitists fl self g) -> In e g.
Proof.
  rewrite elitists_firstn. intros H. apply in_firstn in H.
  eapply Permutation_in; [apply sorted_reverse_perm|exact H].
Qed.

Lemma elitists_nonempty (self : t) (g : Generation) :
  g <> [] -> elitists fl self g <> [].
Proof.
  intros Hg. rewrite elitists_firstn.
  pose proof (n_elitists_pos self g).
  destruct (sorted_reverse g) as [|x s] eqn:E.
  - apply (f_equal (@length _)) in E.
    rewrite (Permutation_length (sorted_reverse_perm g)) in E.
    destruct g; [contradiction|discriminate].
  - destruct (Z.to_nat (n_elitists fl self g)) eqn:En; [lia|discriminate].
Qed.

(** An elitist advances as a copy of itself and costs no draw. *)
Lemma exploit_elitist (self : t) (member : MemberState) (g : Generation)
    (rng : Rng) :
  contains (elitists fl self g) member = true ->
  __exploit_and_explore fl self member g rng = (Ok (copy member), rng).
Proof.
  intros Hin. unfold __exploit_and_explore. rewrite Hin. reflexivity.
Qed.

(** Any other member copies the elitist the first draw picks and explores
    from there, one draw for each coordinate. *)
Lemma exploit_run (self : t) (member : MemberState) (g : Generation)
    (r : nat) (t : list nat) (rs : list Q) :
  contains (elitists fl self g) member = false ->
  g <> [] -> explore_factors self <> [] ->
  let elitist := picked member (elitists fl self g) r in
  (length (parameters elitist) <= length t)%nat ->
  __exploit_and_explore fl self member g {| ints := r :: t; reals := rs |}
  = (Ok (explored fl self member elitist
           (firstn (length (parameters elitist)) t)),
     {| ints := skipn (length (parameters elitist)) t; reals := rs |}).
Proof.
  intros Hout Hg Hfac elitist Hlen.
  unfold __exploit_and_explore. rewrite Hout. cbn [negb].
  unfold bind at 1.
  rewrite (choice_run member _ r t rs (elitists_nonempty self g Hg)).
  fold elitist. unfold __explore.
  set (exploiter :=
         copy_state (copy_parameters (copy member) elitist) elitist).
  change (copy exploiter) with exploiter.
  pose proof (perturb_run fl self (parameters elitist) Hfac [] exploiter
                t rs eq_refl Hlen) as Hrun.
  cbn [length app] in Hrun.
  replace (length (parameters exploiter))
    with (length (parameters elitist)) by reflexivity.
  rewrite Hrun. reflexivity.
Qed.

Lemma exploit_no_factors (self : t) (member : MemberState) (g : Generation)
    (r : nat) (t : list nat) (rs : list Q) :
  contains (elitists fl self g) member = false ->
  g <> [] -> explore_factors self = [] ->
  parameters (picked member (elitists fl self g) r) <> [] ->
  __exploit_and_explore fl self member g {| ints := r :: t; reals := rs |}
  = (Raise IndexError, {| ints := t; reals := rs |}).
Proof.
  intros Hout Hg Hfac Hdim.
  unfold __exploit_and_explore. rewrite Hout. cbn [negb].
  unfold bind at 1.
  rewrite (choice_run member _ r t rs (elitists_nonempty self g Hg)).
  unfold __explore.
  set (elitist := picked member (elitists fl self g) r) in *.
  set (exploiter :=
         copy_state (copy_parameters (copy member) elitist) elitist).
  change (copy exploiter) with exploiter.
  replace (length (parameters exploiter))
    with (length (parameters elitist)) by reflexivity.
  destruct (parameters elitist) as [|u us]; [contradiction|].
  cbn [length seq]. apply perturb_no_factors. exact Hfac.
Qed.

(** The whole generator, member after member. *)
Lemma mutate_run (self : t) (g : Generation) (D : nat) :
  g <> [] -> explore_factors self <> [] ->
  Forall (fun m => (length (parameters m) <= D)%nat) g ->
  forall (g' : list MemberState) (tape : list nat) (rs : list Q),
    (length g' * S D <= length tape)%nat ->
    mapM (fun member => __exploit_and_explore fl self member g) g'
      {| ints := tape; reals := rs |}
    = (Ok (fst (emitted fl self (elitists fl self g) g' tape)),
       {| ints := snd (emitted fl self (elitists fl self g) g' tape);
          reals := rs |}).
Proof.
  intros Hg Hfac Hdim. rewrite List.Forall_forall in Hdim.
  induction g' as [|member g' IH]; intros tape rs Hlen.
  - reflexivity.
  - cbn [mapM emitted]. unfold bind at 1.
    destruct (contains (elitists fl self g) member) eqn:Hin.
    + rewrite exploit_elitist by exact Hin.
      unfold bind at 1. rewrite IH by (cbn in Hlen; lia). reflexivity.
    + destruct tape as [|r t]; [cbn in Hlen; lia|].
      cbn [List.hd List.tl].
      set (elitist := picked member (elitists fl self g) r).
      assert (Hd : (length (parameters elitist) <= D)%nat).
      { apply Hdim. apply (elitists_in self).
        apply picked_in, elitists_nonempty, Hg. }
      cbn [length] in Hlen.
      rewrite exploit_run; try assumption; [|fold elitist; lia].
      fold elitist. unfold bind at 1.
      rewrite IH by (rewrite length_skipn; lia).
      reflexivity.
Qed.

(** C9, amended: with [n_elitists = max(1, round(|G| * exploit_factor))]
    as the floats compute it (the length made a float, the product
    rounded, [round] applied to that) and the elitists the first
    [n_elitists] members of the generation sorted descending (each no
    worse than every member after them): a member among the elitists is
    emitted as an unchanged copy of itself, without a draw. Any other
    member takes the elitist [random.choice] picks with the next draw and
    is emitted with its own identity, that elitist's opaque state, and
    that elitist's coordinates, each multiplied by the factor the
    following draw picks from [explore_factors], the product rounded and
    saturated to [0, 1]; with no factor to choose from, it raises
    [IndexError] instead. [mutate] emits the members in the order of the
    generation, each as just said, the draws taken from the tape in that
    order; and every coordinate it emits for an exploring member lies in
    [0, 1]. *)
Theorem C9_exploit_and_explore (self : t) (g : Generation) :
  let n := Z.max 1 (round (fl (fl (inject_Z (Z.of_nat (length g)))
                               * exploit_factor self)%Q)) in
  let top := firstn (Z.to_nat n) (sorted_reverse g) in
  elitists fl self g = top /\
  (same_objective g ->
   forall e x, In e top -> In x (skipn (Z.to_nat n) (sorted_reverse g)) ->
               __le__ x e = true) /\
  (forall (member : MemberState) (rng : Rng),
     contains top member = true ->
     __exploit_and_explore fl self member g rng = (Ok (copy member), rng)) /\
  (forall (member : MemberState) (r : nat) (t : list nat) (rs : list Q),
     contains top member = false -> g <> [] ->
     let elitist := picked member top r in
     let d := length (parameters elitist) in
     In elitist top /\
     (explore_factors self <> [] -> (d <= length t)%nat ->
      __exploit_and_explore fl self member g
        {| ints := r :: t; reals := rs |}
      = (Ok (explored fl self member elitist (firstn d t)),
         {| ints := skipn d t; reals := rs |})) /\
     (explore_factors self = [] -> d <> 0%nat ->
      __exploit_and_explore fl self member g
        {| ints := r :: t; reals := rs |}
      = (Raise IndexError, {| ints := t; reals := rs |}))) /\
  (forall (D : nat) (tape : list nat) (rs : list Q),
     g <> [] -> explore_factors self <> [] ->
     Forall (fun m => (length (parameters m) <= D)%nat) g ->
     (length g * S D <= length tape)%nat ->
     mutate fl self g {| ints := tape; reals := rs |}
     = (Ok (fst (emitted fl self top g tape)),
        {| ints := snd (emitted fl self top g tape); reals := rs |})) /\
  (forall (member elitist : MemberState) (draws : list nat),
     Forall (fun u => 0 <= u <= 1)%Q
            (parameters (explored fl self member elitist draws))).
Proof.
  intros n top.
  assert (Htop : elitists fl self g = top) by apply elitists_firstn.
  split; [exact Htop|]. split; [|split; [|split; [|split]]].
  - intros Hobj e x He Hx.
    apply (sorted_reverse_split g (Z.to_nat n) Hobj e x He Hx).
  - intros member rng Hin. apply exploit_elitist. rewrite Htop. exact Hin.
  - clearbody top. subst top.
    intros member r t rs Hout Hg elitist d.
    split; [|split].
    + apply picked_in. apply elitists_nonempty, Hg.
    + intros Hfac Hlen. apply exploit_run; assumption.
    + intros Hfac Hdim. apply exploit_no_factors; try assumption.
      intros E. apply Hdim. unfold d, elitist. rewrite E. reflexivity.
  - intros D tape rs Hg Hfac Hdim Hlen. rewrite <- Htop.
    apply (mutate_run self g D Hg Hfac Hdim g tape rs Hlen).
  - intros member elitist draws. unfold explored. cbn [parameters].
    generalize (parameters elitist). intros us. revert draws.
    induction us as [|u us IH]; intros [|r draws]; cbn; constructor.
    + apply clip_range. lra.
    + apply IH.
Qed.

End Exploitation.

Section ExploitationExamples.
Import Evolution.
Import Float.

Lemma C9_exploit_and_explore_witness :
  let m0 := example_member 0 (1 # 10) in
  let m1 := example_member 1 (2 # 10) in
  let m2 := example_member 2 (3 # 10) in
  let m3 := example_member 3 (4 # 10) in
  let m4 := example_member 4 (5 # 10) in
  ExploitAndExplore.elitists binary64 example_pbt example_scores = [m4; m3] /\
  ExploitAndExplore.mutate binary64 example_pbt example_scores
    example_long_rng
  = (Ok [explored binary64 example_pbt m0 m3 [1; 4]%nat;
         explored binary64 example_pbt m1 m3 [5; 9]%nat;
         explored binary64 example_pbt m2 m4 [6; 5]%nat;
         m3; m4],
     {| ints := [3; 5; 8; 9; 7; 9; 3; 2; 3; 8; 4]%nat;
        reals := reals example_long_rng |}) /\
  parameters (explored binary64 example_pbt m0 m3 [1; 4]%nat)
  = [1%Q; binary64 ((1 # 4) * (8 # 10))] /\
  parameters (explored binary64 example_pbt m2 m4 [6; 5]%nat)
  = [binary64 ((9 # 10) * (8 # 10)); binary64 ((1 # 4) * (12 # 10))].
Proof.
  cbv zeta.
  destruct (C9_exploit_and_explore binary64 example_pbt example_scores)
    as (Htop & _ & _ & _ & Hmut & _).
  split; [rewrite Htop; vm_compute; reflexivity|].
  split; [|split; vm_compute; reflexivity].
  change example_long_rng
    with {| ints := ints example_long_rng; reals := reals example_long_rng |}
    at 1.
  rewrite (Hmut 2%nat).
  - vm_compute. reflexivity.
  - discriminate.
  - discriminate.
  - repeat (once constructor); cbn; lia.
  - cbn. lia.
Defined.

(** A product above 1 is not what the member is emitted with: it is
    emitted with 1. And with no factor to choose from, no member is
    emitted at all. *)
Lemma C9_counterexample :
  let run :=
    ExploitAndExplore.mutate binary64 example_pbt example_scores
      example_long_rng in
  let no_factors :=
    {| ExploitAndExplore.exploit_factor := 4 # 10;
       ExploitAndExplore.explore_factors := [] |} in
  (exists (first : MemberState) (rest : list MemberState),
     fst run = Ok (first :: rest) /\
     ExploitAndExplore.elitists binary64 example_pbt example_scores
     = [example_member 4 (5 # 10); example_member 3 (4 # 10)] /\
     contains [example_member 4 (5 # 10); example_member 3 (4 # 10)]
       (example_member 0 (1 # 10)) = false /\
     In (12 # 10) (ExploitAndExplore.explore_factors example_pbt) /\
     parameters (example_member 3 (4 # 10)) !! 0%nat = Some (9 # 10) /\
     parameters first !! 0%nat = Some 1%Q /\
     (forall f, In f (ExploitAndExplore.explore_factors example_pbt) ->
                ~ ((9 # 10) * f == 1)%Q) /\
     (forall f, In f (ExploitAndExplore.explore_factors example_pbt) ->
                ~ (binary64 ((9 # 10) * f) == 1)%Q)) /\
  fst (ExploitAndExplore.mutate binary64 no_factors example_scores
         example_long_rng)
  = Raise IndexError.
Proof.
  cbv zeta. split; [|vm_compute; reflexivity].
  eexists _, _. split; [vm_compute; reflexivity|].
  split; [vm_compute; reflexivity|]. split; [reflexivity|].
  split; [right; left; reflexivity|]. split; [reflexivity|].
  split; [reflexivity|]. split.
  - intros f [<- | [<- | []]]; discriminate.
  - intros f [<- | [<- | []]]; vm_compute; discriminate.
Qed.

(** [n_elitists] rounds the float product, not the product of the
    reals: 75 members at the float 0.14 give 11 elitists, where the
    decimal fraction 14/100 would give 10; and 25 members at the float
    0.1 give 2, where the exact product of these floats rounds to 3. *)
Lemma n_elitists_rounds_the_float_product :
  let at_factor (e : Q) :=
    {| ExploitAndExplore.exploit_factor := e;
       ExploitAndExplore.explore_factors := [] |} in
  ExploitAndExplore.n_elitists binary64 (at_factor (binary64 (14 # 100)))
    example_crowd = 11 /\
  Z.max 1 (round (inject_Z 75 * (14 # 100))) = 10 /\
  ExploitAndExplore.n_elitists binary64 (at_factor (binary64 (1 # 10)))
    (firstn 25 example_crowd) = 2 /\
  Z.max 1 (round (inject_Z 25 * binary64 (1 # 10))) = 3.
Proof. cbv zeta. repeat split; vm_compute; reflexivity. Qed.

End ExploitationExamples.

(** ** mean_wl and the weighted Lehmer mean *)

Section LehmerMean.
Import Evolution.

Lemma fold_left_Qplus (l : list Q) (acc : Q) :
  (fold_left Qplus l acc == acc + Qsum l)%Q.
Proof.
  revert acc. induction l as [|x l IH]; intros acc; cbn.
  - unfold Qsum; cbn. ring.
  - rewrite IH. unfold Qsum; cbn. ring.
Qed.

Lemma Qsum_map_ext {A : Type} (f g : A -> Q) (l : list A) :
  (forall a, f a == g a)%Q -> (Qsum (map f l) == Qsum (map g l))%Q.
Proof.
  intros Hfg. unfold Qsum. induction l as [|a l IH]; cbn; [reflexivity|].
  rewrite IH, Hfg. reflexivity.
Qed.

Lemma Qsum_pos (l : list Q) :
  l <> [] -> Forall (fun w => 0 < w)%Q l -> (0 < Qsum l)%Q.
Proof.
  intros Hl Hpos. destruct Hpos as [|x l Hx Hr]; [contradiction|].
  unfold Qsum. cbn. clear Hl.
  assert (0 <= fold_right Qplus 0 l)%Q; [|lra].
  induction Hr as [|y l Hy Hr IH]; cbn; lra.
Qed.

Lemma getitem_middle {A : Type} (pre suf : list A) (x : A) :
  Py.getitem (pre ++ x :: suf) (Z.of_nat (length pre)) = Ok x.
Proof.
  destruct (getitem_in_range (pre ++ x :: suf) (Z.of_nat (length pre)))
    as (y & Hget & Hnth).
  { rewrite length_app. cbn. lia. }
  rewrite Hget. f_equal.
  rewrite Nat2Z.id, nth_error_app2, Nat.sub_diag in Hnth by lia.
  cbn in Hnth. congruence.
Qed.

(** The sum the code accumulates is the sum of the specification. *)
Lemma weighted_sum_spec (f : Q -> Q) (weights : list Q) (S : list Q) :
  ~ (fold_left Qplus weights 0 == 0)%Q ->
  forall (pre suf : list Q) (acc : Q),
    weights = pre ++ suf -> (length S <= length suf)%nat ->
    exists r : Q,
      weighted_sum f weights acc (Z.of_nat (length pre)) S = Ok r /\
      (r == acc + Qsum (map (fun ws => fst ws / Qsum weights * f (snd ws))
                            (combine suf S)))%Q.
Proof.
  intros HW. induction S as [|s S IH]; intros pre suf acc Hw Hlen.
  - exists acc. split; [reflexivity|].
    rewrite combine_nil. unfold Qsum; cbn. ring.
  - destruct suf as [|w suf]; [cbn in Hlen; lia|].
    cbn [weighted_sum]. unfold weight.
    assert (Hget : Py.getitem weights (Z.of_nat (length pre)) = Ok w)
      by (rewrite Hw; apply getitem_middle).
    rewrite Hget. cbn.
    rewrite div_nonzero by exact HW. cbn.
    destruct (IH (pre ++ [w]) suf
                (acc + w / fold_left Qplus weights 0 * f s)%Q)
      as (r & Hr & Hreq).
    { rewrite Hw, <- app_assoc. reflexivity. }
    { cbn in Hlen. lia. }
    rewrite length_app in Hr. cbn [length] in Hr.
    replace (Z.of_nat (length pre + 1)) with (Z.of_nat (length pre) + 1)
      in Hr by lia.
    exists r. split; [exact Hr|].
    rewrite Hreq.
    assert (HWeq : (fold_left Qplus weights 0 == Qsum weights)%Q)
      by (rewrite fold_left_Qplus; ring).
    rewrite HWeq. unfold Qsum. ring.
Qed.

Lemma weighted_terms_nonneg (W : Q) (f : Q -> Q) (ws : list (Q * Q)) :
  (0 < W)%Q ->
  Forall (fun p => 0 < fst p /\ 0 <= f (snd p))%Q ws ->
  (0 <= Qsum (map (fun p => fst p / W * f (snd p)) ws))%Q.
Proof.
  intros HW Hall. unfold Qsum.
  induction Hall as [|[w s] ws [Hw Hs] Hr IH]; cbn in *.
  - lra.
  - assert (0 <= w / W * f s)%Q; [|lra].
    apply Qmult_le_0_compat; [|exact Hs].
    apply Qle_shift_div_l; lra.
Qed.

Lemma weighted_terms_pos (W : Q) (ws : list (Q * Q)) :
  (0 < W)%Q ->
  Forall (fun p => 0 < fst p /\ 0 <= snd p)%Q ws ->
  Exists (fun p => 0 < snd p)%Q ws ->
  (0 < Qsum (map (fun p => fst p / W * snd p) ws))%Q.
Proof.
  intros HW Hall Hex.
  induction Hex as [[w s] ws Hs|[w s] ws Hex IH]; unfold Qsum in *;
    cbn in *.
  - apply Forall_cons_iff in Hall as [[Hw _] Hall]. cbn in *.
    pose proof (weighted_terms_nonneg W (fun x => x) ws HW Hall) as Hnn.
    unfold Qsum in Hnn.
    assert (0 < w / W * s)%Q; [|lra].
    apply Qmult_lt_0_compat; [|exact Hs].
    apply Qlt_shift_div_l; lra.
  - apply Forall_cons_iff in Hall as [[Hw Hs] Hall]. cbn in *.
    specialize (IH Hall).
    assert (0 <= w / W * s)%Q; [|lra].
    apply Qmult_le_0_compat; [|exact Hs].
    apply Qle_shift_div_l; lra.
Qed.

Lemma combine_facts (weights S : list Q) :
  length S = length weights ->
  Forall (fun w => 0 < w)%Q weights ->
  Forall (fun s => 0 <= s)%Q S ->
  Forall (fun p => 0 < fst p /\ 0 <= snd p)%Q (combine weights S).
Proof.
  intros Hlen Hw. revert S Hlen.
  induction Hw as [|w weights Hw0 Hw IH]; intros S Hlen HS; cbn.
  - constructor.
  - destruct HS as [|s S Hs HS]; [discriminate|].
    constructor; [cbn; auto|]. apply IH; [cbn in Hlen; lia|exact HS].
Qed.

Lemma combine_exists (weights S : list Q) :
  length S = length weights ->
  Exists (fun s => 0 < s)%Q S ->
  Exists (fun p => 0 < snd p)%Q (combine weights S).
Proof.
  intros Hlen Hex. revert weights Hlen.
  induction Hex as [s S Hs|s S Hex IH]; intros [|w weights] Hlen;
    try discriminate; cbn.
  - apply Exists_cons_hd. exact Hs.
  - apply Exists_cons_tl. apply IH. cbn in Hlen. lia.
Qed.

(** [mean_wl] returns, and what it returns is the weighted Lehmer mean. *)
Lemma mean_wl_lehmer (S weights : list Q) :
  length S = length weights ->
  Forall (fun w => 0 < w)%Q weights ->
  Forall (fun s => 0 <= s)%Q S ->
  Exists (fun s => 0 < s)%Q S ->
  exists r : Q, mean_wl S weights = Ok r /\ (r == lehmer_mean S weights)%Q.
Proof.
  intros Hlen Hw HS Hex.
  assert (Hne : weights <> []).
  { destruct Hex; destruct weights; discriminate. }
  pose proof (Qsum_pos weights Hne Hw) as HWpos.
  assert (HW : ~ (fold_left Qplus weights 0 == 0)%Q).
  { rewrite fold_left_Qplus. lra. }
  destruct (weighted_sum_spec (fun s => s ^ 2)%Q weights S HW [] weights 0%Q)
    as (A & HA & HAeq); [reflexivity|lia|].
  destruct (weighted_sum_spec (fun s => s) weights S HW [] weights 0%Q)
    as (B & HB & HBeq); [reflexivity|lia|].
  change (Z.of_nat (length (@nil Q))) with 0 in HA, HB.
  pose proof (weighted_terms_pos (Qsum weights) (combine weights S) HWpos
                (combine_facts weights S Hlen Hw HS)
                (combine_exists weights S Hlen Hex)) as HBpos.
  unfold mean_wl. rewrite HA. cbn. rewrite HB. cbn.
  rewrite div_nonzero by (rewrite HBeq; lra).
  eexists; split; [reflexivity|].
  unfold lehmer_mean. cbn zeta. rewrite HAeq, HBeq.
  apply Qeq_bool_iff. apply Qeq_eq_bool.
  field. lra.
Qed.

End LehmerMean.

(** ** HistoricalMemory *)

Section MemoryFacts.
Import Evolution.
Import HistoricalMemory.

Lemma init_wf (H : Z) (default : Q) : 0 < H -> wf (__init__ H default).
Proof.
  intros HH. constructor; cbn; try constructor; try lia;
    rewrite repeat_length; lia.
Qed.

Lemma recorded_weight_pos (d : float) :
  (forall q, d = Real q -> 0 <= q)%Q -> (0 < recorded_weight d)%Q.
Proof.
  intros Hd. destruct d as [q|]; cbn; [|reflexivity].
  destruct (Qeq_bool q 0) eqn:E; [reflexivity|].
  specialize (Hd q eq_refl).
  apply Qeq_bool_neq in E.
  destruct (Qlt_le_dec 0 q) as [Hlt|Hle]; [exact Hlt|].
  exfalso. apply E. lra.
Qed.

Lemma fabs_nonneg (a : float) (q : Q) : fabs a = Real q -> (0 <= q)%Q.
Proof.
  destruct a as [x|]; cbn; [|discriminate].
  intros [= <-]. apply Qabs_nonneg.
Qed.

Lemma record_wf (cr_i f_i : Q) (d : float) (h : HistoricalMemory.t) :
  wf h -> (0 <= cr_i <= 1)%Q -> (0 <= f_i)%Q ->
  (forall q, d = Real q -> 0 <= q)%Q ->
  exists h', record cr_i f_i d h = (Ok tt, h') /\ wf h'.
Proof.
  intros [] Hcr Hf Hd. rewrite record_valid by assumption.
  eexists; split; [reflexivity|].
  constructor; cbn; try assumption; rewrite ?length_app; cbn; try lia.
  - apply Forall_app. split; [assumption|].
    repeat constructor. apply recorded_weight_pos, Hd.
  - apply Forall_app. split; [assumption|]. repeat constructor. apply Hcr.
  - apply Forall_app. split; [assumption|]. repeat constructor. exact Hf.
Qed.

Lemma max_in (l : list Q) (x : Q) :
  In (fold_left (fun m y => if Qltb m y then y else m) l x) (x :: l).
Proof.
  revert x. induction l as [|y l IH]; intros x; cbn; [auto|].
  specialize (IH (if Qltb x y then y else x)).
  destruct (Qltb x y); destruct IH as [<-|H]; auto.
Qed.

Lemma max_nonzero (l : list Q) :
  l <> [] -> Forall (fun c => 0 <= c)%Q l ->
  Qeq_bool (max l) 0 = false -> Exists (fun c => 0 < c)%Q l.
Proof.
  intros Hl Hnn Hmax. destruct l as [|x l]; [contradiction|].
  apply Qeq_bool_neq in Hmax.
  pose proof (max_in l x) as Hin. fold (max (x :: l)) in Hin.
  apply List.Exists_exists. exists (max (x :: l)). split; [exact Hin|].
  rewrite List.Forall_forall in Hnn. specialize (Hnn _ Hin).
  destruct (Qlt_le_dec 0 (max (x :: l))) as [Hlt|Hle]; [exact Hlt|].
  exfalso. apply Hmax. apply Qle_antisym; assumption.
Qed.

Lemma store_in_range {A : Type} (l : list A) (i : Z) (x : A) :
  0 <= i < Z.of_nat (length l) ->
  store l i x = Ok (<[Z.to_nat i := x]> l).
Proof.
  intros Hi. unfold store.
  assert ((i <? 0) = false) as -> by lia.
  assert (((i <? 0) || (Z.of_nat (length l) <=? i)) = false) as ->
      by (apply orb_false_iff; split; lia).
  reflexivity.
Qed.

Lemma update_no_samples (h : HistoricalMemory.t) :
  no_samples h -> update h = (Ok tt, h).
Proof.
  intros Hn. unfold update, bind, get. cbn.
  assert (is_empty (s_cr h) || is_empty (s_f h) || is_empty (weights h)
          = true) as ->; [|reflexivity].
  destruct Hn as [-> | [-> | ->]]; cbn;
    rewrite ?orb_true_r; reflexivity.
Qed.

(** The cursor after an update. *)
Lemma next_k (h : HistoricalMemory.t) :
  0 <= k h < size h ->
  (if size h - 1 <=? k h then 0 else k h + 1) = (k h + 1) mod size h.
Proof.
  intros Hk. destruct (size h - 1 <=? k h) eqn:E.
  - assert (k h + 1 = size h) as -> by lia.
    rewrite Z.mod_same by lia. reflexivity.
  - rewrite Z.mod_small by lia. reflexivity.
Qed.

End MemoryFacts.

Section MemoryUpdate.
Import Evolution.
Import HistoricalMemory.

Lemma update_samples (h : HistoricalMemory.t) :
  wf h -> weights h <> [] -> Exists (fun f => 0 < f)%Q (s_f h) ->
  exists (cr : option Q) (vf : Q),
    update h = (Ok tt, updated h cr vf) /\
    mean_wl (s_f h) (weights h) = Ok vf /\
    (m_cr h !! Z.to_nat (k h) = Some None -> cr = None) /\
    (Qeq_bool (max (s_cr h)) 0 = true -> cr = None) /\
    (forall c, m_cr h !! Z.to_nat (k h) = Some (Some c) ->
               Qeq_bool (max (s_cr h)) 0 = false ->
               exists v, cr = Some v /\
                         mean_wl (s_cr h) (weights h) = Ok v).
Proof.
  intros Hwf Hw Hex. destruct Hwf.
  assert (Hcr_ne : s_cr h <> []).
  { intros E. rewrite E in wf_s_cr0. destruct (weights h);
      [contradiction|discriminate]. }
  assert (Hf_ne : s_f h <> []).
  { intros E. rewrite E in wf_s_f0. destruct (weights h);
      [contradiction|discriminate]. }
  destruct (mean_wl_lehmer (s_f h) (weights h)) as (vf & Hvf & _);
    try assumption.
  destruct (getitem_in_range (m_cr h) (k h)) as (c & Hget & Hnth); [lia|].
  assert (Hlook : m_cr h !! Z.to_nat (k h) = Some c).
  { rewrite <- Hnth. clear. generalize (Z.to_nat (k h)).
    induction (m_cr h) as [|x l IH]; intros [|n]; cbn; auto. }
  assert (Hempty : is_empty (s_cr h) || is_empty (s_f h)
                   || is_empty (weights h) = false).
  { destruct (s_cr h), (s_f h), (weights h); try contradiction.
    reflexivity. }
  assert (Hstep : forall cr : option Q,
             (v <- lift (mean_wl (s_f h) (weights h)) ;;
              set_m_f v ;;;
              set_k (if size h - 1 <=? k h then 0 else k h + 1))%py
               {| size := size h;
                  m_cr := <[Z.to_nat (k h) := cr]> (m_cr h);
                  m_f := m_f h; s_cr := s_cr h; s_f := s_f h;
                  weights := weights h; k := k h |}
             = (Ok tt, updated h cr vf)).
  { intros cr. unfold bind, lift, set_m_f, set_k, get, put. rewrite Hvf.
    cbn. unfold bind, lift. cbn.
    rewrite store_in_range by lia. cbn.
    rewrite next_k by lia. reflexivity. }
  assert (Hset : forall cr : option Q,
             set_m_cr cr h
             = (Ok tt, {| size := size h;
                          m_cr := <[Z.to_nat (k h) := cr]> (m_cr h);
                          m_f := m_f h; s_cr := s_cr h; s_f := s_f h;
                          weights := weights h; k := k h |})).
  { intros cr. unfold set_m_cr, bind, lift, get, put. cbn.
    rewrite store_in_range by lia. reflexivity. }
  unfold update. unfold bind at 1, get at 1. rewrite Hempty.
  unfold bind at 1, lift at 1. rewrite Hget.
  destruct c as [c|].
  - destruct (Qeq_bool (max (s_cr h)) 0) eqn:Hmax.
    + exists None, vf. unfold bind at 1. rewrite Hset, Hstep.
      repeat split; auto. intros c' Hc' Hm. discriminate.
    + destruct (mean_wl_lehmer (s_cr h) (weights h)) as (vcr & Hvcr & _);
        try assumption.
      { apply max_nonzero; assumption. }
      exists (Some vcr), vf. unfold bind at 1, bind at 1, lift at 1.
      rewrite Hvcr, Hset, Hstep.
      repeat split; auto.
      * rewrite Hlook. discriminate.
      * discriminate.
      * intros c' _ _. eauto.
  - exists None, vf. unfold bind at 1. rewrite Hset, Hstep.
    repeat split; auto. rewrite Hlook. discriminate.
Qed.

Lemma reset_wf (h : HistoricalMemory.t) :
  wf h -> exists h', reset h = (Ok tt, h') /\ wf h'.
Proof.
  intros []. eexists; split; [reflexivity|].
  constructor; cbn; try assumption; try reflexivity; constructor.
Qed.

Lemma updated_wf (h : HistoricalMemory.t) (cr : option Q) (f : Q) :
  wf h -> wf (updated h cr f).
Proof.
  intros []. constructor; cbn; try assumption.
  - apply Z.mod_pos_bound. lia.
  - rewrite length_insert. assumption.
  - rewrite length_insert. assumption.
Qed.

End MemoryUpdate.

(** ** LSHADE.adjust_generation_size *)

Section Reduction.
Import Evolution.

Lemma contains_true (l : list MemberState) (x : MemberState) :
  contains l x = true <-> exists y, In y l /\ id y = id x.
Proof.
  unfold contains, __eq__. rewrite existsb_exists.
  split; intros (y & Hy & He); exists y; (split; [exact Hy|]); lia.
Qed.

Lemma contains_false (l : list MemberState) (x : MemberState) :
  contains l x = false <-> forall y, In y l -> id y <> id x.
Proof.
  rewrite <- not_true_iff_false, contains_true. split.
  - intros H y Hy He. apply H. eauto.
  - intros H (y & Hy & He). apply (H y Hy He).
Qed.

Lemma filter_all {A : Type} (P : A -> bool) (l : list A) :
  (forall x, In x l -> P x = true) -> List.filter P l = l.
Proof.
  intros H. induction l as [|x l IH]; cbn; [reflexivity|].
  rewrite (H x) by (left; reflexivity).
  rewrite IH; [reflexivity|]. intros y Hy. apply H. right. exact Hy.
Qed.

Lemma filter_none {A : Type} (P : A -> bool) (l : list A) :
  (forall x, In x l -> P x = false) -> List.filter P l = [].
Proof.
  intros H. induction l as [|x l IH]; cbn; [reflexivity|].
  rewrite (H x) by (left; reflexivity).
  apply IH. intros y Hy. apply H. right. exact Hy.
Qed.

Lemma filter_filter {A : Type} (P Q : A -> bool) (l : list A) :
  List.filter P (List.filter Q l) = List.filter (fun x => Q x && P x) l.
Proof.
  induction l as [|x l IH]; cbn; [reflexivity|].
  destruct (Q x); cbn; [destruct (P x)|]; rewrite IH; reflexivity.
Qed.

Lemma filter_perm {A : Type} (P : A -> bool) (l1 l2 : list A) :
  Permutation l1 l2 -> Permutation (List.filter P l1) (List.filter P l2).
Proof.
  induction 1 as [|x l1 l2 H IH|x y l|l1 l2 l3 H1 IH1 H2 IH2]; cbn.
  - reflexivity.
  - destruct (P x); [apply perm_skip|]; exact IH.
  - destruct (P x), (P y); try reflexivity. apply perm_swap.
  - etransitivity; eassumption.
Qed.

(** The removal loop succeeds on members of the generation with distinct
    ids and leaves the members whose id is not among theirs. *)
Lemma remove_all_spec (worsts : list MemberState) :
  List.NoDup (map id worsts) ->
  forall g : Generation,
    (forall w, In w worsts -> contains g w = true) ->
    LSHADE.remove_all worsts g
    = (Ok tt, List.filter (fun x => negb (contains worsts x)) g).
Proof.
  induction worsts as [|w ws IH]; intros Hnd g Hin; cbn.
  - rewrite filter_all; [reflexivity|]. reflexivity.
  - cbn [map] in Hnd. apply List.NoDup_cons_iff in Hnd as [Hw Hnd].
    unfold remove. rewrite (Hin w) by (left; reflexivity).
    rewrite IH; [|exact Hnd|].
    + rewrite filter_filter. f_equal.
      apply filter_ext. intros x. unfold contains, __eq__.
      rewrite negb_orb, (Z.eqb_sym (id w) (id x)). reflexivity.
    + intros w' Hw'. apply contains_true.
      destruct (proj1 (contains_true g w') (Hin w' (or_intror Hw')))
        as (y & Hy & He).
      exists y. split; [|exact He].
      apply filter_In. split; [exact Hy|].
      unfold __eq__. apply negb_true_iff, Z.eqb_neq.
      intros E. apply Hw. rewrite <- E, He. apply in_map. exact Hw'.
Qed.

Lemma NoDup_app_disjoint {A : Type} (l1 l2 : list A) (a : A) :
  List.NoDup (l1 ++ l2) -> In a l1 -> In a l2 -> False.
Proof.
  induction l1 as [|x l1 IH]; cbn; [intros _ []|].
  intros Hnd [<-|Ha] Hb; apply List.NoDup_cons_iff in Hnd as [Hx Hnd].
  - apply Hx, in_or_app. right. exact Hb.
  - apply IH; assumption.
Qed.

Lemma NoDup_ids_split (s : list MemberState) (d : nat) :
  List.NoDup (map id s) ->
  forall a c, In a (firstn d s) -> In c (skipn d s) -> id a <> id c.
Proof.
  intros Hnd a c Ha Hc E.
  rewrite <- (firstn_skipn d s), map_app in Hnd.
  apply (NoDup_app_disjoint _ _ (id a) Hnd).
  - apply in_map, Ha.
  - rewrite E. apply in_map, Hc.
Qed.

Lemma NoDup_ids_firstn (s : list MemberState) (d : nat) :
  List.NoDup (map id s) -> List.NoDup (map id (firstn d s)).
Proof.
  intros Hnd. rewrite <- (firstn_skipn d s), map_app in Hnd.
  apply NoDup_app_remove_r in Hnd. exact Hnd.
Qed.

(** What is left of the generation once the first [d] members of its
    sorting are removed: the other members of the sorting. *)
Lemma kept_perm (g : Generation) (d : nat) :
  List.NoDup (map id g) ->
  Permutation
    (List.filter (fun x => negb (contains (firstn d (sorted g)) x)) g)
    (skipn d (sorted g)).
Proof.
  intros Hnd.
  assert (Hs : List.NoDup (map id (sorted g))).
  { eapply Permutation_NoDup; [|exact Hnd].
    apply Permutation_map. symmetry. apply sorted_perm. }
  set (P := fun x => negb (contains (firstn d (sorted g)) x)).
  rewrite (filter_perm P g (sorted g)) by (symmetry; apply sorted_perm).
  rewrite <- (firstn_skipn d (sorted g)) at 1.
  rewrite List.filter_app.
  rewrite (filter_none P (firstn d (sorted g))).
  - cbn. rewrite filter_all; [reflexivity|].
    intros x Hx. unfold P. apply negb_true_iff, contains_false.
    intros y Hy. apply (NoDup_ids_split (sorted g) d Hs y x Hy Hx).
  - intros x Hx. unfold P. apply negb_false_iff, contains_true. eauto.
Qed.

Lemma filter_sublist {A : Type} (P : A -> bool) (l : list A) :
  sublist (List.filter P l) l.
Proof.
  induction l as [|x l IH]; cbn; [constructor|].
  destruct (P x); [apply sublist_skip|apply sublist_cons]; exact IH.
Qed.

End Reduction.

Section PopulationReduction.
Import Evolution.
Import LSHADE.

Lemma new_size_ok (self : LSHADE.t) :
  MAX_NFE self <> 0 ->
  new_size self
  = Ok (round (inject_Z (N_MIN self - SHADE.N_INIT (super self))
               / inject_Z (MAX_NFE self) * inject_Z (_nfe self)
               + inject_Z (SHADE.N_INIT (super self)))).
Proof.
  intros Hmax. unfold new_size. rewrite div_nonzero; [reflexivity|].
  intros E. apply Hmax. unfold Qeq in E. cbn in E. lia.
Qed.

Lemma adjust_unchanged (self : LSHADE.t) (g : Generation) (n : Z) :
  new_size self = Ok n -> Z.of_nat (length g) <= n ->
  adjust_generation_size (self, g) = (Ok tt, (self, g)).
Proof.
  intros Hn Hle. unfold adjust_generation_size, bind, on_fst, on_snd, get,
    lift; cbn. rewrite Hn.
  assert ((Z.of_nat (length g) <=? n) = true) as -> by lia. reflexivity.
Qed.

Lemma adjust_shrinks (self : LSHADE.t) (g : Generation) (n : Z) :
  new_size self = Ok n -> 0 <= n < Z.of_nat (length g) ->
  List.NoDup (map id g) ->
  let d := Z.to_nat (Z.of_nat (length g) - n) in
  adjust_generation_size (self, g)
  = (Ok tt,
     (set_archive_size self
        (VFloat (inject_Z n * SHADE.r_arc (super self))),
      List.filter (fun x => negb (contains (firstn d (sorted g)) x)) g)).
Proof.
  intros Hn Hrange Hnd d.
  unfold adjust_generation_size, bind, on_fst, on_snd, get, put, lift; cbn.
  rewrite Hn.
  assert ((Z.of_nat (length g) <=? n) = false) as -> by lia.
  unfold slice_to.
  assert ((Z.of_nat (length g) - n <? 0) = false) as -> by lia.
  fold d. rewrite remove_all_spec; [reflexivity| |].
  - apply NoDup_ids_firstn.
    eapply Permutation_NoDup; [|exact Hnd].
    apply Permutation_map. symmetry. apply sorted_perm.
  - intros w Hw. apply contains_true. exists w. split; [|reflexivity].
    apply in_firstn in Hw.
    eapply Permutation_in; [apply sorted_perm|exact Hw].
Qed.

(** Within the evaluation budget the new size lies between [N_MIN] and
    [N_INIT]. *)
Lemma new_size_bounds (self : LSHADE.t) :
  0 < MAX_NFE self -> 0 <= _nfe self <= MAX_NFE self ->
  N_MIN self <= SHADE.N_INIT (super self) ->
  exists n, new_size self = Ok n /\
            N_MIN self <= n <= SHADE.N_INIT (super self).
Proof.
  intros Hmax Hnfe Hmin. rewrite new_size_ok by lia.
  eexists; split; [reflexivity|].
  set (a := inject_Z (N_MIN self - SHADE.N_INIT (super self))).
  set (M := inject_Z (MAX_NFE self)).
  set (n := inject_Z (_nfe self)).
  set (I := inject_Z (SHADE.N_INIT (super self))).
  assert (HM : (0 < M)%Q) by (unfold M; rewrite <- (Zlt_Qlt 0); lia).
  assert (Hn0 : (0 <= n)%Q) by (unfold n; rewrite <- (Zle_Qle 0); lia).
  assert (HnM : (n <= M)%Q) by (unfold n, M; rewrite <- Zle_Qle; lia).
  assert (Ha : (a <= 0)%Q) by (unfold a; rewrite <- (Zle_Qle _ 0); lia).
  assert (HaI : (a + I == inject_Z (N_MIN self))%Q).
  { unfold a, I. rewrite <- inject_Z_plus. f_equiv. lia. }
  assert (Hfrac : (0 <= n / M <= 1)%Q).
  { split; [apply Qle_shift_div_l|apply Qle_shift_div_r]; lra. }
  assert (Hprod : (a / M * n == a * (n / M))%Q) by (field; lra).
  assert (Hlo : (a <= a * (n / M))%Q) by nra.
  assert (Hhi : (a * (n / M) <= 0)%Q) by nra.
  split.
  - apply round_ge. rewrite Hprod, <- HaI. lra.
  - apply round_le. rewrite Hprod. fold I. lra.
Qed.

End PopulationReduction.

(** ** LSHADE.adjust_generation_size in float arithmetic *)

Section FloatReduction.
Import Evolution.
Import LSHADE.
Import Float.

Variable fl : Q -> Q.

Lemma rounded_new_size_ok (self : LSHADE.t) :
  MAX_NFE self <> 0 ->
  Rounded.new_size fl self
  = Ok (round
          (fl (fl (fl (inject_Z (N_MIN self - SHADE.N_INIT (super self))
                       / inject_Z (MAX_NFE self))
                   * fl (inject_Z (_nfe self)))
               + fl (inject_Z (SHADE.N_INIT (super self)))))%Q).
Proof.
  intros Hmax. unfold Rounded.new_size, Rounded.fdiv.
  destruct (Qeq_bool (inject_Z (MAX_NFE self)) 0) eqn:E; [|reflexivity].
  apply Qeq_bool_iff in E. exfalso. apply Hmax.
  unfold Qeq in E. cbn in E. lia.
Qed.

Lemma rounded_adjust_no_budget (self : LSHADE.t) (g : Generation) :
  MAX_NFE self = 0 ->
  Rounded.adjust_generation_size fl (self, g)
  = (Raise ZeroDivisionError, (self, g)).
Proof.
  intros Hmax.
  unfold Rounded.adjust_generation_size, bind, on_fst, on_snd, get, lift;
    cbn.
  unfold Rounded.new_size, Rounded.fdiv. rewrite Hmax. reflexivity.
Qed.

Lemma rounded_adjust_unchanged (self : LSHADE.t) (g : Generation) (n : Z) :
  Rounded.new_size fl self = Ok n -> Z.of_nat (length g) <= n ->
  Rounded.adjust_generation_size fl (self, g) = (Ok tt, (self, g)).
Proof.
  intros Hn Hle.
  unfold Rounded.adjust_generation_size, bind, on_fst, on_snd, get, lift;
    cbn.
  rewrite Hn.
  assert ((Z.of_nat (length g) <=? n) = true) as -> by lia. reflexivity.
Qed.

Lemma rounded_adjust_shrinks (self : LSHADE.t) (g : Generation) (n : Z) :
  Rounded.new_size fl self = Ok n -> n < Z.of_nat (length g) ->
  List.NoDup (map id g) ->
  let d := Z.to_nat (Z.of_nat (length g) - n) in
  Rounded.adjust_generation_size fl (self, g)
  = (Ok tt,
     (set_archive_size self
        (VFloat (fl (fl (inject_Z n) * SHADE.r_arc (super self)))%Q),
      List.filter (fun x => negb (contains (firstn d (sorted g)) x)) g)).
Proof.
  intros Hn Hlt Hnd d.
  unfold Rounded.adjust_generation_size, bind, on_fst, on_snd, get, put,
    lift; cbn.
  rewrite Hn.
  assert ((Z.of_nat (length g) <=? n) = false) as -> by lia.
  unfold slice_to.
  assert ((Z.of_nat (length g) - n <? 0) = false) as -> by lia.
  fold d. rewrite remove_all_spec; [reflexivity| |].
  - apply NoDup_ids_firstn.
    eapply Permutation_NoDup; [|exact Hnd].
    apply Permutation_map. symmetry. apply sorted_perm.
  - intros w Hw. apply contains_true. exists w. split; [|reflexivity].
    apply in_firstn in Hw.
    eapply Permutation_in; [apply sorted_perm|exact Hw].
Qed.

(** What a shrinking call leaves: [max(0, n)] members, in their order,
    each no worse than every member removed. *)
Lemma shrunk_generation (g : Generation) (n : Z) :
  n < Z.of_nat (length g) -> List.NoDup (map id g) ->
  let d := Z.to_nat (Z.of_nat (length g) - n) in
  let g' := List.filter (fun x => negb (contains (firstn d (sorted g)) x)) g in
  Z.of_nat (length g') = Z.max 0 n /\
  sublist g' g /\
  (same_objective g ->
   forall r x, In r g -> ~ In r g' -> In x g' -> __le__ r x = true).
Proof.
  intros Hlt Hnd d g'.
  pose proof (kept_perm g d Hnd) as Hperm. fold g' in Hperm.
  split; [|split].
  - rewrite (Permutation_length Hperm), length_skipn.
    rewrite (Permutation_length (sorted_perm g)). unfold d. lia.
  - apply filter_sublist.
  - intros Hobj r x Hr Hnr Hx.
    apply (sorted_split (sorted g) d (sorted_sorted g Hobj)).
    + assert (Hrs : In r (sorted g))
        by (eapply Permutation_in; [symmetry; apply sorted_perm|exact Hr]).
      rewrite <- (firstn_skipn d (sorted g)) in Hrs.
      apply in_app_or in Hrs as [Hfst|Hsnd]; [exact Hfst|].
      exfalso. apply Hnr.
      eapply Permutation_in; [symmetry; exact Hperm|exact Hsnd].
    + eapply Permutation_in; [exact Hperm|exact Hx].
Qed.

End FloatReduction.

Section FloatReductionClaim.
Import Evolution.
Import LSHADE.
Import Float.

(** C3, amended: [N_new] is
    [round(((N_MIN - N_INIT) / MAX_NFE) * NFE + N_INIT)] as the floats
    compute it: the quotient rounded, its product with [NFE] rounded, the
    sum rounded, and [round] applied to that. With [MAX_NFE = 0] the
    quotient raises [ZeroDivisionError] and nothing changes. Otherwise:
    when [N_new >= |G|] the generation and the engine are left as they
    are; when [N_new < |G|] the archive capacity becomes the float
    [N_new * r_arc] and the generation keeps [max(0, N_new)] members, in
    their order, every removed member no better than every member kept:
    [|G| - N_new] members are removed when [N_new >= 0], and all [|G|]
    of them when [N_new < 0]. For [N_INIT = 20], [N_MIN = 4],
    [MAX_NFE = 1000] and [NFE = 500], in binary64, [N_new = 12] and 8 of
    20 members are removed. *)
Theorem C3_population_reduction (fl : Q -> Q) (self : LSHADE.t)
    (g : Generation) :
  List.NoDup (map id g) ->
  let N_new :=
    round (fl (fl (fl (inject_Z (N_MIN self - SHADE.N_INIT (super self))
                       / inject_Z (MAX_NFE self))
                   * fl (inject_Z (_nfe self)))
               + fl (inject_Z (SHADE.N_INIT (super self)))))%Q in
  (MAX_NFE self = 0 ->
   Rounded.adjust_generation_size fl (self, g)
   = (Raise ZeroDivisionError, (self, g))) /\
  (MAX_NFE self <> 0 ->
   Rounded.new_size fl self = Ok N_new /\
   (Z.of_nat (length g) <= N_new ->
    Rounded.adjust_generation_size fl (self, g) = (Ok tt, (self, g))) /\
   (N_new < Z.of_nat (length g) ->
    exists g' : Generation,
      Rounded.adjust_generation_size fl (self, g)
      = (Ok tt,
         (set_archive_size self
            (VFloat (fl (fl (inject_Z N_new)
                         * SHADE.r_arc (super self)))%Q),
          g')) /\
      Z.of_nat (length g') = Z.max 0 N_new /\
      (0 <= N_new ->
       Z.of_nat (length g) - Z.of_nat (length g')
       = Z.of_nat (length g) - N_new) /\
      (N_new < 0 -> g' = []) /\
      sublist g' g /\
      (same_objective g ->
       forall r x, In r g -> ~ In r g' -> In x g' -> __le__ r x = true))) /\
  (SHADE.N_INIT (super self) = 20 -> N_MIN self = 4 ->
   MAX_NFE self = 1000 -> _nfe self = 500 -> length g = 20%nat ->
   Rounded.new_size binary64 self = Ok 12 /\
   exists (self' : LSHADE.t) (g' : Generation),
     Rounded.adjust_generation_size binary64 (self, g)
     = (Ok tt, (self', g')) /\
     length g' = 12%nat).
Proof.
  intros Hnd N_new. split; [apply rounded_adjust_no_budget|]. split.
  - intros Hmax.
    assert (Hn : Rounded.new_size fl self = Ok N_new)
      by (apply rounded_new_size_ok; exact Hmax).
    split; [exact Hn|].
    split; [apply rounded_adjust_unchanged; exact Hn|].
    intros Hlt.
    destruct (shrunk_generation g N_new Hlt Hnd) as (Hlen & Hsub & Hord).
    eexists. split.
    { apply (rounded_adjust_shrinks fl self g N_new Hn Hlt Hnd). }
    split; [exact Hlen|]. split; [lia|]. split; [|split; assumption].
    intros Hneg. apply length_zero_iff_nil. lia.
  - intros HN HNmin HMAX HNFE Hlen.
    assert (H12 : Rounded.new_size binary64 self = Ok 12).
    { rewrite rounded_new_size_ok by lia.
      rewrite HN, HNmin, HMAX, HNFE. vm_compute. reflexivity. }
    split; [exact H12|].
    destruct (shrunk_generation g 12 ltac:(lia) Hnd) as (Hl & _).
    eexists _, _. split.
    { apply (rounded_adjust_shrinks binary64 self g 12 H12 ltac:(lia) Hnd). }
    lia.
Qed.

Lemma example_generation_ids (n : nat) :
  List.NoDup (map id (example_generation n)).
Proof.
  unfold example_generation. rewrite map_map. cbn [id example_member].
  apply Finite.Injective_map_NoDup; [|apply List.seq_NoDup].
  intros x y H. lia.
Qed.

Lemma C3_population_reduction_witness :
  Rounded.new_size binary64 (example_lshade 2 950) = Ok 5 /\
  exists g' : Generation,
    snd (snd (Rounded.adjust_generation_size binary64
                (example_lshade 2 950, example_generation 6)))
    = g' /\
    Z.of_nat (length g') = 5 /\
    sublist g' (example_generation 6).
Proof.
  destruct (C3_population_reduction binary64
              (example_lshade 2 950) (example_generation 6)
              (example_generation_ids 6))
    as (_ & H & _).
  destruct H as (Hn & _ & H); [discriminate|].
  split; [rewrite Hn; vm_compute; reflexivity|].
  destruct H as (g' & Hadj & Hlen & _ & _ & Hsub & _).
  - vm_compute. reflexivity.
  - exists g'. split; [rewrite Hadj; reflexivity|].
    split; [rewrite Hlen; vm_compute; reflexivity|exact Hsub].
Defined.

(** Two inputs at which the claim's count fails. At [N_INIT = 18],
    [MAX_NFE = 100], [NFE = 75] the exact value of the formula is 7.5,
    which [round] takes to 8; the floats reach 7.499999999999998 and 7
    members are left. And beyond the budget, at [NFE = 1300] of 1000,
    [N_new = -1]: of 4 members all 4 are removed, not [|G| - N_new = 5]. *)
Lemma C3_counterexample :
  let self := example_lshade_tie in
  let g := example_generation 10 in
  round (inject_Z (N_MIN self - SHADE.N_INIT (super self))
         / inject_Z (MAX_NFE self) * inject_Z (_nfe self)
         + inject_Z (SHADE.N_INIT (super self))) = 8 /\
  Rounded.new_size binary64 self = Ok 7 /\
  length (snd (snd (Rounded.adjust_generation_size binary64 (self, g))))
  = 7%nat /\
  Rounded.new_size binary64 (example_lshade 2 1300) = Ok (-1) /\
  snd (snd (Rounded.adjust_generation_size binary64
              (example_lshade 2 1300, example_generation 4)))
  = [] /\
  Z.of_nat (length (example_generation 4)) - -1 = 5.
Proof.
  cbv zeta. repeat split; vm_compute; reflexivity.
Qed.

(** At [fl = exact] the rounded functions are the exact ones. *)
Lemma rounded_exact_schedule (self : LSHADE.t) (g : Generation) :
  Rounded.new_size exact self = new_size self /\
  Rounded.adjust_generation_size exact (self, g)
  = adjust_generation_size (self, g).
Proof. split; reflexivity. Qed.

End FloatReductionClaim.

(** ** Concrete runs *)

Section Examples.
Import Evolution.

Lemma example_shade_init (r_arc : Q) :
  SHADE.__init__ 20 r_arc (1 # 10) 5 0 1 false
  = Ok (example_shade r_arc ∅ ∅).
Proof. reflexivity. Qed.

Lemma example_lshade_init (r_arc : Q) :
  LSHADE.__init__ 20 1000 r_arc (1 # 10) 5 0 1 false
  = Ok (example_lshade r_arc 0).
Proof. reflexivity. Qed.

(** C1 at a concrete input: [LSHADE(N_INIT=20, MAX_NFE=1000, r_arc=1.1)]
    after 500 evaluations shrinks a generation of 20 to 12 members and
    sets the archive capacity to [12 * 1.1 = 13.2], not to
    [round(12 * 1.1) = 13]; no length equals that capacity, so no
    [append] evicts any more and 14 appends leave 14 members in the
    archive. *)
Theorem C1_archive_capacity_not_rounded :
  exists (self' : LSHADE.t) (g' : Generation),
    LSHADE.adjust_generation_size
      (example_lshade (11 # 10) 500, example_generation 20)
    = (Ok tt, (self', g')) /\
    length g' = 12%nat /\
    ExternalArchive.size (SHADE.archive (LSHADE.super self'))
    = VFloat (132 # 10) /\
    round (inject_Z 12 * (11 # 10)) = 13 /\
    Py.eq (VInt 13)
          (ExternalArchive.size (SHADE.archive (LSHADE.super self')))
    = false /\
    exists (a' : ExternalArchive.t),
      mapM ExternalArchive.append (example_generation 14)
           (SHADE.archive (LSHADE.super self'), example_rng)
      = (Ok (repeat tt 14), (a', example_rng)) /\
      ExternalArchive.len a' = 14 /\
      ExternalArchive.size a' = VFloat (132 # 10) /\
      (132 # 10 < inject_Z (ExternalArchive.len a'))%Q.
Proof.
  eexists _, _. split; [vm_compute; reflexivity|].
  split; [reflexivity|]. split; [reflexivity|]. split; [reflexivity|].
  split; [reflexivity|].
  eexists. split; [vm_compute; reflexivity|].
  split; [reflexivity|]. split; [reflexivity|]. reflexivity.
Qed.

(** Beyond the budget: once so many more evaluations than [MAX_NFE] have
    been counted that [N_new] is negative, the slice takes the whole sorted
    generation and every member is removed. *)
Lemma adjust_beyond_budget :
  LSHADE.new_size (example_lshade 2 1300) = Ok (-1) /\
  snd (snd (LSHADE.adjust_generation_size
              (example_lshade 2 1300, example_generation 4)))
  = [].
Proof.
  split; [reflexivity|]. vm_compute; reflexivity.
Qed.

(** The resize does not trim the archive either: one that holds more
    members than the new capacity keeps them, is never full again, and
    grows with every [append]. *)
Lemma archive_not_trimmed :
  let self :=
    {| LSHADE.super :=
         SHADE.set_archive (example_shade 2 ∅ ∅)
           {| ExternalArchive.items := example_generation 30;
              ExternalArchive.size := VInt 40 |};
       LSHADE.N_MIN := 4; LSHADE.MAX_NFE := 1000; LSHADE._nfe := 500 |} in
  let st := LSHADE.adjust_generation_size (self, example_generation 20) in
  let a := SHADE.archive (LSHADE.super (fst (snd st))) in
  ExternalArchive.size a = VFloat (24 # 1) /\
  ExternalArchive.len a = 30 /\
  ExternalArchive.len
    (fst (snd (ExternalArchive.append (example_member 99 (1 # 2))
                 (a, example_rng)))) = 31.
Proof.
  cbv zeta. split; [vm_compute; reflexivity|].
  split; vm_compute; reflexivity.
Qed.

(** On a tie the weight recorded is [1e-9], not the score difference. *)
Lemma C2_counterexample :
  let parent := example_member 0 (1 # 2) in
  let trial := example_member 0 (1 # 2) in
  let self := example_shade 2 {[ 0 := 1 # 2 ]} {[ 0 := 1 # 2 ]} in
  let st := SHADE.select parent trial (self, example_rng) in
  __le__ parent trial = true /\
  fst st = Ok trial /\
  fabs (fsub (score trial) (score parent)) = Real (0 # 4) /\
  HistoricalMemory.weights (SHADE.memory (fst (snd st)))
  = [1 # 1000000000] /\
  ~ (1 # 1000000000 == 0 # 4)%Q.
Proof.
  cbv zeta. split; [reflexivity|]. split; [vm_compute; reflexivity|].
  split; [reflexivity|]. split; [vm_compute; reflexivity|].
  discriminate.
Qed.

End Examples.

(** ** The archive bound of SHADE *)

Section ArchiveBound.
Import Evolution.
Import ExternalArchive.

(** Whatever [append] does, an integer capacity that bounds the length
    before still bounds it after. *)
Lemma append_bound (x : MemberState) (a : ExternalArchive.t) (n : Z)
    (rng : Rng) :
  size a = VInt n -> len a <= n ->
  let a' := fst (snd (append x (a, rng))) in
  size a' = VInt n /\ len a' <= n.
Proof.
  intros Hsize Hlen.
  destruct (full a) eqn:Hfull.
  - assert (Heq : len a = n).
    { unfold full in Hfull. rewrite Hsize in Hfull. cbn in Hfull. lia. }
    destruct (Z_le_gt_dec n 0) as [Hn|Hn].
    + unfold append, bind, on_fst, on_snd, get; cbn [fst snd].
      fold (full a). rewrite Hfull, Hsize. cbn.
      unfold randrange. assert ((n <=? 0) = true) as -> by lia.
      cbn. auto.
    + destruct rng as [[|r t] rs].
      * unfold append, bind, on_fst, on_snd, get; cbn [fst snd].
        fold (full a). rewrite Hfull, Hsize. cbn.
        unfold randrange. assert ((n <=? 0) = false) as -> by lia.
        cbn. auto.
      * rewrite append_full by (auto; lia). cbn.
        split; [exact Hsize|].
        unfold len in *; cbn. rewrite length_app, length_delete_at; cbn.
        -- lia.
        -- apply Z.mod_pos_bound. lia.
  - rewrite append_not_full by assumption. cbn.
    split; [exact Hsize|].
    unfold full in Hfull. rewrite Hsize in Hfull. cbn in Hfull.
    unfold len in *; cbn. rewrite length_app; cbn. lia.
Qed.

(** [SHADE.select], the one method that touches the archive, keeps its
    length within an integer capacity, also when it raises. *)
Lemma shade_select_keeps_bound (parent trial : MemberState)
    (self : SHADE.t) (rng : Rng) (n : Z) :
  size (SHADE.archive self) = VInt n -> len (SHADE.archive self) <= n ->
  let self' := fst (snd (SHADE.select parent trial (self, rng))) in
  size (SHADE.archive self') = VInt n /\ len (SHADE.archive self') <= n.
Proof.
  intros Hsize Hlen.
  pose proof (append_bound (copy parent) (SHADE.archive self) n rng
                Hsize Hlen) as Hb.
  assert (Harch :
            SHADE.archive
              (fst (snd (SHADE.select parent trial (self, rng))))
            = SHADE.archive self
            \/ SHADE.archive
                 (fst (snd (SHADE.select parent trial (self, rng))))
               = fst (snd (append (copy parent)
                                  (SHADE.archive self, rng)))).
  { unfold SHADE.select.
    destruct (__le__ parent trial); [right|left; reflexivity].
    unfold bind, SHADE.with_archive, SHADE.with_memory, on_fst, get, lift;
      cbn -[append HistoricalMemory.record].
    destruct (append (copy parent) (SHADE.archive self, rng))
      as [[[]|e] [a' rng']]; cbn -[HistoricalMemory.record];
      [|reflexivity].
    destruct (SHADE.lookup (SHADE.CR self) (id parent)); [|reflexivity].
    destruct (SHADE.lookup (SHADE.F self) (id parent)); [|reflexivity].
    destruct (HistoricalMemory.record _ _ _ _) as [[[]|e] h'];
      reflexivity. }
  cbv zeta. destruct Harch as [-> | ->]; [auto|exact Hb].
Qed.

(** The archive [SHADE.__init__] builds is empty, of capacity
    [round(N_INIT * r_arc)]. *)
Lemma shade_init_archive (N_INIT : Z) (r_arc p : Q) (H : Z)
    (f_min f_max : Q) (sharing : bool) (self : SHADE.t) :
  SHADE.__init__ N_INIT r_arc p H f_min f_max sharing = Ok self ->
  SHADE.archive self
  = {| items := []; size := VInt (round (inject_Z N_INIT * r_arc)) |}.
Proof.
  unfold SHADE.__init__.
  destruct (N_INIT <? 4); [discriminate|].
  destruct (Qltb f_min 0); [discriminate|].
  destruct (Qle_bool f_max 0); [discriminate|].
  destruct (Qltb f_max f_min); [discriminate|].
  intros [= <-]. reflexivity.
Qed.

End ArchiveBound.

(** ** The theorems at concrete inputs *)

Section Witnesses.
Import Evolution.

Lemma C2_select_records_witness :
  let parent := example_member 7 (1 # 10) in
  let trial := example_member 7 (9 # 10) in
  let st := SHADE.select parent trial (example_full_shade, example_rng) in
  fst st = Ok trial /\
  ExternalArchive.items (SHADE.archive (fst (snd st)))
  = [example_member 1 (1 # 20); example_member 2 (2 # 20); parent] /\
  HistoricalMemory.s_cr (SHADE.memory (fst (snd st))) = [1 # 2] /\
  HistoricalMemory.s_f (SHADE.memory (fst (snd st))) = [3 # 10] /\
  HistoricalMemory.weights (SHADE.memory (fst (snd st))) = [80 # 100] /\
  ints (snd (snd st)) = [1%nat; 4%nat; 1%nat; 5%nat].
Proof.
  cbv zeta.
  destruct (C2_select_records
              (example_member 7 (1 # 10)) (example_member 7 (9 # 10))
              example_full_shade example_rng (1 # 2) (3 # 10))
    as [Hwin _].
  - reflexivity.
  - reflexivity.
  - split; discriminate.
  - discriminate.
  - destruct (Hwin eq_refl) as (_ & Hfull & _).
    pose proof (Hfull 3%nat [1%nat; 4%nat; 1%nat; 5%nat]
                  eq_refl eq_refl eq_refl) as Hsel.
    cbv zeta in Hsel. destruct Hsel as [Hsel _].
    rewrite Hsel. repeat split; reflexivity.
Defined.

Lemma C10_select_frame_witness :
  let st := (example_shade 2 {[ 0 := 1 # 2 ]} {[ 0 := 3 # 10 ]},
             example_rng) in
  SHADE.select (example_member 0 (9 # 10)) (example_member 0 (1 # 10)) st
  = (Ok (example_member 0 (9 # 10)), st).
Proof.
  apply (C10_select_frame
           (example_member 0 (9 # 10)) (example_member 0 (1 # 10))).
  reflexivity.
Defined.

Lemma C8_select_better_witness :
  let de := {| DifferentialEvolution.F := 1 # 5;
               DifferentialEvolution.Cr := 4 # 5 |} in
  __le__ (example_member 0 (1 # 10))
         (DifferentialEvolution.select de (example_member 0 (9 # 10))
            (example_member 0 (1 # 10)))
  = true.
Proof.
  intros de.
  destruct (C8_select_better de (example_member 0 (9 # 10))
              (example_member 0 (1 # 10))) as (_ & _ & _ & H).
  apply H. reflexivity.
Defined.

Lemma C5_degenerate_population_witness :
  let de := {| DifferentialEvolution.F := 1 # 5;
               DifferentialEvolution.Cr := 4 # 5 |} in
  DifferentialEvolution.mutate de (example_generation 2) example_rng
  = (Raise (ValueError "generation size must be at least 3 or higher."),
     example_rng).
Proof.
  intros de. apply (proj1 C5_degenerate_population). cbn. lia.
Defined.

Lemma example_memory_wf : wf example_memory.
Proof.
  constructor; cbn; try lia; repeat constructor; discriminate.
Qed.

End Witnesses.


(** * Further properties of the code *)

(** ** Hyperparameter: construction *)

Section HyperparameterConstruction.
Import Hyperparameters.

Lemma lt_numbers (a b : value) :
  is_number a = true -> is_number b = true ->
  Py.lt a b = Ok (Qltb (num_of a) (num_of b)).
Proof. destruct a, b; cbn; try discriminate; reflexivity. Qed.

Lemma lt_ok_kind (a b : value) (r : bool) :
  Py.lt a b = Ok r -> is_number a = is_number b.
Proof. destruct a, b; cbn; try discriminate; reflexivity. Qed.

Lemma py_insert_perm (x : value) (l r : list value) :
  Py.insert x l = Ok r -> Permutation r (x :: l).
Proof.
  revert r. induction l as [|y l IH]; intros r; cbn.
  - intros [= <-]. reflexivity.
  - destruct (Py.lt y x) as [[|]|e]; cbn; try discriminate.
    + destruct (Py.insert x l) as [r'|e]; cbn; [|discriminate].
      intros [= <-]. rewrite (IH r' eq_refl). apply perm_swap.
    + intros [= <-]. reflexivity.
Qed.

Lemma py_insert_kind (x y : value) (l r : list value) :
  Py.insert x (y :: l) = Ok r -> is_number y = is_number x.
Proof.
  cbn. destruct (Py.lt y x) as [b|e] eqn:E; [|discriminate].
  intros _. eapply lt_ok_kind. exact E.
Qed.

(** A list [sorted] accepts holds values of one kind only. *)
Lemma py_sorted_ok (l s : list value) :
  Py.sorted l = Ok s ->
  Permutation s l /\
  (forall x y, In x l -> In y l -> is_number x = is_number y).
Proof.
  revert s. induction l as [|x l IH]; intros s; cbn.
  - intros [= <-]. split; [reflexivity|]. intros x y [].
  - destruct (Py.sorted l) as [s'|e]; cbn; [|discriminate].
    intros Hins. destruct (IH s' eq_refl) as [Hperm Hkind].
    split.
    + rewrite (py_insert_perm x s' s Hins). apply perm_skip, Hperm.
    + assert (Hx : forall y, In y l -> is_number x = is_number y).
      { intros y Hy. destruct s' as [|y0 s'].
        - apply Permutation_nil in Hperm. subst l. destruct Hy.
        - apply py_insert_kind in Hins. rewrite <- Hins.
          apply Hkind; [|exact Hy].
          eapply Permutation_in; [exact Hperm|left; reflexivity]. }
      intros a b [<-|Ha] [<-|Hb]; auto.
      symmetry. apply Hx, Ha.
Qed.

Lemma py_insert_sorted (x : value) (l : list value) :
  is_number x = true -> Forall (fun v => is_number v = true) l ->
  StronglySorted num_le l ->
  exists r, Py.insert x l = Ok r /\ StronglySorted num_le r.
Proof.
  intros Hx Hl Hs. induction Hs as [|y l Hs IH Hy]; cbn.
  - eexists; split; [reflexivity|]. repeat constructor.
  - apply Forall_cons_iff in Hl as [Hyn Hl].
    rewrite (lt_numbers y x Hyn Hx). cbn.
    destruct (Qltb (num_of y) (num_of x)) eqn:E.
    + destruct (IH Hl) as (r & Hr & Hsr). rewrite Hr. cbn.
      eexists; split; [reflexivity|].
      constructor; [exact Hsr|].
      eapply Permutation_Forall;
        [symmetry; apply (py_insert_perm x l r Hr)|].
      constructor; [|exact Hy].
      apply Qltb_lt in E. unfold num_le. lra.
    + eexists; split; [reflexivity|].
      apply Qltb_ge in E.
      constructor; [constructor; assumption|].
      constructor; [exact E|].
      eapply List.Forall_impl; [|exact Hy]. cbn. unfold num_le.
      intros z Hz. lra.
Qed.

Lemma py_sorted_numbers (l : list value) :
  Forall (fun v => is_number v = true) l ->
  exists s, Py.sorted l = Ok s /\ Permutation s l /\
            StronglySorted num_le s.
Proof.
  intros Hl. induction l as [|x l IH]; cbn.
  - eexists; split; [reflexivity|]. split; [reflexivity|constructor].
  - apply Forall_cons_iff in Hl as [Hx Hl].
    destruct (IH Hl) as (s' & Hs' & Hperm & Hsorted). rewrite Hs'. cbn.
    destruct (py_insert_sorted x s' Hx) as (r & Hr & Hsr);
      [|exact Hsorted|].
    { eapply Permutation_Forall; [symmetry; exact Hperm|exact Hl]. }
    exists r. split; [exact Hr|]. split; [|exact Hsr].
    rewrite (py_insert_perm x s' r Hr). apply perm_skip, Hperm.
Qed.

Lemma init_ok_inv (args : list value) (c : bool) (h : Hyperparameter) :
  __init__ args c = Ok h ->
  c = false /\ (2 <= length args)%nat /\
  Forall (fun v => is_number v = true) args /\
  sorted args = Ok (_search_space h) /\
  is_categorical h = false /\ _value h = None.
Proof.
  unfold __init__, assert. intros Hh.
  destruct (1 <? Z.of_nat (length args)) eqn:Hlen; [|discriminate].
  destruct c; [discriminate|]. cbn -[sorted] in Hh.
  destruct args as [|a0 args]; [discriminate|].
  destruct (is_number a0) eqn:Ha0; [|discriminate]. cbn -[sorted] in Hh.
  destruct (Py.sorted (a0 :: args)) as [s|e] eqn:Hs; [|discriminate].
  cbn in Hh. injection Hh as <-. cbn [_search_space is_categorical _value].
  destruct (py_sorted_ok _ _ Hs) as [_ Hkind].
  split; [reflexivity|]. split; [lia|]. split; [|auto].
  apply List.Forall_forall. intros v Hv.
  rewrite <- Ha0. apply Hkind; [exact Hv|left; reflexivity].
Qed.

Lemma init_numbers (args : list value) :
  (2 <= length args)%nat -> Forall (fun v => is_number v = true) args ->
  exists s, sorted args = Ok s /\
            __init__ args false =
              Ok {| _search_space := s; is_categorical := false;
                    _value := None |}.
Proof.
  intros Hlen Hnum. unfold __init__, assert.
  assert ((1 <? Z.of_nat (length args)) = true) as -> by lia.
  destruct (py_sorted_numbers args Hnum) as (s & Hs & _).
  exists s. split; [exact Hs|].
  destruct args as [|a0 args]; [cbn in Hlen; lia|].
  apply Forall_cons_iff in Hnum as [Ha0 _]. rewrite Ha0.
  cbn -[sorted]. rewrite Hs. reflexivity.
Qed.

(** X1: a Hyperparameter is constructed exactly when [is_categorical] is
    false, there are at least two arguments and every argument is a
    number; any other call raises. *)
Theorem X1_init_succeeds_iff (args : list value) (categorical : bool) :
  (exists h, __init__ args categorical = Ok h) <->
  (categorical = false /\ (2 <= length args)%nat /\
   Forall (fun v => is_number v = true) args).
Proof.
  split.
  - intros [h Hh]. apply init_ok_inv in Hh. tauto.
  - intros (-> & Hlen & Hnum).
    destruct (init_numbers args Hlen Hnum) as (s & _ & Hs). eauto.
Qed.

Lemma X1_init_succeeds_iff_witness :
  exists h, __init__ [VFloat (3 # 2); VInt 1; VInt 7] false = Ok h.
Proof.
  apply (X1_init_succeeds_iff [VFloat (3 # 2); VInt 1; VInt 7] false).
  split; [reflexivity|]. split; [cbn; lia|]. repeat constructor.
Defined.

Lemma getitem_head {A : Type} (l : list A) (d : A) :
  l <> [] -> Py.getitem l 0 = Ok (List.hd d l).
Proof.
  intros Hl. destruct l as [|a l]; [contradiction|]. reflexivity.
Qed.

Lemma getitem_last {A : Type} (l : list A) (d : A) :
  l <> [] -> Py.getitem l (-1) = Ok (List.last l d).
Proof.
  intros Hl. destruct (exists_last Hl) as (l' & a & ->).
  rewrite last_last. unfold Py.getitem.
  rewrite length_app. cbn [length].
  change (-1 <? 0) with true. cbv iota.
  set (n := Z.of_nat (length l' + 1)).
  assert (Hn : n = Z.of_nat (length l') + 1) by (unfold n; lia).
  assert ((n + -1 <? 0) = false) as -> by (apply Z.ltb_ge; lia).
  assert ((n <=? n + -1) = false) as -> by (apply Z.leb_gt; lia).
  cbn [orb].
  replace (Z.to_nat (n + -1)) with (length l') by lia.
  rewrite nth_error_app2, Nat.sub_diag by lia. reflexivity.
Qed.

Lemma sorted_head_least (l : list value) :
  StronglySorted num_le l ->
  Forall (fun v => num_le (List.hd (VInt 0) l) v) l.
Proof.
  intros Hs. destruct Hs as [|y l Hs Hy]; cbn; [constructor|].
  constructor; [unfold num_le; lra|exact Hy].
Qed.

Lemma sorted_last_greatest (l : list value) :
  StronglySorted num_le l ->
  Forall (fun v => num_le v (List.last l (VInt 0))) l.
Proof.
  intros Hs. induction Hs as [|y l Hs IH Hy]; [constructor|].
  destruct l as [|z l]; cbn.
  - repeat constructor. unfold num_le. lra.
  - constructor; [|exact IH].
    rewrite List.Forall_forall in Hy. apply Hy.
    change (In (List.last (z :: l) (VInt 0)) (z :: l)).
    destruct (exists_last (l := z :: l)) as (l' & a & E); [discriminate|].
    rewrite E, last_last. apply in_or_app. right. left. reflexivity.
Qed.

Lemma init_wf_hp (args : list value) (c : bool) (h : Hyperparameter) :
  __init__ args c = Ok h ->
  wf_hp h /\ _value h = None /\ Permutation (_search_space h) args.
Proof.
  intros Hh.
  destruct (init_ok_inv args c h Hh) as (_ & Hlen & Hnum & Hs & Hc & Hv).
  destruct (py_sorted_numbers args Hnum) as (s & Hs' & Hperm & Hsorted).
  rewrite Hs in Hs'. injection Hs' as <-.
  split; [|split; assumption].
  split; [exact Hc| | |exact Hsorted].
  - intros E. rewrite E in Hperm. apply Permutation_nil in Hperm.
    subst args. cbn in Hlen. lia.
  - eapply Permutation_Forall; [symmetry; exact Hperm|exact Hnum].
Qed.

Lemma wf_lower (h : Hyperparameter) :
  wf_hp h ->
  get_lower_bound h = Ok (lower_of h) /\
  In (lower_of h) (_search_space h) /\
  Forall (fun v => num_le (lower_of h) v) (_search_space h).
Proof.
  intros [_ Hne _ Hs]. unfold get_lower_bound, lower_of.
  split; [apply getitem_head, Hne|]. split; [|apply sorted_head_least, Hs].
  destruct (_search_space h); [contradiction|left; reflexivity].
Qed.

Lemma wf_upper (h : Hyperparameter) :
  wf_hp h ->
  get_upper_bound h = Ok (upper_of h) /\
  In (upper_of h) (_search_space h) /\
  Forall (fun v => num_le v (upper_of h)) (_search_space h).
Proof.
  intros [_ Hne _ Hs]. unfold get_upper_bound, upper_of.
  split; [apply getitem_last, Hne|]. split; [|apply sorted_last_greatest, Hs].
  destruct (exists_last Hne) as (l' & a & ->).
  rewrite last_last. apply in_or_app. right. left. reflexivity.
Qed.

Lemma wf_bounds_numbers (h : Hyperparameter) :
  wf_hp h ->
  is_number (lower_of h) = true /\ is_number (upper_of h) = true /\
  num_le (lower_of h) (upper_of h).
Proof.
  intros Hwf.
  destruct (wf_lower h Hwf) as (_ & Hlo & Hle).
  destruct (wf_upper h Hwf) as (_ & Hhi & _).
  pose proof (wf_hp_numbers h Hwf) as Hnum.
  rewrite List.Forall_forall in Hnum, Hle. auto.
Qed.

(** X2: a freshly constructed Hyperparameter has no value yet, its search
    space is a rearrangement of the arguments, and its lower and upper
    bounds are arguments that bound every argument from below and from
    above. *)
Theorem X2_constructed_bounds (args : list value) (c : bool)
    (h : Hyperparameter) :
  __init__ args c = Ok h ->
  get_normalized h = None /\
  Permutation (_search_space h) args /\
  exists lo hi,
    get_lower_bound h = Ok lo /\ get_upper_bound h = Ok hi /\
    In lo args /\ In hi args /\
    Forall (fun v => num_le lo v /\ num_le v hi) args.
Proof.
  intros Hh. destruct (init_wf_hp args c h Hh) as (Hwf & Hv & Hperm).
  split; [exact Hv|]. split; [exact Hperm|].
  destruct (wf_lower h Hwf) as (Hlo & Hlo_in & Hlo_le).
  destruct (wf_upper h Hwf) as (Hhi & Hhi_in & Hhi_le).
  exists (lower_of h), (upper_of h).
  split; [exact Hlo|]. split; [exact Hhi|].
  split; [eapply Permutation_in; eassumption|].
  split; [eapply Permutation_in; eassumption|].
  eapply Permutation_Forall; [exact Hperm|].
  rewrite List.Forall_forall in Hlo_le, Hhi_le.
  apply List.Forall_forall. auto.
Qed.

Lemma X2_constructed_bounds_witness :
  get_normalized
    {| _search_space := [VInt 1; VFloat (3 # 2); VInt 7];
       is_categorical := false; _value := None |} = None /\
  Permutation [VInt 1; VFloat (3 # 2); VInt 7]
              [VFloat (3 # 2); VInt 7; VInt 1] /\
  exists lo hi,
    get_lower_bound {| _search_space := [VInt 1; VFloat (3 # 2); VInt 7];
                       is_categorical := false; _value := None |} = Ok lo /\
    get_upper_bound {| _search_space := [VInt 1; VFloat (3 # 2); VInt 7];
                       is_categorical := false; _value := None |} = Ok hi /\
    In lo [VFloat (3 # 2); VInt 7; VInt 1] /\
    In hi [VFloat (3 # 2); VInt 7; VInt 1] /\
    Forall (fun v => num_le lo v /\ num_le v hi)
           [VFloat (3 # 2); VInt 7; VInt 1].
Proof.
  apply (X2_constructed_bounds [VFloat (3 # 2); VInt 7; VInt 1] false).
  reflexivity.
Defined.

End HyperparameterConstruction.

(** ** Hyperparameter: values *)

Section HyperparameterValues.
Import Hyperparameters.


Lemma div_zero (x y : Q) : (y == 0)%Q -> div x y = Raise ZeroDivisionError.
Proof.
  intros Hy. unfold div.
  destruct (Qeq_bool y 0) eqn:E; [reflexivity|].
  apply Qeq_bool_neq in E. contradiction.
Qed.





Lemma example_float_hp_wf : wf_hp example_float_hp.
Proof.
  split; cbn; [reflexivity|discriminate|repeat constructor|].
  repeat (once constructor); unfold num_le, Qle; cbn; lia.
Qed.








Lemma denormalized_range (u lo hi : Q) :
  (lo <= hi)%Q -> (0 <= u <= 1)%Q ->
  let t := (lo + (u - 0) / (1 - 0) * (hi - lo))%Q in
  (t == lo + u * (hi - lo))%Q /\ (lo <= t <= hi)%Q.
Proof.
  intros Hle Hu t.
  assert (Ht : (t == lo + u * (hi - lo))%Q) by (unfold t; field).
  split; [exact Ht|]. rewrite Ht. nra.
Qed.

(** X6: the constructor does not sample a value, so [get_value] on a
    Hyperparameter that was built and never given one raises
    [TypeError]. *)
Theorem X6_get_value_before_set (args : list value) (c : bool)
    (h : Hyperparameter) :
  __init__ args c = Ok h -> get_value h = Raise TypeError.
Proof.
  intros Hh. destruct (init_wf_hp args c h Hh) as (Hwf & Hv & _).
  destruct (wf_lower h Hwf) as (Hlo & _).
  destruct (wf_bounds_numbers h Hwf) as (Hnlo & _).
  unfold get_value, stored. rewrite (wf_hp_continuous h Hwf), Hv.
  change (getitem (_search_space h) 0) with (get_lower_bound h).
  rewrite Hlo. cbn.
  destruct (lower_of h); cbn in *; try discriminate; reflexivity.
Qed.

Lemma X6_get_value_before_set_witness :
  get_value {| _search_space := [VInt 1; VFloat (3 # 2); VInt 7];
               is_categorical := false; _value := None |}
  = Raise TypeError.
Proof.
  apply (X6_get_value_before_set [VFloat (3 # 2); VInt 7; VInt 1] false).
  reflexivity.
Defined.




(** ** Hyperparameter: operators, update and the value dictionary *)

Lemma binary_range (op : Q -> Q -> result Q) (msg : string)
    (self : Hyperparameter) (other : Arithmetic.operand) (r : Q) :
  Arithmetic.binary op msg self other = Ok r -> (0 <= r <= 1)%Q.
Proof.
  unfold Arithmetic.binary. destruct other as [v|h].
  - destruct (is_number v); [|discriminate].
    destruct (as_number v) as [x|e]; [|discriminate]. cbn.
    destruct (_value self) as [u|]; [|discriminate].
    destruct (op x u) as [y|e]; [|discriminate]. cbn.
    intros [= <-]. apply clip_range. lra.
  - destruct (_value self) as [u1|]; [|discriminate].
    destruct (_value h) as [u2|]; [|discriminate].
    destruct (op u1 u2) as [y|e]; [|discriminate]. cbn.
    intros [= <-]. apply clip_range. lra.
Qed.

Lemma clip_float_real (y : Q) :
  Arithmetic.clip_float (Real y) (Real 0) (Real 1) = Real (clip y 0 1).
Proof.
  unfold Arithmetic.clip_float, clip, float_lt.
  destruct (Qltb y 0); [reflexivity|].
  destruct (Qltb 1 y); reflexivity.
Qed.

(** X8: a result of [+], [-], [*] or [__div__] on a Hyperparameter is a
    plain number in [0, 1], never a Hyperparameter and never outside the
    unit interval, when the operand is a finite number or a
    Hyperparameter. The float NaN passes the type test as well: on a
    finite operand the operators on floats that may be NaN are the ones
    above, and on NaN they return NaN, which [clip] lets through; only
    the division by a zero value raises first. *)
Theorem X8_operators_unit_interval (self : Hyperparameter) :
  (forall (other : Arithmetic.operand) (r : Q),
     Arithmetic.__add__ self other = Ok r \/
     Arithmetic.__sub__ self other = Ok r \/
     Arithmetic.__mul__ self other = Ok r \/
     Arithmetic.__div__ self other = Ok r ->
     (0 <= r <= 1)%Q) /\
  (forall x : Q,
     let number := Arithmetic.Number (VFloat x) in
     let lifted (r : result Q) : result float := y ← r; Ok (Real y) in
     Arithmetic.binary_float (Arithmetic.float_op Qplus) self (Real x)
     = lifted (Arithmetic.__add__ self number) /\
     Arithmetic.binary_float (Arithmetic.float_op Qminus) self (Real x)
     = lifted (Arithmetic.__sub__ self number) /\
     Arithmetic.binary_float (Arithmetic.float_op Qmult) self (Real x)
     = lifted (Arithmetic.__mul__ self number) /\
     Arithmetic.binary_float Arithmetic.float_div self (Real x)
     = lifted (Arithmetic.__div__ self number)) /\
  (forall u : Q,
     _value self = Some u ->
     Arithmetic.binary_float (Arithmetic.float_op Qplus) self NaN = Ok NaN /\
     Arithmetic.binary_float (Arithmetic.float_op Qminus) self NaN = Ok NaN /\
     Arithmetic.binary_float (Arithmetic.float_op Qmult) self NaN = Ok NaN /\
     (~ (u == 0)%Q ->
      Arithmetic.binary_float Arithmetic.float_div self NaN = Ok NaN) /\
     ((u == 0)%Q ->
      Arithmetic.binary_float Arithmetic.float_div self NaN
      = Raise ZeroDivisionError)).
Proof.
  split; [|split].
  - intros other r [H|[H|[H|H]]]; try (eapply binary_range; exact H).
    unfold Arithmetic.__div__ in H. destruct other; [|discriminate].
    eapply binary_range; exact H.
  - intros x number lifted.
    unfold lifted, number, Arithmetic.binary_float, Arithmetic.__add__,
      Arithmetic.__sub__, Arithmetic.__mul__, Arithmetic.__div__,
      Arithmetic.binary.
    cbn [is_number as_number mbind result_bind].
    destruct (_value self) as [u|]; [|repeat split; reflexivity].
    cbn -[clip Arithmetic.clip_float].
    rewrite !clip_float_real. repeat split; try reflexivity.
    unfold div. destruct (Qeq_bool u 0); [reflexivity|].
    cbn -[clip Arithmetic.clip_float]. rewrite clip_float_real. reflexivity.
  - intros u Hu. unfold Arithmetic.binary_float. rewrite Hu. cbn.
    repeat split.
    + intros Hnz. destruct (Qeq_bool u 0) eqn:E; [|reflexivity].
      apply Qeq_bool_iff in E. contradiction.
    + intros Hz. apply Qeq_bool_iff in Hz. rewrite Hz. reflexivity.
Qed.

Lemma X8_operators_unit_interval_witness :
  (0 <= 1 <= 1)%Q /\
  Arithmetic.binary_float (Arithmetic.float_op Qplus) example_float_hp NaN
  = Ok NaN.
Proof.
  destruct (X8_operators_unit_interval example_float_hp) as (Hnum & _ & Hnan).
  split.
  - apply (Hnum (Arithmetic.Number (VFloat (3 # 4))) 1%Q). left. reflexivity.
  - apply (proj1 (Hnan (1 # 2)%Q eq_refl)).
Defined.

(** X9: subtraction treats its two kinds of operand differently. With a
    number, [h - x] computes [x - h._value], so it is 0 whenever [x] is
    the smaller one; with another Hyperparameter, [h - g] computes
    [h._value - g._value]. *)
Theorem X9_subtraction_operand_order (self g : Hyperparameter) (u x : Q) :
  _value self = Some u -> _value g = Some x ->
  (0 <= x)%Q -> (x < u)%Q -> (u <= 1)%Q ->
  Arithmetic.__sub__ self (Arithmetic.Number (VFloat x)) = Ok 0%Q /\
  Arithmetic.__sub__ self (Arithmetic.Hyper g) = Ok (u - x)%Q.
Proof.
  intros Hu Hx H0 Hlt H1.
  unfold Arithmetic.__sub__, Arithmetic.binary. rewrite Hu, Hx. cbn.
  split.
  - destruct (clip_spec (x - u) 0 1) as [[Hc ->]|[[Hc ->]|[Hc ->]]];
      [lra|reflexivity|lra|lra].
  - destruct (clip_spec (u - x) 0 1) as [[Hc ->]|[[Hc ->]|[Hc ->]]];
      [lra|lra|lra|].
    destruct (clip_spec (u - x) 0 1) as [[Hc' ->]|[[Hc' ->]|[Hc' ->]]];
      [lra|lra|lra|reflexivity].
Qed.

Lemma X9_subtraction_operand_order_witness :
  Arithmetic.__sub__ example_float_hp (Arithmetic.Number (VFloat (1 # 4)))
    = Ok 0%Q /\
  Arithmetic.__sub__ example_float_hp
    (Arithmetic.Hyper (with_value example_int_hp (1 # 4)))
    = Ok ((1 # 2) - (1 # 4))%Q.
Proof.
  apply (X9_subtraction_operand_order example_float_hp
           (with_value example_int_hp (1 # 4)) (1 # 2) (1 # 4));
    reflexivity || discriminate.
Defined.



(** X12: [hyperparameters_to_value_dict] has exactly the keys of its
    argument, each bound to the normalized value of its
    Hyperparameter. *)
Theorem X12_value_dict_lookup (d : gmap string Hyperparameter)
    (name : string) :
  hyperparameters_to_value_dict d !! name = _value <$> (d !! name).
Proof.
  unfold hyperparameters_to_value_dict.
  apply (map_fold_weak_ind
           (fun r m => r !! name = _value <$> (m !! name))).
  - rewrite !lookup_empty. reflexivity.
  - intros k h m r Hk IH.
    destruct (decide (k = name)) as [->|Hne].
    + rewrite !lookup_insert_eq. reflexivity.
    + rewrite !lookup_insert_ne by exact Hne. exact IH.
Qed.

End HyperparameterValues.

(** ** Hyperparameter: the round trip in float arithmetic *)

Section RoundingFacts.
Import Float.

Variable fl : Q -> Q.
Hypothesis Hfl : Rounding fl.





Lemma fl_pos (x : Q) : (0 < x)%Q -> (0 < fl x)%Q.
Proof.
  intros Hx. pose proof (fl_error fl Hfl x) as He.
  rewrite (Qabs_pos x) in He by lra.
  apply Qabs_Qle_condition in He as [He _].
  assert (H53 : ((1 # 2 ^ 53) * x <= (1 # 2) * x)%Q).
  { apply Qmult_le_compat_r; [discriminate|lra]. }
  lra.
Qed.



(** A value equal to a float is a float. *)
Lemma fl_fixed (x y : Q) : (y == fl x)%Q -> (fl y == y)%Q.
Proof.
  intros H. rewrite (fl_proper fl Hfl y (fl x) H), H. apply (fl_idem fl Hfl).
Qed.

End RoundingFacts.

Section RoundTrip.
Import Hyperparameters.
Import Float.

Variable fl : Q -> Q.
Hypothesis Hfl : Rounding fl.




End RoundTrip.

Section RoundTripClaim.
Import Hyperparameters.
Import Float.

Variable fl : Q -> Q.
Hypothesis Hfl : Rounding fl.










End RoundTripClaim.

Section RoundTripExamples.
Import Hyperparameters.
Import Float.



End RoundTripExamples.

(** ** Hyperparameter: values in float arithmetic *)

Section FloatValues.
Import Hyperparameters.
Import Float.

Variable fl : Q -> Q.
Hypothesis Hfl : Rounding fl.

Lemma sub_numbers (x y : value) :
  is_number x = true -> is_number y = true ->
  exists d : value,
    Rounded.sub fl x y = Ok d /\ is_number d = true /\
    Rounded.to_float fl d = Ok (span_of fl x y).
Proof.
  destruct x as [m|p|?], y as [n|q|?]; try discriminate; intros _ _;
    eexists; (split; [reflexivity|]); split; reflexivity.
Qed.

Lemma to_float_number (v : value) :
  is_number v = true -> Rounded.to_float fl v = Ok (float_of fl v).
Proof. destruct v; try discriminate; reflexivity. Qed.










(** The span as a rounded difference of the numbers, whatever their
    kinds. *)
Lemma span_of_num (x y : value) :
  representable fl x -> representable fl y ->
  (span_of fl x y == fl (num_of x - num_of y))%Q.
Proof.
  intros Hx Hy.
  destruct x as [m|p|?], y as [n|q|?]; cbn in *; try contradiction.
  - unfold Z.sub. rewrite inject_Z_plus, inject_Z_opp. reflexivity.
  - rewrite (fl_int fl Hfl m Hx). reflexivity.
  - rewrite (fl_int fl Hfl n Hy). reflexivity.
  - reflexivity.
Qed.


Lemma span_pos (x y : value) :
  representable fl x -> representable fl y ->
  (num_of y < num_of x)%Q -> (0 < span_of fl x y)%Q.
Proof.
  intros Hx Hy Hle. rewrite span_of_num by auto.
  apply fl_pos; [exact Hfl|lra].
Qed.

Lemma span_mono (x x' y : value) :
  representable fl x -> representable fl x' -> representable fl y ->
  (num_of x <= num_of x')%Q -> (span_of fl x y <= span_of fl x' y)%Q.
Proof.
  intros Hx Hx' Hy Hle. rewrite !span_of_num by auto.
  apply (fl_mono fl Hfl). lra.
Qed.














End FloatValues.

Section FloatValueExamples.
Import Hyperparameters.
Import Float.



(** On the floats 0.3 and 0.9 the span is not a float, and the value at
    the upper end is the float after 0.9. *)
Lemma upper_end_overshoot :
  exists r : Q,
    Rounded.get_value binary64 example_binary_hp = Ok (VFloat r) /\
    (r == top_of binary64 example_binary_hp)%Q /\
    (num_of (upper_of example_binary_hp) < r)%Q /\
    ~ (binary64 (num_of (upper_of example_binary_hp)
                 - num_of (lower_of example_binary_hp))
       == num_of (upper_of example_binary_hp)
          - num_of (lower_of example_binary_hp))%Q.
Proof.
  eexists. split; [vm_compute; reflexivity|].
  split; [vm_compute; reflexivity|].
  split; [vm_compute; reflexivity|]. vm_compute. discriminate.
Qed.


(** Beyond [2 ^ 53] an integer is not a float, and the round trip loses
    it. *)
Lemma integer_round_trip_beyond_the_floats :
  Rounded.roundtrip_values binary64 (VInt 0) (VInt (2 ^ 60))
    (VInt (2 ^ 53 + 1))
  = Ok (VInt (2 ^ 53)).
Proof. vm_compute. reflexivity. Qed.


End FloatValueExamples.

(** ** The Lehmer mean and the historical memory *)

Section MemoryExtras.
Import Evolution.
Import HistoricalMemory.

Lemma weighted_terms_zero (W : Q) (ws : list (Q * Q)) :
  Forall (fun p => snd p == 0)%Q ws ->
  (Qsum (map (fun p => fst p / W * snd p) ws) == 0)%Q.
Proof.
  intros Hall. unfold Qsum.
  induction Hall as [|[w s] ws Hs Hr IH]; cbn [map fold_right fst snd] in *.
  - reflexivity.
  - rewrite IH, Hs. ring.
Qed.

Lemma combine_zero (weights S : list Q) :
  Forall (fun s => s == 0)%Q S ->
  Forall (fun p => snd p == 0)%Q (combine weights S).
Proof.
  intros HS. revert weights.
  induction HS as [|s S Hs HS IH]; intros [|w ws]; cbn; constructor; auto.
Qed.

Lemma mean_wl_zero (S weights : list Q) :
  (length S <= length weights)%nat ->
  Forall (fun w => 0 < w)%Q weights ->
  Forall (fun s => s == 0)%Q S ->
  mean_wl S weights = Raise ZeroDivisionError.
Proof.
  intros Hlen Hw HS.
  destruct weights as [|w0 ws].
  { destruct S; [reflexivity|cbn in Hlen; lia]. }
  pose proof (Qsum_pos (w0 :: ws) ltac:(discriminate) Hw) as HWpos.
  assert (HW : ~ (fold_left Qplus (w0 :: ws) 0 == 0)%Q).
  { rewrite fold_left_Qplus. lra. }
  destruct (weighted_sum_spec (fun s => s ^ 2)%Q (w0 :: ws) S HW []
              (w0 :: ws) 0%Q) as (A & HA & HAeq); [reflexivity|lia|].
  destruct (weighted_sum_spec (fun s => s) (w0 :: ws) S HW []
              (w0 :: ws) 0%Q) as (B & HB & HBeq); [reflexivity|lia|].
  change (Z.of_nat (length (@nil Q))) with 0 in HA, HB.
  unfold mean_wl. rewrite HA. cbn -[weighted_sum]. rewrite HB.
  cbn -[weighted_sum]. apply div_zero.
  rewrite HBeq, (weighted_terms_zero _ _ (combine_zero (w0 :: ws) S HS)).
  ring.
Qed.

(** X14: [mean_wl] divides by the weighted sum of the samples, so it
    raises [ZeroDivisionError] whenever every sample is zero, the empty
    sample list included, however positive the weights. *)
Theorem X14_mean_wl_zero_samples (S weights : list Q) :
  (length S <= length weights)%nat ->
  Forall (fun w => 0 < w)%Q weights ->
  Forall (fun s => s == 0)%Q S ->
  mean_wl S weights = Raise ZeroDivisionError.
Proof. apply mean_wl_zero. Qed.

Lemma X14_mean_wl_zero_samples_witness :
  mean_wl [0%Q; 0%Q] [1 # 10; 2 # 10; 1 # 10] = Raise ZeroDivisionError.
Proof.
  apply (X14_mean_wl_zero_samples [0%Q; 0%Q] [1 # 10; 2 # 10; 1 # 10]).
  - cbn. lia.
  - repeat (once constructor); reflexivity.
  - repeat (once constructor); reflexivity.
Defined.

Lemma update_unfold (h : HistoricalMemory.t) :
  wf h -> weights h <> [] ->
  update h =
    match next_m_cr h with
    | Raise e => (Raise e, h)
    | Ok cr =>
        match mean_wl (s_f h) (weights h) with
        | Ok vf => (Ok tt, updated h cr vf)
        | Raise e => (Raise e, cr_written h cr)
        end
    end.
Proof.
  intros Hwf Hw. destruct Hwf.
  assert (Hcr_ne : s_cr h <> []).
  { intros E. rewrite E in wf_s_cr0. destruct (weights h);
      [contradiction|discriminate]. }
  assert (Hf_ne : s_f h <> []).
  { intros E. rewrite E in wf_s_f0. destruct (weights h);
      [contradiction|discriminate]. }
  destruct (getitem_in_range (m_cr h) (k h)) as (c & Hget & Hnth); [lia|].
  assert (Hlook : m_cr h !! Z.to_nat (k h) = Some c).
  { rewrite <- Hnth. clear. generalize (Z.to_nat (k h)).
    induction (m_cr h) as [|x l IH]; intros [|n]; cbn; auto. }
  assert (Hempty : is_empty (s_cr h) || is_empty (s_f h)
                   || is_empty (weights h) = false).
  { destruct (s_cr h), (s_f h), (weights h); try contradiction.
    reflexivity. }
  assert (Hstep : forall cr : option Q,
             (v <- lift (mean_wl (s_f h) (weights h)) ;;
              set_m_f v ;;;
              set_k (if size h - 1 <=? k h then 0 else k h + 1))%py
               (cr_written h cr)
             = match mean_wl (s_f h) (weights h) with
               | Ok vf => (Ok tt, updated h cr vf)
               | Raise e => (Raise e, cr_written h cr)
               end).
  { intros cr. unfold bind, lift, set_m_f, set_k, get, put.
    destruct (mean_wl (s_f h) (weights h)) as [vf|e]; [|reflexivity].
    cbn. unfold bind, lift. cbn.
    rewrite store_in_range by lia. cbn.
    rewrite next_k by lia. reflexivity. }
  assert (Hset : forall cr : option Q,
             set_m_cr cr h = (Ok tt, cr_written h cr)).
  { intros cr. unfold set_m_cr, bind, lift, get, put. cbn.
    rewrite store_in_range by lia. reflexivity. }
  unfold next_m_cr. rewrite Hlook.
  unfold update. unfold bind at 1, get at 1. rewrite Hempty.
  unfold bind at 1, lift at 1. rewrite Hget.
  destruct c as [c|].
  - destruct (Qeq_bool (max (s_cr h)) 0) eqn:Hmax.
    + unfold bind at 1. rewrite Hset, Hstep. reflexivity.
    + unfold bind at 1, bind at 1, lift at 1.
      destruct (mean_wl (s_cr h) (weights h)) as [v|e]; [|reflexivity].
      rewrite Hset, Hstep. reflexivity.
  - unfold bind at 1. rewrite Hset, Hstep. reflexivity.
Qed.

Lemma next_m_cr_ok (h : HistoricalMemory.t) :
  wf h -> weights h <> [] -> exists cr, next_m_cr h = Ok cr.
Proof.
  intros Hwf Hw. unfold next_m_cr.
  destruct (m_cr h !! Z.to_nat (k h)) as [[c|]|]; eauto.
  destruct (Qeq_bool (max (s_cr h)) 0) eqn:Hmax; eauto.
  destruct Hwf.
  assert (Hcr_ne : s_cr h <> []).
  { intros E. rewrite E in wf_s_cr0. destruct (weights h);
      [contradiction|discriminate]. }
  destruct (mean_wl_lehmer (s_cr h) (weights h)) as (v & Hv & _);
    try assumption.
  { apply max_nonzero; assumption. }
  rewrite Hv. cbn. eauto.
Qed.

(** What the first assignment of [update] writes at [m_cr[k]]. *)
Lemma next_m_cr_spec (h : HistoricalMemory.t) :
  wf h -> weights h <> [] ->
  exists cr : option Q,
    next_m_cr h = Ok cr /\
    (m_cr h !! Z.to_nat (k h) = Some None \/ (max (s_cr h) == 0)%Q ->
     cr = None) /\
    (forall c, m_cr h !! Z.to_nat (k h) = Some (Some c) ->
               ~ (max (s_cr h) == 0)%Q ->
               exists v, cr = Some v /\
                         (v == lehmer_mean (s_cr h) (weights h))%Q).
Proof.
  intros Hwf Hw. unfold next_m_cr.
  destruct (getitem_in_range (m_cr h) (k h)) as (c0 & _ & Hnth).
  { destruct Hwf. lia. }
  assert (Hlook : m_cr h !! Z.to_nat (k h) = Some c0).
  { rewrite <- Hnth. clear. generalize (Z.to_nat (k h)).
    induction (m_cr h) as [|x l IH]; intros [|n]; cbn; auto. }
  rewrite Hlook. destruct c0 as [c0|].
  - destruct (Qeq_bool (max (s_cr h)) 0) eqn:Hmax.
    + exists None. split; [reflexivity|]. split; [auto|].
      intros c _ Hnz. apply Qeq_bool_iff in Hmax. contradiction.
    + destruct Hwf.
      assert (Hcr_ne : s_cr h <> []).
      { intros E. rewrite E in wf_s_cr0. destruct (weights h);
          [contradiction|discriminate]. }
      destruct (mean_wl_lehmer (s_cr h) (weights h)) as (v & Hv & Heq);
        try assumption.
      { apply max_nonzero; assumption. }
      rewrite Hv. exists (Some v). split; [reflexivity|]. split.
      * intros [Hn | Hz]; [discriminate|].
        apply Qeq_bool_neq in Hmax. contradiction.
      * intros c _ _. eauto.
  - exists None. split; [reflexivity|]. split; [auto|].
    intros c Hc. discriminate.
Qed.

Lemma nonneg_not_positive (l : list Q) :
  Forall (fun f => 0 <= f)%Q l -> ~ Exists (fun f => 0 < f)%Q l ->
  Forall (fun f => f == 0)%Q l.
Proof.
  induction 1 as [|x l Hx Hl IH]; intros Hno; constructor.
  - destruct (Qlt_le_dec 0 x) as [Hlt|Hle].
    + exfalso. apply Hno. left. exact Hlt.
    + apply Qle_antisym; assumption.
  - apply IH. intros Hex. apply Hno. right. exact Hex.
Qed.

(** C6, amended: without samples since the last reset [update] changes
    nothing, the cursor included. With samples, the memory being well
    formed, there are two cases. When some recorded [F_i] is positive,
    [update] writes the weighted Lehmer mean of [S_F] at [M_F[k]]; at
    [M_CR[k]] it writes [None] when that entry was [None] already or
    [max(S_CR) == 0] and the weighted Lehmer mean of [S_CR] otherwise;
    and it moves the cursor to [(k + 1) mod H]. When no recorded [F_i] is
    positive (all are zero, which [record] accepts), the mean of [S_F]
    divides by zero: [update] raises [ZeroDivisionError] after it has
    written [M_CR[k]] as above, and [M_F] and the cursor stay as they
    were. Nothing else changes in either case. *)
Theorem C6_update (h : HistoricalMemory.t) :
  (no_samples h -> update h = (Ok tt, h)) /\
  (wf h -> weights h <> [] -> Exists (fun f => 0 < f)%Q (s_f h) ->
   exists (h' : HistoricalMemory.t) (cr : option Q) (vf : Q),
     update h = (Ok tt, h') /\
     m_f h' = <[Z.to_nat (k h) := vf]> (m_f h) /\
     (vf == lehmer_mean (s_f h) (weights h))%Q /\
     m_cr h' = <[Z.to_nat (k h) := cr]> (m_cr h) /\
     (m_cr h !! Z.to_nat (k h) = Some None \/ (max (s_cr h) == 0)%Q ->
      cr = None) /\
     (forall c, m_cr h !! Z.to_nat (k h) = Some (Some c) ->
                ~ (max (s_cr h) == 0)%Q ->
                exists v, cr = Some v /\
                          (v == lehmer_mean (s_cr h) (weights h))%Q) /\
     k h' = (k h + 1) mod size h /\
     size h' = size h /\ s_cr h' = s_cr h /\ s_f h' = s_f h /\
     weights h' = weights h) /\
  (wf h -> weights h <> [] -> ~ Exists (fun f => 0 < f)%Q (s_f h) ->
   exists (h' : HistoricalMemory.t) (cr : option Q),
     update h = (Raise ZeroDivisionError, h') /\
     m_f h' = m_f h /\
     k h' = k h /\
     m_cr h' = <[Z.to_nat (k h) := cr]> (m_cr h) /\
     (m_cr h !! Z.to_nat (k h) = Some None \/ (max (s_cr h) == 0)%Q ->
      cr = None) /\
     (forall c, m_cr h !! Z.to_nat (k h) = Some (Some c) ->
                ~ (max (s_cr h) == 0)%Q ->
                exists v, cr = Some v /\
                          (v == lehmer_mean (s_cr h) (weights h))%Q) /\
     size h' = size h /\ s_cr h' = s_cr h /\ s_f h' = s_f h /\
     weights h' = weights h).
Proof.
  split; [apply update_no_samples|]. split.
  - intros Hwf Hw Hex.
    destruct (next_m_cr_spec h Hwf Hw) as (cr & Hcr & Hnone & Hsome).
    destruct (mean_wl_lehmer (s_f h) (weights h)) as (vf & Hvf & Heq);
      try apply Hwf; try exact Hex.
    exists (updated h cr vf), cr, vf.
    rewrite (update_unfold h Hwf Hw), Hcr, Hvf.
    repeat split; try reflexivity; assumption.
  - intros Hwf Hw Hno.
    destruct (next_m_cr_spec h Hwf Hw) as (cr & Hcr & Hnone & Hsome).
    exists (cr_written h cr), cr.
    rewrite (update_unfold h Hwf Hw), Hcr.
    rewrite mean_wl_zero.
    + repeat split; try reflexivity; assumption.
    + rewrite (wf_s_f h Hwf). lia.
    + exact (wf_weights h Hwf).
    + apply nonneg_not_positive; [exact (wf_f_nonneg h Hwf)|exact Hno].
Qed.

Lemma example_memory_cr_wf : wf example_memory_cr.
Proof.
  split; cbn; try lia; try reflexivity;
    repeat (once constructor); reflexivity || discriminate.
Qed.

Lemma C6_update_witness :
  exists (h' : HistoricalMemory.t) (v vf : Q),
    update example_memory_cr = (Ok tt, h') /\
    m_cr h' = [Some v; Some (1 # 2)] /\ (v == 3 # 8)%Q /\
    m_f h' = [vf; 1 # 2] /\ (vf == 59 # 130)%Q /\
    k h' = 1.
Proof.
  destruct (C6_update example_memory_cr) as (_ & H & _).
  destruct (H example_memory_cr_wf)
    as (h' & cr & vf & Hup & Hmf & Hvf & Hmcr & _ & Hsome & Hk & _).
  - discriminate.
  - apply Exists_cons_hd. reflexivity.
  - destruct (Hsome (1 # 2) eq_refl) as (v & -> & Hv).
    + vm_compute. discriminate.
    + exists h', v, vf. split; [exact Hup|].
      split; [rewrite Hmcr; reflexivity|].
      split; [rewrite Hv; vm_compute; reflexivity|].
      split; [rewrite Hmf; reflexivity|].
      split; [rewrite Hvf; vm_compute; reflexivity|].
      rewrite Hk. reflexivity.
Defined.

(** Samples were recorded, two of them, each accepted by [record] with
    [F_i = 0]; yet [update] raises, [M_F[k]] is not set and the cursor
    does not advance. *)
Lemma C6_counterexample :
  let h0 := {| size := 2; m_cr := [None; Some (1 # 2)];
               m_f := [1 # 2; 1 # 2];
               s_cr := []; s_f := []; weights := []; k := 1 |} in
  let h1 := snd (record (1 # 2) 0 (Real (1 # 10)) h0) in
  let h := snd (record (1 # 4) 0 (Real (2 # 10)) h1) in
  fst (record (1 # 2) 0 (Real (1 # 10)) h0) = Ok tt /\
  fst (record (1 # 4) 0 (Real (2 # 10)) h1) = Ok tt /\
  h = example_memory_zero_F /\
  ~ no_samples h /\
  fst (update h) = Raise ZeroDivisionError /\
  m_f (snd (update h)) = m_f h /\
  k (snd (update h)) = k h /\
  k h <> (k h + 1) mod size h.
Proof.
  cbv zeta. split; [reflexivity|]. split; [reflexivity|].
  split; [reflexivity|]. split.
  - intros [H | [H | H]]; discriminate.
  - repeat split; try (vm_compute; reflexivity). discriminate.
Qed.

(** X15: when samples were recorded and every recorded [F] is zero,
    [update] raises [ZeroDivisionError] half-way: the entry of [m_cr] at
    the cursor has been overwritten already, while [m_f] and the cursor
    are as before. *)
Theorem X15_update_zero_F (h : HistoricalMemory.t) :
  wf h -> weights h <> [] -> Forall (fun f => f == 0)%Q (s_f h) ->
  exists cr : option Q,
    next_m_cr h = Ok cr /\
    update h = (Raise ZeroDivisionError, cr_written h cr).
Proof.
  intros Hwf Hw Hzero.
  destruct (next_m_cr_ok h Hwf Hw) as [cr Hcr].
  exists cr. split; [exact Hcr|].
  rewrite (update_unfold h Hwf Hw), Hcr.
  rewrite mean_wl_zero; [reflexivity| | |exact Hzero].
  - rewrite (wf_s_f h Hwf). lia.
  - exact (wf_weights h Hwf).
Qed.

Lemma example_memory_zero_F_wf : wf example_memory_zero_F.
Proof.
  split; cbn; try lia; try reflexivity;
    repeat (once constructor); reflexivity || discriminate.
Qed.

Lemma X15_update_zero_F_witness :
  exists cr : option Q,
    next_m_cr example_memory_zero_F = Ok cr /\
    update example_memory_zero_F
    = (Raise ZeroDivisionError, cr_written example_memory_zero_F cr).
Proof.
  apply (X15_update_zero_F example_memory_zero_F).
  - exact example_memory_zero_F_wf.
  - discriminate.
  - repeat (once constructor); reflexivity.
Defined.

(** X16: [record] accepts a sample exactly when [0 <= cr_i <= 1] and
    [0 <= f_i]; a refused sample raises [AssertionError] and leaves the
    three buffers as they were. *)
Theorem X16_record_accepts_iff (cr_i f_i : Q) (d : float)
    (h : HistoricalMemory.t) :
  (fst (record cr_i f_i d h) = Ok tt <->
   (0 <= cr_i <= 1)%Q /\ (0 <= f_i)%Q) /\
  (forall e : exn,
     fst (record cr_i f_i d h) = Raise e ->
     snd (record cr_i f_i d h) = h /\
     (e = AssertionError msg_cr \/ e = AssertionError msg_f)).
Proof.
  unfold record, bind, lift, get, put, assert.
  destruct (Qle_bool 0 cr_i) eqn:E0; cbn.
  - destruct (Qle_bool cr_i 1) eqn:E1; cbn.
    + destruct (Qle_bool 0 f_i) eqn:Ef; cbn.
      * apply Qle_bool_iff in E0, E1, Ef. split; [tauto|discriminate].
      * split.
        -- split; [discriminate|]. intros [_ Hf].
           apply Qle_bool_iff in Hf. congruence.
        -- intros e [= <-]. auto.
    + split.
      * split; [discriminate|]. intros [[_ Hc] _].
        apply Qle_bool_iff in Hc. congruence.
      * intros e [= <-]. auto.
  - split.
    + split; [discriminate|]. intros [[Hc _] _].
      apply Qle_bool_iff in Hc. congruence.
    + intros e [= <-]. auto.
Qed.

Lemma X16_record_accepts_iff_witness :
  fst (record (1 # 2) (3 # 10) (Real (1 # 5)) example_memory) = Ok tt <->
  (0 <= 1 # 2 <= 1)%Q /\ (0 <= 3 # 10)%Q.
Proof.
  apply (proj1 (X16_record_accepts_iff (1 # 2) (3 # 10) (Real (1 # 5))
                  example_memory)).
Defined.

(** X17: [None] is final in [m_cr]. Whatever [update] does, and whether
    it returns or raises, an entry of [m_cr] that is [None] before the
    call is [None] after it. *)
Theorem X17_none_is_final (h h' : HistoricalMemory.t) (r : result unit)
    (i : nat) :
  wf h -> update h = (r, h') ->
  m_cr h !! i = Some None -> m_cr h' !! i = Some None.
Proof.
  intros Hwf Hup Hnone.
  destruct (weights h) as [|w0 ws] eqn:Hw.
  { rewrite update_no_samples in Hup by (right; right; exact Hw).
    injection Hup as _ <-. exact Hnone. }
  rewrite update_unfold in Hup by (try rewrite Hw; auto; discriminate).
  assert (Hins : forall cr,
             next_m_cr h = Ok cr ->
             <[Z.to_nat (k h) := cr]> (m_cr h) !! i = Some None).
  { intros cr Hcr. destruct (decide (Z.to_nat (k h) = i)) as [<-|Hne].
    - unfold next_m_cr in Hcr. rewrite Hnone in Hcr.
      injection Hcr as <-.
      apply list_lookup_insert_eq. eapply lookup_lt_Some. exact Hnone.
    - rewrite list_lookup_insert_ne by exact Hne. exact Hnone. }
  destruct (next_m_cr h) as [cr|e].
  - destruct (mean_wl (s_f h) (weights h)) as [vf|e];
      injection Hup as _ <-; cbn; apply Hins; reflexivity.
  - injection Hup as _ <-. exact Hnone.
Qed.

Lemma X17_none_is_final_witness :
  m_cr (snd (update example_memory_zero_F)) !! 0%nat = Some None.
Proof.
  apply (X17_none_is_final example_memory_zero_F
           (snd (update example_memory_zero_F))
           (fst (update example_memory_zero_F)) 0%nat).
  - exact example_memory_zero_F_wf.
  - apply surjective_pairing.
  - reflexivity.
Defined.

End MemoryExtras.

(** ** SHADE: control parameters, mutation and selection *)

Section SHADEExtras.
Import Evolution.

Lemma kf_ret {S T A : Type} (a : A) : keeps_fst (@ret (S * T) A a).
Proof. intros st. reflexivity. Qed.

Lemma kf_raise {S T A : Type} (e : exn) : keeps_fst (@raise (S * T) A e).
Proof. intros st. reflexivity. Qed.

Lemma kf_lift {S T A : Type} (r : result A) : keeps_fst (@lift (S * T) A r).
Proof. intros st. reflexivity. Qed.

Lemma kf_get {S T : Type} : keeps_fst (@on_fst S T S get).
Proof. intros st. reflexivity. Qed.

Lemma kf_on_snd {S T A : Type} (m : M T A) : keeps_fst (@on_snd S T A m).
Proof. intros st. unfold on_snd. destruct (m (snd st)). reflexivity. Qed.

Lemma kf_bind {S T A B : Type} (m : M (S * T) A) (f : A -> M (S * T) B) :
  keeps_fst m -> (forall a, keeps_fst (f a)) -> keeps_fst (bind m f).
Proof.
  intros Hm Hf st. unfold bind. specialize (Hm st).
  destruct (m st) as [[a|e] st1]; cbn in *; [|exact Hm].
  rewrite (Hf a st1). exact Hm.
Qed.

Ltac kf_step :=
  repeat first
    [ apply kf_ret | apply kf_raise | apply kf_lift | apply kf_get
    | apply kf_on_snd | (apply kf_bind; [|intros]) ].

Lemma kf_get_control_parameters : keeps_fst SHADE.get_control_parameters.
Proof.
  unfold SHADE.get_control_parameters. kf_step;
    match goal with
    | |- keeps_fst (match ?x with _ => _ end) => destruct x; kf_step
    end.
Qed.

(** X18: [SHADE(...)] is constructed exactly when [N_INIT >= 4],
    [f_min >= 0], [f_max > 0] and [f_min <= f_max]. The object starts
    with an empty archive, no control parameters, and every memory slot
    at [(f_max - f_min) / 2]: never above [F_MAX], but below [F_MIN]
    unless [3 * f_min <= f_max]. *)
Theorem X18_shade_init (N_INIT : Z) (r_arc p : Q) (memory_size : Z)
    (f_min f_max : Q) (sharing : bool) :
  ((exists self,
      SHADE.__init__ N_INIT r_arc p memory_size f_min f_max sharing
      = Ok self) <->
   (4 <= N_INIT /\ (0 <= f_min)%Q /\ (0 < f_max)%Q /\ (f_min <= f_max)%Q))
  /\
  (forall self,
     SHADE.__init__ N_INIT r_arc p memory_size f_min f_max sharing
     = Ok self ->
     ExternalArchive.items (SHADE.archive self) = [] /\
     SHADE.CR self = ∅ /\ SHADE.F self = ∅ /\
     HistoricalMemory.m_f (SHADE.memory self)
     = repeat ((f_max - f_min) / 2)%Q (Z.to_nat memory_size) /\
     HistoricalMemory.m_cr (SHADE.memory self)
     = repeat (Some ((f_max - f_min) / 2)%Q) (Z.to_nat memory_size) /\
     ((f_max - f_min) / 2 <= SHADE.F_MAX self)%Q /\
     ((SHADE.F_MIN self <= (f_max - f_min) / 2)%Q <->
      (3 * f_min <= f_max)%Q)).
Proof.
  unfold SHADE.__init__.
  destruct (N_INIT <? 4) eqn:EN.
  { split; [|discriminate]. split; [intros [? [=]]|lia]. }
  destruct (Qltb f_min 0) eqn:E1.
  { apply Qltb_lt in E1. split; [|discriminate].
    split; [intros [? [=]]|]. intros (_ & H & _). lra. }
  destruct (Qle_bool f_max 0) eqn:E2.
  { apply Qle_bool_iff in E2. split; [|discriminate].
    split; [intros [? [=]]|]. intros (_ & _ & H & _). lra. }
  destruct (Qltb f_max f_min) eqn:E3.
  { apply Qltb_lt in E3. split; [|discriminate].
    split; [intros [? [=]]|]. intros (_ & _ & _ & H). lra. }
  apply Qltb_ge in E1, E3.
  assert (H2 : (0 < f_max)%Q).
  { apply Qnot_le_lt. intros H. apply Qle_bool_iff in H. congruence. }
  split.
  - split; [|eauto]. intros _. repeat split; (lia || assumption).
  - intros self [= <-]. cbn.
    repeat (split; [reflexivity|]).
    assert (Hhalf : ((f_max - f_min) / 2 == (f_max - f_min) * (1 # 2))%Q)
      by field.
    rewrite Hhalf. split; [lra|]. split; intros H; lra.
Qed.

Lemma X18_shade_init_witness :
  (exists self, SHADE.__init__ 20 2 (1 # 10) 5 (1 # 2) 1 false = Ok self) <->
  (4 <= 20 /\ (0 <= 1 # 2)%Q /\ (0 < 1)%Q /\ (1 # 2 <= 1)%Q).
Proof.
  apply (proj1 (X18_shade_init 20 2 (1 # 10) 5 (1 # 2) 1 false)).
Defined.

Lemma lookup_nth_error {A : Type} (l : list A) (n : nat) :
  l !! n = nth_error l n.
Proof. revert n. induction l as [|x l IH]; intros [|n]; cbn; auto. Qed.

Lemma getitem_lookup {A : Type} (l : list A) (n : nat) (x : A) :
  l !! n = Some x -> Py.getitem l (Z.of_nat n) = Ok x.
Proof.
  intros Hl. pose proof (lookup_lt_Some _ _ _ Hl) as Hlt.
  destruct (getitem_in_range l (Z.of_nat n)) as (y & Hy & Hnth); [lia|].
  rewrite Nat2Z.id, <- lookup_nth_error, Hl in Hnth.
  injection Hnth as <-. exact Hy.
Qed.

(** X19: [get_control_parameters] cannot use a memory slot whose
    [M_CR] is [None]: the assertion calls [math.isnan] on it, which is a
    [TypeError]. The draw of the slot is consumed, nothing else
    changes. *)
Theorem X19_control_parameters_none_slot (self : SHADE.t) (r : nat)
    (t : list nat) (rs : list Q) :
  wf (SHADE.memory self) ->
  HistoricalMemory.m_cr (SHADE.memory self)
    !! Z.to_nat (Z.of_nat r mod HistoricalMemory.size (SHADE.memory self))
  = Some None ->
  SHADE.get_control_parameters (self, {| ints := r :: t; reals := rs |})
  = (Raise TypeError, (self, {| ints := t; reals := rs |})).
Proof.
  intros Hwf Hnone. destruct Hwf.
  set (H := HistoricalMemory.size (SHADE.memory self)) in *.
  assert (HH : 0 < H) by lia.
  pose proof (Z.mod_pos_bound (Z.of_nat r) H HH) as Hr.
  set (r1 := Z.of_nat r mod H) in *.
  destruct (getitem_in_range (HistoricalMemory.m_f (SHADE.memory self)) r1)
    as (mf & Hmf & _); [lia|].
  assert (Hcr : Py.getitem (HistoricalMemory.m_cr (SHADE.memory self)) r1
                = Ok None).
  { rewrite <- (Z2Nat.id r1) by lia. apply getitem_lookup. exact Hnone. }
  unfold SHADE.get_control_parameters.
  unfold bind at 1, on_fst at 1, get at 1. cbn [fst snd].
  unfold bind at 1, on_snd at 1. cbn [fst snd].
  fold H. rewrite (randrange_draw H r t rs HH). fold r1.
  unfold bind at 1, lift at 1. rewrite Hmf.
  unfold bind at 1, lift at 1. rewrite Hcr.
  reflexivity.
Qed.

Lemma X19_control_parameters_none_slot_witness :
  SHADE.get_control_parameters
    (SHADE.set_memory (example_shade 2 ∅ ∅) example_memory_zero_F,
     {| ints := [4%nat; 1%nat]; reals := [1 # 2] |})
  = (Raise TypeError,
     (SHADE.set_memory (example_shade 2 ∅ ∅) example_memory_zero_F,
      {| ints := [1%nat]; reals := [1 # 2] |})).
Proof.
  apply (X19_control_parameters_none_slot
           (SHADE.set_memory (example_shade 2 ∅ ∅) example_memory_zero_F)
           4%nat [1%nat] [1 # 2]).
  - exact example_memory_zero_F_wf.
  - reflexivity.
Defined.

(** X20: [get_control_parameters] reads the strategy and writes nothing
    to it; the pair it returns has [CR_i] in [0, 1] and [F_i] between
    [F_MIN] and [F_MAX]. *)
Theorem X20_control_parameters (self self' : SHADE.t) (rng rng' : Rng)
    (r : result (Q * Q)) :
  SHADE.get_control_parameters (self, rng) = (r, (self', rng')) ->
  self' = self /\
  ((SHADE.F_MIN self <= SHADE.F_MAX self)%Q ->
   forall cr_i f_i, r = Ok (cr_i, f_i) ->
     (0 <= cr_i <= 1)%Q /\ (SHADE.F_MIN self <= f_i <= SHADE.F_MAX self)%Q).
Proof.
  intros Hrun.
  pose proof (kf_get_control_parameters (self, rng)) as Hk.
  rewrite Hrun in Hk. cbn in Hk. subst self'.
  split; [reflexivity|]. intros Hle cr_i f_i ->.
  eapply control_parameters_valid; eassumption.
Qed.

Lemma X20_control_parameters_witness :
  fst (snd (SHADE.get_control_parameters (example_shade 2 ∅ ∅, example_rng)))
  = example_shade 2 ∅ ∅ /\
  ((SHADE.F_MIN (example_shade 2 ∅ ∅) <= SHADE.F_MAX (example_shade 2 ∅ ∅))%Q ->
   forall cr_i f_i,
     fst (SHADE.get_control_parameters (example_shade 2 ∅ ∅, example_rng))
     = Ok (cr_i, f_i) ->
     (0 <= cr_i <= 1)%Q /\
     (SHADE.F_MIN (example_shade 2 ∅ ∅) <= f_i
      <= SHADE.F_MAX (example_shade 2 ∅ ∅))%Q).
Proof.
  apply (X20_control_parameters (example_shade 2 ∅ ∅) _ example_rng
           (snd (snd (SHADE.get_control_parameters
                        (example_shade 2 ∅ ∅, example_rng))))).
  reflexivity.
Defined.

Lemma kf_sample_r1_and_r2 (member : MemberState) (g : Generation) :
  keeps_fst (SHADE.__sample_r1_and_r2 member g).
Proof. unfold SHADE.__sample_r1_and_r2. kf_step. Qed.

(** X21: the footprint of [SHADE.mutate]. Whether it returns a trial or
    raises, the archive, the memory and the control parameters of the
    other members are as before: either nothing was written, and the call
    raised, or exactly the entries [CR[member.id]] and [F[member.id]]
    were, with values in [0, 1] and in [[F_MIN, F_MAX]]. *)
Theorem X21_mutate_footprint (member : MemberState) (g : Generation)
    (self self' : SHADE.t) (rng rng' : Rng) (r : result MemberState) :
  (SHADE.F_MIN self <= SHADE.F_MAX self)%Q ->
  SHADE.mutate member g (self, rng) = (r, (self', rng')) ->
  (self' = self /\ exists e, r = Raise e) \/
  (exists cr_i f_i,
     self' = SHADE.set_CR_F self (<[id member := cr_i]> (SHADE.CR self))
                                 (<[id member := f_i]> (SHADE.F self)) /\
     (0 <= cr_i <= 1)%Q /\
     (SHADE.F_MIN self <= f_i <= SHADE.F_MAX self)%Q).
Proof.
  intros Hle Hrun. unfold SHADE.mutate in Hrun.
  destruct (Z.of_nat (length g) <? 4).
  { left. injection Hrun as <- <- _. eauto. }
  unfold bind at 1 in Hrun.
  destruct (SHADE.get_control_parameters (self, rng))
    as [[[cr_i f_i]|e] [s1 rng1]] eqn:Hcp.
  - pose proof (kf_get_control_parameters (self, rng)) as Hk.
    rewrite Hcp in Hk. cbn in Hk. subst s1.
    destruct (control_parameters_valid _ _ _ _ _ _ Hle Hcp) as [Hcr Hf].
    right. exists cr_i, f_i. split; [|split; assumption].
    unfold bind at 1, on_fst at 1, get at 1 in Hrun. cbn [fst snd] in Hrun.
    unfold bind at 1, on_fst at 1, put at 1 in Hrun. cbn [fst snd] in Hrun.
    match type of Hrun with
    | ?m ?st = _ =>
        assert (Hrest : keeps_fst m);
        [|specialize (Hrest st); rewrite Hrun in Hrest; exact Hrest]
    end.
    kf_step.
  - left. pose proof (kf_get_control_parameters (self, rng)) as Hk.
    rewrite Hcp in Hk. cbn in Hk. subst s1.
    injection Hrun as <- <- _. eauto.
Qed.

Lemma X21_mutate_footprint_witness :
  let st := SHADE.mutate (example_member 0 (1 # 10)) (example_generation 6)
              (example_shade 2 ∅ ∅, example_rng) in
  (fst (snd st) = example_shade 2 ∅ ∅ /\ exists e, fst st = Raise e) \/
  (exists cr_i f_i,
     fst (snd st)
     = SHADE.set_CR_F (example_shade 2 ∅ ∅)
         (<[id (example_member 0 (1 # 10)) := cr_i]>
            (SHADE.CR (example_shade 2 ∅ ∅)))
         (<[id (example_member 0 (1 # 10)) := f_i]>
            (SHADE.F (example_shade 2 ∅ ∅))) /\
     (0 <= cr_i <= 1)%Q /\
     (SHADE.F_MIN (example_shade 2 ∅ ∅) <= f_i
      <= SHADE.F_MAX (example_shade 2 ∅ ∅))%Q).
Proof.
  apply (X21_mutate_footprint (example_member 0 (1 # 10))
           (example_generation 6) (example_shade 2 ∅ ∅) _ example_rng
           (snd (snd (SHADE.mutate (example_member 0 (1 # 10))
                        (example_generation 6)
                        (example_shade 2 ∅ ∅, example_rng))))).
  - discriminate.
  - reflexivity.
Defined.

(** X22: [SHADE.select] archives before it looks up the control
    parameters. For a surviving trial whose parent has no entry in [CR]
    (no [mutate] since the last generation start), it raises [KeyError]
    with the parent already appended to the archive. *)
Theorem X22_select_without_parameters (parent trial : MemberState)
    (self : SHADE.t) (rng : Rng) :
  __le__ parent trial = true ->
  full (SHADE.archive self) = false ->
  SHADE.CR self !! id parent = None ->
  SHADE.select parent trial (self, rng)
  = (Raise KeyError,
     (SHADE.set_archive self
        {| ExternalArchive.items :=
             ExternalArchive.items (SHADE.archive self) ++ [copy parent];
           ExternalArchive.size := ExternalArchive.size (SHADE.archive self) |},
      rng)).
Proof.
  intros Hle Hfull Hcr. unfold SHADE.select. rewrite Hle.
  unfold bind at 1, SHADE.with_archive at 1. cbn [fst snd].
  rewrite (append_not_full (copy parent) (SHADE.archive self) rng Hfull).
  unfold bind at 1, on_fst at 1, get at 1. cbn [fst snd].
  unfold bind at 1, lift at 1, SHADE.lookup at 1. cbn [SHADE.CR SHADE.set_archive].
  rewrite Hcr. reflexivity.
Qed.

Lemma X22_select_without_parameters_witness :
  SHADE.select (example_member 0 (1 # 10)) (example_member 0 (9 # 10))
    (example_shade 2 ∅ ∅, example_rng)
  = (Raise KeyError,
     (SHADE.set_archive (example_shade 2 ∅ ∅)
        {| ExternalArchive.items :=
             ExternalArchive.items (SHADE.archive (example_shade 2 ∅ ∅))
             ++ [copy (example_member 0 (1 # 10))];
           ExternalArchive.size :=
             ExternalArchive.size (SHADE.archive (example_shade 2 ∅ ∅)) |},
      example_rng)).
Proof.
  apply (X22_select_without_parameters (example_member 0 (1 # 10))
           (example_member 0 (9 # 10)) (example_shade 2 ∅ ∅) example_rng);
    reflexivity.
Defined.

(** X23: an archive of capacity 0 accepts nothing. It is full while
    empty, [append] asks [random.randrange(0)] for the index to evict and
    that raises [ValueError]; so with [round(N_INIT * r_arc) = 0] every
    [SHADE.select] of a surviving trial raises, the strategy
    unchanged. *)
Theorem X23_archive_capacity_zero (parent trial : MemberState)
    (self : SHADE.t) (rng : Rng) :
  SHADE.archive self = ExternalArchive.__init__ 0 ->
  __le__ parent trial = true ->
  ExternalArchive.append (copy parent) (SHADE.archive self, rng)
  = (Raise (ValueError msg_empty_range), (SHADE.archive self, rng)) /\
  SHADE.select parent trial (self, rng)
  = (Raise (ValueError msg_empty_range), (self, rng)).
Proof.
  intros Harc Hle.
  assert (Happ : ExternalArchive.append (copy parent)
                   (SHADE.archive self, rng)
                 = (Raise (ValueError msg_empty_range),
                    (SHADE.archive self, rng))).
  { rewrite Harc. reflexivity. }
  split; [exact Happ|].
  unfold SHADE.select. rewrite Hle.
  unfold bind at 1, SHADE.with_archive at 1. cbn [fst snd].
  rewrite Happ. destruct self; reflexivity.
Qed.

Lemma X23_archive_capacity_zero_witness :
  ExternalArchive.append (copy (example_member 0 (1 # 10)))
    (SHADE.archive (example_shade (1 # 100) ∅ ∅), example_rng)
  = (Raise (ValueError msg_empty_range),
     (SHADE.archive (example_shade (1 # 100) ∅ ∅), example_rng)) /\
  SHADE.select (example_member 0 (1 # 10)) (example_member 0 (9 # 10))
    (example_shade (1 # 100) ∅ ∅, example_rng)
  = (Raise (ValueError msg_empty_range),
     (example_shade (1 # 100) ∅ ∅, example_rng)).
Proof.
  apply (X23_archive_capacity_zero (example_member 0 (1 # 10))
           (example_member 0 (9 # 10)) (example_shade (1 # 100) ∅ ∅)
           example_rng); reflexivity.
Defined.

End SHADEExtras.

(** ** RandomWalk *)

Section RandomWalkFacts.
Import Evolution.








End RandomWalkFacts.

(** ** DifferentialEvolution: the candidates of [mutate] *)

Section DEMutate.
Import Evolution.

Lemma mapM_inv {S A B : Type} (f : A -> M S B) (l : list A) :
  forall (s s' : S) (bs : list B),
    mapM f l s = (Ok bs, s') ->
    Forall2 (fun a b => exists s1 s2, f a s1 = (Ok b, s2)) l bs.
Proof.
  induction l as [|a l IH]; intros s s' bs; cbn.
  - intros [= <- _]. constructor.
  - unfold bind at 1. destruct (f a s) as [[b|e] s1] eqn:Ha; [|discriminate].
    unfold bind at 1. destruct (mapM f l s1) as [[bs'|e] s2] eqn:Hl;
      [|discriminate].
    intros [= <- _]. constructor; [eauto|]. eapply IH. exact Hl.
Qed.

Lemma setitem_inv (m m' : MemberState) (j : nat) (v : Q) :
  __setitem__ m j v = Ok m' ->
  (j < length (parameters m))%nat /\
  m' = set_parameters m (<[j := clip v 0 1]> (parameters m)).
Proof.
  unfold __setitem__.
  destruct (j <? length (parameters m))%nat eqn:E; [|discriminate].
  intros [= <-]. apply Nat.ltb_lt in E. split; [exact E|reflexivity].
Qed.

Lemma getitem_inv (m : MemberState) (j : nat) (v : Q) :
  __getitem__ m j = Ok v -> parameters m !! j = Some v.
Proof.
  unfold __getitem__. destruct (parameters m !! j); [|discriminate].
  intros [= <-]. reflexivity.
Qed.

Lemma de_crossover_inv (self : DifferentialEvolution.t)
    (member x_r0 x_r1 x_r2 : MemberState) (j_rand : Z) (js : list nat) :
  forall (trial t' : MemberState) (rng rng' : Rng),
    DifferentialEvolution.crossover self member x_r0 x_r1 x_r2 j_rand js
      trial rng = (Ok t', rng') ->
    t' = set_parameters trial (parameters t') /\
    length (parameters t') = length (parameters trial) /\
    forall j v, parameters t' !! j = Some v ->
      parameters trial !! j = Some v \/
      parameters member !! j = Some v \/ (0 <= v <= 1)%Q.
Proof.
  induction js as [|j js IH]; intros trial t' rng rng'; cbn.
  - intros [= <- _]. rewrite set_parameters_id. auto.
  - unfold bind at 1.
    destruct (uniform01 rng) as [[u|e] rng1]; [|discriminate].
    unfold bind at 1.
    match goal with
    | |- context [match ?step rng1 with _ => _ end] =>
        destruct (step rng1) as [[trial1|e] rng2] eqn:Hstep; [|discriminate];
        assert (Hset : exists v,
                   __setitem__ trial j v = Ok trial1 /\
                   (parameters member !! j = Some v \/ (0 <= v <= 1)%Q))
    end.
    { destruct (Qle_bool u (DifferentialEvolution.Cr self)
                || (Z.of_nat j =? j_rand)).
      - unfold bind, lift in Hstep.
        destruct (__getitem__ x_r0 j); [|discriminate].
        destruct (__getitem__ x_r1 j); [|discriminate].
        destruct (__getitem__ x_r2 j); [|discriminate].
        eexists. split.
        + injection Hstep as Hs _. exact Hs.
        + right. apply clip_range. lra.
      - unfold bind, lift in Hstep.
        destruct (__getitem__ member j) as [v|] eqn:Hv; [|discriminate].
        exists v. split.
        + injection Hstep as Hs _. exact Hs.
        + left. apply getitem_inv. exact Hv. }
    destruct Hset as (v0 & Hset & Hv0).
    apply setitem_inv in Hset as [Hj ->].
    intros Hrun. apply IH in Hrun as (Heq & Hlen & Hcoord).
    cbn [parameters set_parameters] in *.
    rewrite length_insert in Hlen.
    split; [rewrite Heq at 1; reflexivity|]. split; [exact Hlen|].
    intros j0 v Hlook. destruct (Hcoord j0 v Hlook) as [H|H]; [|auto].
    destruct (decide (j = j0)) as [<-|Hne].
    + rewrite list_lookup_insert_eq in H by exact Hj.
      injection H as <-. right. right. apply clip_range. lra.
    + rewrite list_lookup_insert_ne in H by exact Hne. auto.
Qed.

Lemma de_mutate_member_inv (self : DifferentialEvolution.t)
    (g : Generation) (member parent trial : MemberState) (rng rng' : Rng) :
  DifferentialEvolution.mutate_member self g member rng
  = (Ok (parent, trial), rng') ->
  parent = member /\
  trial = set_parameters member (parameters trial) /\
  Forall2 (fun v u => v = u \/ (0 <= v <= 1)%Q)
          (parameters trial) (parameters member).
Proof.
  unfold DifferentialEvolution.mutate_member, copy.
  unfold bind at 1.
  destruct (random_from_list g 3 [member] rng) as [[rs|e] rng1];
    [|discriminate].
  destruct rs as [|x_r0 [|x_r1 [|x_r2 [|]]]]; try discriminate.
  unfold bind at 1.
  destruct (randrange _ rng1) as [[j_rand|e] rng2]; [|discriminate].
  unfold bind at 1.
  destruct (DifferentialEvolution.crossover _ _ _ _ _ _ _ _ rng2)
    as [[t'|e] rng3] eqn:Hcross; [|discriminate].
  intros [= <- <- _].
  apply de_crossover_inv in Hcross as (Heq & Hlen & Hcoord).
  split; [reflexivity|]. split; [exact Heq|].
  apply Forall2_same_length_lookup_2; [exact Hlen|].
  intros j v u Hv Hu.
  destruct (Hcoord j v Hv) as [H|[H|H]]; [| |right; exact H];
    left; congruence.
Qed.

(** X25: the candidates of [DifferentialEvolution.mutate]. When the
    generator runs to its end, it has produced one pair per member, in
    the order of the generation: the member itself and a trial that
    differs from it in its coordinates only, each coordinate being either
    the member's own or a number in [0, 1]. *)
Theorem X25_de_mutate_candidates (self : DifferentialEvolution.t)
    (g : Generation) (rng rng' : Rng)
    (candidates : list (MemberState * MemberState)) :
  DifferentialEvolution.mutate self g rng = (Ok candidates, rng') ->
  (3 <= length g)%nat /\
  Forall2 (fun member c =>
             fst c = member /\
             snd c = set_parameters member (parameters (snd c)) /\
             Forall2 (fun v u => v = u \/ (0 <= v <= 1)%Q)
                     (parameters (snd c)) (parameters member))
          g candidates.
Proof.
  unfold DifferentialEvolution.mutate.
  destruct (Z.of_nat (length g) <? 3) eqn:Hsize; [discriminate|].
  intros Hrun. split; [lia|].
  apply mapM_inv in Hrun.
  eapply Forall2_impl; [exact Hrun|].
  intros member [parent trial] (s1 & s2 & Hm). cbn [fst snd].
  eapply de_mutate_member_inv. exact Hm.
Qed.

Lemma X25_de_mutate_candidates_witness :
  let run := DifferentialEvolution.mutate example_de (example_generation 4)
               example_long_rng in
  let candidates := match fst run with Ok cs => cs | Raise _ => [] end in
  (3 <= length (example_generation 4))%nat /\
  Forall2 (fun member c =>
             fst c = member /\
             snd c = set_parameters member (parameters (snd c)) /\
             Forall2 (fun v u => v = u \/ (0 <= v <= 1)%Q)
                     (parameters (snd c)) (parameters member))
          (example_generation 4) candidates.
Proof.
  apply (X25_de_mutate_candidates example_de (example_generation 4)
           example_long_rng
           (snd (DifferentialEvolution.mutate example_de
                   (example_generation 4) example_long_rng))).
  vm_compute. reflexivity.
Defined.

End DEMutate.

(** ** L-SHADE: the size schedule *)

Section SizeSchedule.
Import Evolution.
Import LSHADE.



(** X27: [adjust_generation_size] is idempotent. With distinct member
    ids and a non-negative target size, the call succeeds, leaves
    [min(|G|, N_new)] members, and a second call at the same evaluation
    count changes nothing. *)
Theorem X27_adjust_idempotent (self : LSHADE.t) (g : Generation) (n : Z) :
  new_size self = Ok n -> 0 <= n -> List.NoDup (map id g) ->
  exists st : LSHADE.t * Generation,
    adjust_generation_size (self, g) = (Ok tt, st) /\
    Z.of_nat (length (snd st)) = Z.min (Z.of_nat (length g)) n /\
    adjust_generation_size st = (Ok tt, st).
Proof.
  intros Hn Hpos Hnodup.
  destruct (Z_le_gt_dec (Z.of_nat (length g)) n) as [Hle|Hgt].
  - exists (self, g).
    rewrite (adjust_unchanged self g n Hn Hle). cbn [snd].
    split; [reflexivity|]. split; [lia|reflexivity].
  - pose proof (adjust_shrinks self g n Hn ltac:(lia) Hnodup) as Hrun.
    cbv zeta in Hrun. rewrite Hrun.
    set (d := Z.to_nat (Z.of_nat (length g) - n)) in *.
    set (g' := List.filter (fun x => negb (contains (firstn d (sorted g)) x))
                 g) in *.
    assert (Hlen : Z.of_nat (length g') = n).
    { unfold g'. rewrite (Permutation_length (kept_perm g d Hnodup)).
      rewrite length_skipn, (Permutation_length (sorted_perm g)).
      unfold d. lia. }
    eexists. split; [reflexivity|]. cbn [snd].
    split; [lia|].
    apply (adjust_unchanged _ g' n); [|lia].
    unfold new_size in *. exact Hn.
Qed.

Lemma X27_adjust_idempotent_witness :
  exists st : LSHADE.t * Generation,
    adjust_generation_size (example_lshade 2 950, example_generation 6)
    = (Ok tt, st) /\
    Z.of_nat (length (snd st))
    = Z.min (Z.of_nat (length (example_generation 6))) 5 /\
    adjust_generation_size st = (Ok tt, st).
Proof.
  apply (X27_adjust_idempotent (example_lshade 2 950)
           (example_generation 6) 5).
  - reflexivity.
  - lia.
  - exact (example_generation_ids 6).
Defined.

End SizeSchedule.

(** ** DecayingLSHADE and GuidedLSHADE *)

Section GuidedControl.
Import Evolution.

Lemma with_shade_control_inv (self self' : LSHADE.t) (rng rng' : Rng)
    (r : result (Q * Q)) :
  with_shade SHADE.get_control_parameters (self, rng) = (r, (self', rng')) ->
  self' = self /\
  SHADE.get_control_parameters (LSHADE.super self, rng)
  = (r, (LSHADE.super self, rng')).
Proof.
  unfold with_shade. cbn [fst snd].
  pose proof (kf_get_control_parameters (LSHADE.super self, rng)) as Hk.
  destruct (SHADE.get_control_parameters (LSHADE.super self, rng))
    as [r0 [base rng0]].
  cbn in Hk. subst base. intros [= <- <- <-].
  split; [destruct self; reflexivity|reflexivity].
Qed.

Lemma guided_control_inv (guide : Q -> Z -> Z -> result Q)
    (self self' : LSHADE.t) (rng rng' : Rng) (cr f : Q) :
  (cf <- with_shade SHADE.get_control_parameters ;;
   self <- on_fst get ;;
   f <- lift (guide (snd cf) (LSHADE._nfe self) (LSHADE.MAX_NFE self)) ;;
   ret (fst cf, f))%py (self, rng) = (Ok (cr, f), (self', rng')) ->
  self' = self /\
  exists f0,
    SHADE.get_control_parameters (LSHADE.super self, rng)
    = (Ok (cr, f0), (LSHADE.super self, rng')) /\
    guide f0 (LSHADE._nfe self) (LSHADE.MAX_NFE self) = Ok f.
Proof.
  unfold bind at 1.
  destruct (with_shade SHADE.get_control_parameters (self, rng))
    as [[[cr0 f0]|e] [s1 rng1]] eqn:Hcp; [|discriminate].
  apply with_shade_control_inv in Hcp as [-> Hcp].
  unfold bind at 1, on_fst at 1, get at 1. cbn [fst snd].
  unfold bind, lift, ret.
  destruct (guide f0 (LSHADE._nfe self) (LSHADE.MAX_NFE self)) as [f1|e]
    eqn:Hg; [|discriminate].
  intros [= <- <- <- <-]. split; [reflexivity|]. exists f0. auto.
Qed.

Lemma progress_range (nfe max_nfe : Z) :
  0 < max_nfe -> 0 <= nfe <= max_nfe ->
  exists x : Q,
    div (inject_Z nfe) (inject_Z max_nfe) = Ok x /\ (0 <= x <= 1)%Q /\
    (nfe = max_nfe -> (x == 1)%Q).
Proof.
  intros Hmax Hnfe.
  assert (HmaxQ : (0 < inject_Z max_nfe)%Q).
  { change 0%Q with (inject_Z 0). rewrite <- Zlt_Qlt. exact Hmax. }
  assert (H0 : (0 <= inject_Z nfe)%Q).
  { change 0%Q with (inject_Z 0). rewrite <- Zle_Qle. lia. }
  assert (H1 : (inject_Z nfe <= inject_Z max_nfe)%Q).
  { rewrite <- Zle_Qle. lia. }
  rewrite div_nonzero by lra. eexists. split; [reflexivity|].
  split; [split|].
  - apply Qle_shift_div_l; lra.
  - apply Qle_shift_div_r; lra.
  - intros ->. field. lra.
Qed.

Lemma curve_range (x : Q) :
  (0 <= x <= 1)%Q ->
  (0 <= curve x 5 <= 1)%Q /\ ((x == 1)%Q -> (curve x 5 == 1)%Q).
Proof.
  intros Hx.
  assert (Heq : (curve x 5 == (x * x) * (x * x) * x)%Q).
  { unfold curve. simpl. ring. }
  rewrite Heq.
  assert (H2 : (0 <= x * x <= 1)%Q) by nra.
  set (y := (x * x)%Q) in *.
  assert (H4 : (0 <= y * y <= 1)%Q) by nra.
  set (z := (y * y)%Q) in *.
  split; [nra|]. intros H1. unfold z, y. rewrite H1. ring.
Qed.

(** X28: the decayed mutation factor. With the evaluation count within
    the budget, the [F] that [DecayingLSHADE.get_control_parameters]
    returns under the linear or the curve decay lies between 0 and
    [F_MAX], is 0 when the budget is used up, and the strategy object is
    left as it was; [F_MIN] is no longer a lower bound. *)
Theorem X28_decayed_F (decay : Q -> Z -> Z -> result Q)
    (self self' : LSHADE.t) (rng rng' : Rng) (cr f : Q) :
  decay = DecayingLSHADE.linear \/ decay = DecayingLSHADE.curved ->
  0 < LSHADE.MAX_NFE self -> 0 <= LSHADE._nfe self <= LSHADE.MAX_NFE self ->
  (0 <= SHADE.F_MIN (LSHADE.super self))%Q ->
  (SHADE.F_MIN (LSHADE.super self) <= SHADE.F_MAX (LSHADE.super self))%Q ->
  DecayingLSHADE.get_control_parameters decay (self, rng)
  = (Ok (cr, f), (self', rng')) ->
  self' = self /\ (0 <= cr <= 1)%Q /\
  (0 <= f <= SHADE.F_MAX (LSHADE.super self))%Q /\
  (LSHADE._nfe self = LSHADE.MAX_NFE self -> (f == 0)%Q).
Proof.
  intros Hdecay Hmax Hnfe Hmin Hle Hrun.
  apply guided_control_inv in Hrun as (-> & f0 & Hcp & Hf).
  destruct (control_parameters_valid _ _ _ _ _ _ Hle Hcp) as [Hcr Hf0].
  destruct (progress_range _ _ Hmax Hnfe) as (x & Hx & Hx01 & Hx1).
  split; [reflexivity|]. split; [exact Hcr|].
  destruct Hdecay as [-> | ->].
  - unfold DecayingLSHADE.linear in Hf. rewrite Hx in Hf. cbn in Hf.
    injection Hf as <-. split; [nra|].
    intros Hend. rewrite (Hx1 Hend). ring.
  - unfold DecayingLSHADE.curved in Hf. rewrite Hx in Hf. cbn -[curve] in Hf.
    injection Hf as <-.
    destruct (curve_range x Hx01) as [Hc Hc1].
    change (x * (x * x * (x * x)))%Q with (curve x 5).
    set (c := curve x 5) in *. split; [nra|].
    intros Hend. rewrite (Hc1 (Hx1 Hend)). ring.
Qed.

Lemma X28_decayed_F_witness :
  let run := DecayingLSHADE.get_control_parameters DecayingLSHADE.linear
               (example_lshade 2 500, example_rng) in
  let cf := match fst run with Ok cf => cf | Raise _ => (0%Q, 0%Q) end in
  fst (snd run) = example_lshade 2 500 /\ (0 <= fst cf <= 1)%Q /\
  (0 <= snd cf <= SHADE.F_MAX (LSHADE.super (example_lshade 2 500)))%Q /\
  (LSHADE._nfe (example_lshade 2 500) = LSHADE.MAX_NFE (example_lshade 2 500)
   -> (snd cf == 0)%Q).
Proof.
  apply (X28_decayed_F DecayingLSHADE.linear (example_lshade 2 500) _
           example_rng
           (snd (snd (DecayingLSHADE.get_control_parameters
                        DecayingLSHADE.linear
                        (example_lshade 2 500, example_rng))))).
  - left. reflexivity.
  - reflexivity.
  - cbn. lia.
  - discriminate.
  - discriminate.
  - vm_compute. reflexivity.
Defined.

(** X29: the guided mutation factor. Under the linear or the curve guide
    with a strength in [0, 1], the [F] that
    [GuidedLSHADE.get_control_parameters] returns lies between the [F]
    SHADE drew and the guide's own value, which starts at 1 and ends at 0;
    so it stays in [0, 1] when [F_MAX <= 1]. *)
Theorem X29_guided_F (strength : Q) (guide : Q -> Z -> Z -> result Q)
    (self self' : LSHADE.t) (rng rng' : Rng) (cr f : Q) :
  guide = GuidedLSHADE.linear strength \/
  guide = GuidedLSHADE.curved strength ->
  (0 <= strength <= 1)%Q ->
  0 < LSHADE.MAX_NFE self -> 0 <= LSHADE._nfe self <= LSHADE.MAX_NFE self ->
  (0 <= SHADE.F_MIN (LSHADE.super self))%Q ->
  (SHADE.F_MIN (LSHADE.super self) <= SHADE.F_MAX (LSHADE.super self))%Q ->
  GuidedLSHADE.get_control_parameters guide (self, rng)
  = (Ok (cr, f), (self', rng')) ->
  self' = self /\ (0 <= cr <= 1)%Q /\
  exists f0 target : Q,
    (SHADE.F_MIN (LSHADE.super self) <= f0
     <= SHADE.F_MAX (LSHADE.super self))%Q /\
    (0 <= target <= 1)%Q /\
    (f == f0 + (target - f0) * strength)%Q /\
    ((f0 <= f <= target)%Q \/ (target <= f <= f0)%Q) /\
    ((SHADE.F_MAX (LSHADE.super self) <= 1)%Q -> (0 <= f <= 1)%Q).
Proof.
  intros Hguide Hs Hmax Hnfe Hmin Hle Hrun.
  apply guided_control_inv in Hrun as (-> & f0 & Hcp & Hf).
  destruct (control_parameters_valid _ _ _ _ _ _ Hle Hcp) as [Hcr Hf0].
  destruct (progress_range _ _ Hmax Hnfe) as (x & Hx & Hx01 & Hx1).
  split; [reflexivity|]. split; [exact Hcr|].
  assert (Hmix : forall target : Q,
             (0 <= target <= 1)%Q ->
             ((f0 <= f0 + (target - f0) * strength <= target)%Q \/
              (target <= f0 + (target - f0) * strength <= f0)%Q) /\
             ((SHADE.F_MAX (LSHADE.super self) <= 1)%Q ->
              (0 <= f0 + (target - f0) * strength <= 1)%Q)).
  { intros target Ht.
    destruct (Qlt_le_dec target f0) as [Hlt|Hge].
    - split; [right; nra|]. intros H1. nra.
    - split; [left; nra|]. intros H1. nra. }
  destruct Hguide as [-> | ->].
  - unfold GuidedLSHADE.linear in Hf. rewrite Hx in Hf. cbn in Hf.
    injection Hf as <-.
    exists f0, (1 - x)%Q. split; [exact Hf0|]. split; [lra|].
    split; [reflexivity|]. apply Hmix. lra.
  - unfold GuidedLSHADE.curved in Hf. rewrite Hx in Hf. cbn -[curve] in Hf.
    injection Hf as <-.
    destruct (curve_range x Hx01) as [Hc _].
    change (x * (x * x * (x * x)))%Q with (curve x 5).
    exists f0, (1 - curve x 5)%Q. split; [exact Hf0|]. split; [lra|].
    split; [reflexivity|]. apply Hmix. lra.
Qed.

Lemma X29_guided_F_witness :
  let run := GuidedLSHADE.get_control_parameters
               (GuidedLSHADE.linear (1 # 2))
               (example_lshade 2 500, example_rng) in
  let cf := match fst run with Ok cf => cf | Raise _ => (0%Q, 0%Q) end in
  fst (snd run) = example_lshade 2 500 /\ (0 <= fst cf <= 1)%Q /\
  exists f0 target : Q,
    (SHADE.F_MIN (LSHADE.super (example_lshade 2 500)) <= f0
     <= SHADE.F_MAX (LSHADE.super (example_lshade 2 500)))%Q /\
    (0 <= target <= 1)%Q /\
    (snd cf == f0 + (target - f0) * (1 # 2))%Q /\
    ((f0 <= snd cf <= target)%Q \/ (target <= snd cf <= f0)%Q) /\
    ((SHADE.F_MAX (LSHADE.super (example_lshade 2 500)) <= 1)%Q ->
     (0 <= snd cf <= 1)%Q).
Proof.
  apply (X29_guided_F (1 # 2) (GuidedLSHADE.linear (1 # 2))
           (example_lshade 2 500) _ example_rng
           (snd (snd (GuidedLSHADE.get_control_parameters
                        (GuidedLSHADE.linear (1 # 2))
                        (example_lshade 2 500, example_rng))))).
  - left. reflexivity.
  - split; discriminate.
  - reflexivity.
  - cbn. lia.
  - discriminate.
  - discriminate.
  - vm_compute. reflexivity.
Defined.

End GuidedControl.

(** ** Controller: the end criteria *)

Section EndCriteria.
Import Evolution.
Import Controller.

(** X30: when the population is finished. The check answers yes exactly
    when the ['nfe'] threshold is reached, or some current member
    reaches the ['score'] target, or every current member has done the
    ['steps'] asked for. A threshold that is missing or zero is never
    reached; so with none of the three set, the answer is yes only for
    an empty generation. *)
Theorem X30_population_finished (self : Controller.t) :
  (__is_population_finished self = true <->
   (exists n, criterion self "nfe" = Some n /\ (n <= inject_Z (nfe self))%Q)
   \/ (exists s member,
         criterion self "score" = Some s /\ In member (current self) /\
         __ge__ member s = true)
   \/ (forall member, In member (current self) ->
         exists s, criterion self "steps" = Some s /\
                   (s <= inject_Z (steps member))%Q)) /\
  (criterion self "nfe" = None -> criterion self "score" = None ->
   criterion self "steps" = None ->
   (__is_population_finished self = true <-> current self = [])).
Proof.
  assert (Hsteps :
            forallb (__is_member_finished self) (current self) = true <->
            (forall member, In member (current self) ->
               exists s, criterion self "steps" = Some s /\
                         (s <= inject_Z (steps member))%Q)).
  { rewrite forallb_forall. unfold __is_member_finished.
    split; intros H member Hin; specialize (H member Hin).
    - destruct (criterion self "steps") as [s|]; [|discriminate].
      exists s. split; [reflexivity|]. apply Qle_bool_iff. exact H.
    - destruct H as (s & -> & Hs). apply Qle_bool_iff. exact Hs. }
  split.
  - unfold __is_population_finished.
    destruct (criterion self "nfe") as [n|] eqn:Hn.
    + destruct (Qle_bool n (inject_Z (nfe self))) eqn:Hreach.
      * split; [|reflexivity]. intros _. left. exists n.
        split; [reflexivity|]. apply Qle_bool_iff. exact Hreach.
      * assert (Hno : ~ (n <= inject_Z (nfe self))%Q).
        { intros H. apply Qle_bool_iff in H. congruence. }
        destruct (criterion self "score") as [s|] eqn:Hs.
        -- destruct (existsb (fun member => __ge__ member s) (current self))
             eqn:Hex.
           ++ split; [|reflexivity]. intros _. right. left.
              apply existsb_exists in Hex as (member & Hin & Hge).
              exists s, member. auto.
           ++ destruct (forallb _ _) eqn:Hall.
              ** split; [|reflexivity]. intros _. right. right.
                 apply Hsteps. reflexivity.
              ** split; [discriminate|].
                 intros [(n' & [= <-] & H)|[(s' & member & [= <-] & Hin & Hge)
                                           |H]].
                 --- contradiction.
                 --- assert (existsb (fun member => __ge__ member s)
                               (current self) = true)
                       by (apply existsb_exists; eauto).
                     congruence.
                 --- apply Hsteps in H. congruence.
        -- destruct (forallb _ _) eqn:Hall.
           ++ split; [|reflexivity]. intros _. right. right.
              apply Hsteps. reflexivity.
           ++ split; [discriminate|].
              intros [(n' & [= <-] & H)|[(s' & member & [=] & _)|H]].
              ** contradiction.
              ** apply Hsteps in H. congruence.
    + destruct (criterion self "score") as [s|] eqn:Hs.
      * destruct (existsb (fun member => __ge__ member s) (current self))
          eqn:Hex.
        -- split; [|reflexivity]. intros _. right. left.
           apply existsb_exists in Hex as (member & Hin & Hge).
           exists s, member. auto.
        -- destruct (forallb _ _) eqn:Hall.
           ++ split; [|reflexivity]. intros _. right. right.
              apply Hsteps. reflexivity.
           ++ split; [discriminate|].
              intros [(n' & [=] & _)|[(s' & member & [= <-] & Hin & Hge)|H]].
              ** assert (existsb (fun member => __ge__ member s)
                           (current self) = true)
                   by (apply existsb_exists; eauto).
                 congruence.
              ** apply Hsteps in H. congruence.
      * destruct (forallb _ _) eqn:Hall.
        -- split; [|reflexivity]. intros _. right. right.
           apply Hsteps. reflexivity.
        -- split; [discriminate|].
           intros [(n' & [=] & _)|[(s' & member & [=] & _)|H]].
           apply Hsteps in H. congruence.
  - intros Hn Hs Hst. unfold __is_population_finished, __is_member_finished.
    rewrite Hn, Hs, Hst.
    destruct (current self); cbn; split; congruence.
Qed.

Lemma X30_population_finished_witness :
  __is_population_finished example_controller = true <->
  (exists n, criterion example_controller "nfe" = Some n /\
             (n <= inject_Z (nfe example_controller))%Q)
  \/ (exists s member,
        criterion example_controller "score" = Some s /\
        In member (current example_controller) /\
        __ge__ member s = true)
  \/ (forall member, In member (current example_controller) ->
        exists s, criterion example_controller "steps" = Some s /\
                  (s <= inject_Z (steps member))%Q).
Proof. apply (proj1 (X30_population_finished example_controller)). Defined.

End EndCriteria.
